(** * andrewzc-api: the admin session mechanism and the content endpoints

    A shallow embedding of the Express server of the repository (the three
    revisions of the server file that are part of the sources) and the
    properties of its specification.

    Conventions of the model.
    - A JavaScript string is a Rocq [string]: the bytes of its UTF-8
      text, which is what Node hands to [crypto] and to the store.  The
      [length] of JavaScript counts UTF-16 units, and is computed from
      these bytes; a lone surrogate, which has no UTF-8 text, is outside
      the model.
    - What the sources call and do not hold is taken as given and left
      open: the case conversions of the engine (its Unicode tables), the
      password hasher, and what the store makes of a query operator.
    - The fields of a login body are JSON values or missing; the value of
      the session cookie is a string or missing.
    - A MongoDB collection is the list of its documents in natural order;
      a sort returns ties in that order.
    - A run of requests is a sequence: each request is handled to its end
      before the next one starts.
    - A request handler is a computation in a small state-and-exception
      monad over the [World]: the database, and the faults the store will
      raise on its next operations.  The update of [lastSeenAt], which the
      middleware starts without awaiting it, runs where it is started. *)

From Stdlib Require Import ZArith String Ascii List Bool Lia Sorted.
From stdpp Require Import base option list gmap strings.
Import ListNotations.

Local Open Scope Z_scope.

(* ===================================================================== *)
(** ** Bytes and text encodings *)
(* ===================================================================== *)

Module Bytes.

(** The bytes of a string, each one a [Z] in [0, 256). *)
Definition of_string (s : string) : list Z :=
  map (fun c => Z.of_N (N_of_ascii c)) (list_ascii_of_string s).

Definition hex_digit (n : Z) : ascii :=
  ascii_of_N (Z.to_N (if n <? 10 then 48 + n else 87 + n)).

(** [Buffer.toString("hex")]: two lower-case digits per byte. *)
Fixpoint hex (bs : list Z) : string :=
  match bs with
  | [] => EmptyString
  | b :: r => String (hex_digit (Z.shiftr b 4))
                (String (hex_digit (Z.land b 15)) (hex r))
  end.

(** The alphabet of base64url: A-Z a-z 0-9 - _ *)
Definition b64url_digit (n : Z) : ascii :=
  ascii_of_N (Z.to_N
    (if n <? 26 then 65 + n
     else if n <? 52 then 71 + n
     else if n <? 62 then n - 4
     else if n =? 62 then 45 else 95)).

(** [Buffer.toString("base64url")]: three bytes give four digits, and
    the last group carries no padding. *)
Fixpoint base64url (bs : list Z) : string :=
  match bs with
  | [] => EmptyString
  | [a] =>
      String (b64url_digit (Z.shiftr a 2))
        (String (b64url_digit (Z.shiftl (Z.land a 3) 4)) EmptyString)
  | [a; b] =>
      String (b64url_digit (Z.shiftr a 2))
        (String (b64url_digit (Z.lor (Z.shiftl (Z.land a 3) 4) (Z.shiftr b 4)))
           (String (b64url_digit (Z.shiftl (Z.land b 15) 2)) EmptyString))
  | a :: b :: c :: r =>
      String (b64url_digit (Z.shiftr a 2))
        (String (b64url_digit (Z.lor (Z.shiftl (Z.land a 3) 4) (Z.shiftr b 4)))
           (String (b64url_digit (Z.lor (Z.shiftl (Z.land b 15) 2) (Z.shiftr c 6)))
              (String (b64url_digit (Z.land c 63)) (base64url r))))
  end.

End Bytes.

(* ===================================================================== *)
(** ** SHA-256 and HMAC, as Node's [crypto] computes them *)
(* ===================================================================== *)

Module Sha256.

Definition w32 (x : Z) : Z := x mod 4294967296.
Definition add32 (x y : Z) : Z := w32 (x + y).
Definition rotr (n x : Z) : Z :=
  w32 (Z.lor (Z.shiftr x n) (Z.shiftl x (32 - n))).
Definition not32 (x : Z) : Z := 4294967295 - x.

(** The round constants and the initial hash value of the standard, in
    decimal. *)
Definition round_constants : list Z :=
  [ 1116352408; 1899447441; 3049323471; 3921009573;
    961987163; 1508970993; 2453635748; 2870763221;
    3624381080; 310598401; 607225278; 1426881987;
    1925078388; 2162078206; 2614888103; 3248222580;
    3835390401; 4022224774; 264347078; 604807628;
    770255983; 1249150122; 1555081692; 1996064986;
    2554220882; 2821834349; 2952996808; 3210313671;
    3336571891; 3584528711; 113926993; 338241895;
    666307205; 773529912; 1294757372; 1396182291;
    1695183700; 1986661051; 2177026350; 2456956037;
    2730485921; 2820302411; 3259730800; 3345764771;
    3516065817; 3600352804; 4094571909; 275423344;
    430227734; 506948616; 659060556; 883997877;
    958139571; 1322822218; 1537002063; 1747873779;
    1955562222; 2024104815; 2227730452; 2361852424;
    2428436474; 2756734187; 3204031479; 3329325298 ].

Definition initial_hash : list Z :=
  [ 1779033703; 3144134277; 1013904242; 2773480762;
    1359893119; 2600822924; 528734635; 1541459225 ].

Definition word_at (ws : list Z) (i : nat) : Z := nth i ws 0.

(** Big-endian words of a block of bytes. *)
Fixpoint words_of (bs : list Z) : list Z :=
  match bs with
  | a :: b :: c :: d :: r =>
      (Z.shiftl a 24 + Z.shiftl b 16 + Z.shiftl c 8 + d) :: words_of r
  | _ => []
  end.

Definition bytes_of_word (w : Z) : list Z :=
  [ Z.land (Z.shiftr w 24) 255; Z.land (Z.shiftr w 16) 255;
    Z.land (Z.shiftr w 8) 255; Z.land w 255 ].

Definition small_sigma0 (x : Z) : Z :=
  Z.lxor (Z.lxor (rotr 7 x) (rotr 18 x)) (Z.shiftr x 3).
Definition small_sigma1 (x : Z) : Z :=
  Z.lxor (Z.lxor (rotr 17 x) (rotr 19 x)) (Z.shiftr x 10).
Definition big_sigma0 (x : Z) : Z :=
  Z.lxor (Z.lxor (rotr 2 x) (rotr 13 x)) (rotr 22 x).
Definition big_sigma1 (x : Z) : Z :=
  Z.lxor (Z.lxor (rotr 6 x) (rotr 11 x)) (rotr 25 x).
Definition choose (e f g : Z) : Z :=
  Z.lxor (Z.land e f) (Z.land (not32 e) g).
Definition majority (a b c : Z) : Z :=
  Z.lxor (Z.lxor (Z.land a b) (Z.land a c)) (Z.land b c).

(** The message schedule, grown from the sixteen words of the block;
    [ws] holds the words so far, the newest first. *)
Fixpoint schedule (n : nat) (ws : list Z) : list Z :=
  match n with
  | O => ws
  | S n' =>
      let w := add32 (add32 (word_at ws 15) (small_sigma0 (word_at ws 14)))
                     (add32 (word_at ws 6) (small_sigma1 (word_at ws 1))) in
      schedule n' (w :: ws)
  end.

Record regs := Regs { ra : Z; rb : Z; rc : Z; rd : Z;
                      re : Z; rf : Z; rg : Z; rh : Z }.

Definition round (s : regs) (kw : Z * Z) : regs :=
  let t1 := add32 (add32 (add32 (rh s) (big_sigma1 (re s)))
                         (choose (re s) (rf s) (rg s)))
                  (add32 (fst kw) (snd kw)) in
  let t2 := add32 (big_sigma0 (ra s)) (majority (ra s) (rb s) (rc s)) in
  Regs (add32 t1 t2) (ra s) (rb s) (rc s) (add32 (rd s) t1) (re s) (rf s) (rg s).

Definition regs_of (h : list Z) : regs :=
  Regs (word_at h 0) (word_at h 1) (word_at h 2) (word_at h 3)
       (word_at h 4) (word_at h 5) (word_at h 6) (word_at h 7).

Definition compress (h : list Z) (block : list Z) : list Z :=
  let ws := rev (schedule 48 (rev (words_of block))) in
  let s := fold_left round (combine round_constants ws) (regs_of h) in
  [ add32 (word_at h 0) (ra s); add32 (word_at h 1) (rb s);
    add32 (word_at h 2) (rc s); add32 (word_at h 3) (rd s);
    add32 (word_at h 4) (re s); add32 (word_at h 5) (rf s);
    add32 (word_at h 6) (rg s); add32 (word_at h 7) (rh s) ].

(** Padding: a one bit, zeros, and the bit length on eight bytes. *)
Definition pad (msg : list Z) : list Z :=
  let len := Z.of_nat (length msg) in
  let zeros := Z.to_nat ((55 - len) mod 64) in
  msg ++ [128] ++ repeat 0 zeros
      ++ bytes_of_word (Z.shiftr (8 * len) 32) ++ bytes_of_word (w32 (8 * len)).

Fixpoint absorb (fuel : nat) (h : list Z) (bs : list Z) : list Z :=
  match fuel with
  | O => h
  | S fuel' =>
      match bs with
      | [] => h
      | _ => absorb fuel' (compress h (firstn 64 bs)) (skipn 64 bs)
      end
  end.

Definition digest (msg : list Z) : list Z :=
  let padded := pad msg in
  flat_map bytes_of_word (absorb (length padded) initial_hash padded).

Definition block_size : nat := 64.

(** The key block of HMAC: a key longer than a block is hashed first,
    and the result is filled with zeros up to the block size. *)
Definition key_block (key : list Z) : list Z :=
  let k := if (block_size <? length key)%nat then digest key else key in
  k ++ repeat 0 (block_size - length k)%nat.

Definition hmac (key msg : list Z) : list Z :=
  let kb := key_block key in
  let inner := digest (map (Z.lxor 0x36) kb ++ msg) in
  digest (map (Z.lxor 0x5c) kb ++ inner).

End Sha256.

(** [crypto.createHash("sha256").update(input).digest("hex")] *)
Definition sha256Hex (input : string) : string :=
  Bytes.hex (Sha256.digest (Bytes.of_string input)).

(** [crypto.createHmac("sha256", key).update(data).digest("hex")] *)
Definition createHmacSha256Hex (key data : string) : string :=
  Bytes.hex (Sha256.hmac (Bytes.of_string key) (Bytes.of_string data)).

(* ===================================================================== *)
(** ** The string functions of JavaScript that the server calls *)
(* ===================================================================== *)

Module Js.

Local Open Scope string_scope.

(** [s.toLowerCase()] and [s.toUpperCase()] follow the Unicode tables of
    the engine, which are no part of the sources: the two functions are
    taken as given. *)
Record CaseTables := mkCaseTables {
  toLowerCase : string -> string;
  toUpperCase : string -> string
}.

(** The conversions of the ASCII letters, which is what the tables of the
    engine do to ASCII text. *)
Definition is_upper (c : ascii) : bool :=
  let n := nat_of_ascii c in ((65 <=? n) && (n <=? 90))%nat.
Definition is_lower (c : ascii) : bool :=
  let n := nat_of_ascii c in ((97 <=? n) && (n <=? 122))%nat.

Definition lower_char (c : ascii) : ascii :=
  if is_upper c then ascii_of_nat (nat_of_ascii c + 32) else c.
Definition upper_char (c : ascii) : ascii :=
  if is_lower c then ascii_of_nat (nat_of_ascii c - 32) else c.

Fixpoint map_chars (f : ascii -> ascii) (s : string) : string :=
  match s with
  | EmptyString => EmptyString
  | String c r => String (f c) (map_chars f r)
  end.

Definition ascii_lower (s : string) : string := map_chars lower_char s.
Definition ascii_upper (s : string) : string := map_chars upper_char s.

Definition ascii_tables : CaseTables := mkCaseTables ascii_lower ascii_upper.

(** The bytes of UTF-8: a continuation byte is in [128, 192); a byte from
    240 on leads a character of four bytes, which takes two UTF-16 units
    (a surrogate pair); every other byte that is no continuation leads a
    character of one unit. *)
Definition is_continuation (c : ascii) : bool :=
  let n := nat_of_ascii c in ((128 <=? n) && (n <? 192))%nat.

Definition leads_pair (c : ascii) : bool := (240 <=? nat_of_ascii c)%nat.

Definition units_of (c : ascii) : nat :=
  if is_continuation c then 0%nat else if leads_pair c then 2%nat else 1%nat.

(** [s.length] *)
Fixpoint length (s : string) : nat :=
  match s with
  | EmptyString => O
  | String c r => (units_of c + length r)%nat
  end.

(** The continuation bytes at the head of a string, and what follows. *)
Fixpoint continuation (s : string) : string * string :=
  match s with
  | EmptyString => (EmptyString, EmptyString)
  | String c r =>
      if is_continuation c
      then let '(k, rest) := continuation r in (String c k, rest)
      else (EmptyString, s)
  end.

(** [s.charAt(0)] and [s.slice(1)] cut a string after its first UTF-16
    unit: after its first character, or in the middle of the surrogate
    pair of a first character of four bytes. *)
Inductive FirstUnit : Type :=
| NoUnit
| Character (c rest : string)
| HalfOfPair.

Definition first_unit (s : string) : FirstUnit :=
  match s with
  | EmptyString => NoUnit
  | String c r =>
      if leads_pair c then HalfOfPair
      else let '(k, rest) := continuation r in Character (String c k) rest
  end.

(** [s.split(sep)] for a separator of one character: the empty string
    splits into one empty token. *)
Fixpoint split (sep : ascii) (s : string) : list string :=
  match s with
  | EmptyString => [EmptyString]
  | String c r =>
      if Ascii.eqb c sep then EmptyString :: split sep r
      else match split sep r with
           | w :: ws => String c w :: ws
           | [] => [String c EmptyString]
           end
  end.

(** [xs.join(sep)] *)
Fixpoint join (sep : string) (xs : list string) : string :=
  match xs with
  | [] => EmptyString
  | [x] => x
  | x :: r => x ++ sep ++ join sep r
  end.

(** Truthiness of a string: [Boolean(s)], and [!s] is its negation. *)
Definition truthy (s : string) : bool :=
  match s with EmptyString => false | _ => true end.

(** [s.includes(t)] *)
Fixpoint includes (s t : string) : bool :=
  String.prefix t s ||
  match s with
  | EmptyString => false
  | String _ r => includes r t
  end.

End Js.

(** [toTitleCaseWord(w)]: [lower.charAt(0).toUpperCase() + lower.slice(1)].
    When the first unit of [lower] is half of a surrogate pair, the
    conversion leaves it as it is and the concatenation puts the pair
    together again; the empty string has no first unit, and stays empty. *)
Definition toTitleCaseWord (t : Js.CaseTables) (w : string) : string :=
  if negb (Js.truthy w) then w
  else
    let lower := Js.toLowerCase t w in
    match Js.first_unit lower with
    | Js.Character c rest => (Js.toUpperCase t c ++ rest)%string
    | Js.HalfOfPair | Js.NoUnit => lower
    end.

(** [cityKeyToDisplayName(key)]; the handler passes a string, so
    [String(key || "")] is [key] itself. *)
Definition cityKeyToDisplayName (t : Js.CaseTables) (key : string) : string :=
  let parts := List.filter Js.truthy (Js.split "-" key) in
  if (length parts =? 0)%nat then EmptyString
  else
    let last := List.last parts EmptyString in
    let rest := removelast parts in
    if ((Js.length last =? 2)%nat && (0 <? length rest)%nat)%bool then
      let left := Js.join " " (map (toTitleCaseWord t) rest) in
      (left ++ ", " ++ Js.toUpperCase t last)%string
    else Js.join " " (map (toTitleCaseWord t) parts).

(* ===================================================================== *)
(** ** Documents and the collections of the store *)
(* ===================================================================== *)

(** A value of a stored document or of a JSON body. *)
#[warnings="-register-all"]
Inductive value : Type :=
| VNull
| VBool (b : bool)
| VNum (n : Z)
| VStr (s : string)
| VDate (ms : Z)
| VOid (n : N)
| VArr (xs : list value)
| VObj (fields : list (string * value)).

(** A document of the [entities] and [pages] collections, and a JSON
    object of a request body: a finite map from field names to values. *)
Abbreviation doc := (gmap string value).

(** A document of the [accounts] collection. *)
Record Account := mkAccount {
  account_id : N;
  username : string;
  passwordHash : string;
  roles : list string;
  disabled : bool
}.

(** A document of the [sessions] collection, with the fields that the
    login handler writes. *)
Record Session := mkSession {
  session_id : N;
  accountId : N;
  sessionTokenHash : string;
  createdAt : Z;
  lastSeenAt : Z;
  revokedAt : option Z;
  label : option value;
  ip : option string;
  userAgent : option string
}.

Record Db := mkDb {
  accounts : list Account;
  sessions : list Session;
  entities : list doc;
  pages : list doc
}.

(** An error object thrown by the driver or by a library: its [name]
    (the class of the error), its [code] when it has one, its [message]. *)
Record JsError := mkError {
  err_name : string;
  err_code : option Z;
  err_message : string
}.

(** The world a handler runs in: the database, the counter that stands
    for the driver's fresh ObjectIds, and the outcome the store has in
    stock for each of the next operations ([Some e]: that operation
    throws [e]; an exhausted list: no more faults). *)
Record World := mkWorld {
  db : Db;
  next_oid : N;
  faults : list (option JsError)
}.

(** What a request sees of its environment: the clock read by
    [new Date()], the bytes that [crypto.randomBytes] delivers, and the
    headers and socket address that the login handler records. *)
Record Env := mkEnv {
  now : Z;
  random_byte : nat -> Z;
  x_forwarded_for : option string;
  remoteAddress : option string;
  user_agent : option string
}.

(** What the server is started with: the configuration read from the
    environment, and the software that the sources call and do not hold.
    - [argon2_verify hash password] is [argon2.verify], called on whatever
      JSON value the body carries as its password;
    - [mongo_operators fields] is what the store makes of a query on the
      username that is an operator document ([{ "$ne": ... }] and the
      like): an error, or the test that the username has to pass;
    - [case_tables] are the case conversions of the engine. *)
Record Config := mkConfig {
  SESSION_PEPPER : string;
  NODE_ENV_production : bool;
  argon2_verify : string -> value -> JsError + bool;
  mongo_operators : list (string * value) -> JsError + (string -> bool);
  case_tables : Js.CaseTables
}.

(* ===================================================================== *)
(** ** The monad of handlers: state and exceptions *)
(* ===================================================================== *)

Inductive Result (A : Type) : Type :=
| Ok (a : A)
| Throw (e : JsError).
Arguments Ok {A} a.
Arguments Throw {A} e.

Definition M (A : Type) : Type := World -> Result A * World.

Definition ret {A} (a : A) : M A := fun w => (Ok a, w).
Definition throw {A} (e : JsError) : M A := fun w => (Throw e, w).

Definition bind {A B} (m : M A) (k : A -> M B) : M B :=
  fun w => match m w with
           | (Ok a, w') => k a w'
           | (Throw e, w') => (Throw e, w')
           end.

(** [try { m } catch (err) { h(err) }] *)
Definition try_catch {A} (m : M A) (h : JsError -> M A) : M A :=
  fun w => match m w with
           | (Ok a, w') => (Ok a, w')
           | (Throw e, w') => h e w'
           end.

Definition gets {A} (f : Db -> A) : M A := fun w => (Ok (f (db w)), w).
Definition modify (f : Db -> Db) : M unit :=
  fun w => (Ok tt, mkWorld (f (db w)) (next_oid w) (faults w)).

(** A fresh ObjectId, as the driver makes one for a document without. *)
Definition fresh_oid : M N :=
  fun w => (Ok (next_oid w), mkWorld (db w) (N.succ (next_oid w)) (faults w)).

(** One round trip to the store: it may throw what the world holds in
    stock for it. *)
Definition store_call : M unit :=
  fun w => match faults w with
           | [] => (Ok tt, w)
           | None :: r => (Ok tt, mkWorld (db w) (next_oid w) r)
           | Some e :: r => (Throw e, mkWorld (db w) (next_oid w) r)
           end.

Declare Scope handler_scope.
Delimit Scope handler_scope with handler.
Notation "'await' x <- m ; k" := (bind m (fun x => k))
  (at level 10, x name, m at level 100, k at level 200) : handler_scope.
Notation "'exec' m ; k" := (bind m (fun _ => k))
  (at level 10, m at level 100, k at level 200) : handler_scope.
Local Open Scope handler_scope.

(** [connectToMongo()] *)
Definition connectToMongo : M unit := store_call.

(** The first element that satisfies [p], replaced by its image. *)
Fixpoint update_first {A} (p : A -> bool) (f : A -> A) (l : list A) : list A :=
  match l with
  | [] => []
  | x :: r => if p x then f x :: r else x :: update_first p f r
  end.

Definition duplicate_key : JsError :=
  mkError "MongoServerError" (Some 11000) "E11000 duplicate key error collection".

(** *** The [accounts] and [sessions] collections *)

(** The query [{ username: u, disabled: false }] on a string [u] *)
Definition enabled_account (u : string) (a : Account) : bool :=
  String.eqb (username a) u && negb (disabled a).

(** A field name that starts with a dollar sign names an operator. *)
Definition is_operator (k : string) : bool :=
  match k with String "$" _ => true | _ => false end.

(** The test that the query [{ username: q }] puts to the username of an
    account, for the JSON value [q] of the body.  A string asks for that
    username; a document whose first field is an operator is the store's
    to read; any other value (null, a number, a boolean, an array, a
    plain document) is compared with the username, which is a string,
    and never equals it. *)
Definition username_filter (cfg : Config) (q : value) : JsError + (string -> bool) :=
  match q with
  | VStr u => inr (fun name => String.eqb name u)
  | VObj ((k, v) :: fields) =>
      if is_operator k then mongo_operators cfg ((k, v) :: fields)
      else inr (fun _ => false)
  | _ => inr (fun _ => false)
  end.

(** [accounts.findOne({ username, disabled: false })] *)
Definition accounts_findOne (cfg : Config) (q : value) : M (option Account) :=
  exec store_call;
  match username_filter cfg q with
  | inl e => throw e
  | inr test =>
      gets (fun d => List.find (fun a => test (username a) && negb (disabled a))
                               (accounts d))
  end.

Definition is_active (s : Session) : bool :=
  match revokedAt s with None => true | Some _ => false end.

(** The queries [{ sessionTokenHash: h }] and
    [{ sessionTokenHash: h, revokedAt: null }] *)
Definition has_hash (h : string) (s : Session) : bool :=
  String.eqb (sessionTokenHash s) h.

Definition active_with_hash (h : string) (s : Session) : bool :=
  has_hash h s && is_active s.

(** [sessions.findOne({ sessionTokenHash, revokedAt: null })] *)
Definition sessions_findOne (h : string) : M (option Session) :=
  exec store_call;
  gets (fun d => List.find (active_with_hash h) (sessions d)).

(** [sessions.insertOne(doc)]: the driver gives the document its [_id];
    the unique index on [sessionTokenHash] set up by [ensureIndexes]
    refuses a digest that the collection already holds. *)
Definition sessions_insertOne (mk : N -> Session) : M unit :=
  exec store_call;
  await id <- fresh_oid;
  let s := mk id in
  await taken <- gets (fun d => existsb (has_hash (sessionTokenHash s)) (sessions d));
  if taken then throw duplicate_key
  else modify (fun d => mkDb (accounts d) (sessions d ++ [s]) (entities d) (pages d)).

Definition set_lastSeenAt (t : Z) (s : Session) : Session :=
  mkSession (session_id s) (accountId s) (sessionTokenHash s) (createdAt s)
            t (revokedAt s) (label s) (ip s) (userAgent s).

Definition set_revokedAt (t : Z) (s : Session) : Session :=
  mkSession (session_id s) (accountId s) (sessionTokenHash s) (createdAt s)
            (lastSeenAt s) (Some t) (label s) (ip s) (userAgent s).

Definition has_id (id : N) (s : Session) : bool := N.eqb (session_id s) id.

(** [sessions.updateOne({ _id }, { $set: { lastSeenAt: t } })] *)
Definition sessions_touch (id : N) (t : Z) : M unit :=
  exec store_call;
  modify (fun d =>
    mkDb (accounts d)
         (update_first (has_id id) (set_lastSeenAt t) (sessions d))
         (entities d) (pages d)).

(** [sessions.updateOne({ sessionTokenHash }, { $set: { revokedAt: t } })] *)
Definition sessions_revoke (h : string) (t : Z) : M unit :=
  exec store_call;
  modify (fun d =>
    mkDb (accounts d)
         (update_first (has_hash h) (set_revokedAt t) (sessions d))
         (entities d) (pages d)).

(** *** The [entities] and [pages] collections *)

Definition is_string (s : string) (v : value) : bool :=
  match v with VStr t => String.eqb t s | _ => false end.

(** The equality filter [{ f: s }] of a query on a string: the field is
    that string, or an array that holds it. *)
Definition field_eq (f s : string) (d : doc) : bool :=
  match d !! f with
  | Some (VStr t) => String.eqb t s
  | Some (VArr xs) => existsb (is_string s) xs
  | _ => false
  end.

(** The order of the store on values.  Values of different kinds are
    ordered by kind, a missing field counting as null; numbers, strings
    (byte by byte), booleans, dates and ids are ordered among themselves.
    The model stops there: two objects, and two arrays, are left tied,
    where the store goes on to compare them field by field. *)
Definition kind_rank (v : option value) : Z :=
  match v with
  | None | Some VNull => 1
  | Some (VNum _) => 2
  | Some (VStr _) => 3
  | Some (VObj _) => 4
  | Some (VArr _) => 5
  | Some (VOid _) => 6
  | Some (VBool _) => 7
  | Some (VDate _) => 8
  end.

Definition value_leb (a b : option value) : bool :=
  if kind_rank a <? kind_rank b then true
  else if kind_rank b <? kind_rank a then false
  else match a, b with
       | Some (VNum x), Some (VNum y) => x <=? y
       | Some (VStr x), Some (VStr y) => String.leb x y
       | Some (VBool x), Some (VBool y) => implb x y
       | Some (VDate x), Some (VDate y) => x <=? y
       | Some (VOid x), Some (VOid y) => (x <=? y)%N
       | _, _ => true
       end.

(** What an ascending sort compares for a field.  For an array it is the
    least of its elements; an array without elements comes before
    everything, null and the missing field included. *)
Definition least (x : value) (xs : list value) : value :=
  fold_left (fun m y => if value_leb (Some m) (Some y) then m else y) xs x.

Inductive SortKey : Type :=
| BeforeAll
| KeyOf (v : option value).

Definition sort_key (v : option value) : SortKey :=
  match v with
  | Some (VArr []) => BeforeAll
  | Some (VArr (x :: xs)) => KeyOf (Some (least x xs))
  | _ => KeyOf v
  end.

Definition key_leb (a b : SortKey) : bool :=
  match a, b with
  | BeforeAll, _ => true
  | KeyOf _, BeforeAll => false
  | KeyOf x, KeyOf y => value_leb x y
  end.

(** The order of a sort on a field. *)
Definition field_leb (a b : option value) : bool :=
  key_leb (sort_key a) (sort_key b).

(** The order of [.sort({ f1: 1, f2: 1, ... })]: the first field decides,
    and a tie passes the decision to the next. *)
Fixpoint doc_leb (spec : list string) (d1 d2 : doc) : bool :=
  match spec with
  | [] => true
  | f :: r =>
      if field_leb (d1 !! f) (d2 !! f)
      then (if field_leb (d2 !! f) (d1 !! f) then doc_leb r d1 d2 else true)
      else false
  end.

Fixpoint insert_sorted (spec : list string) (x : doc) (l : list doc) : list doc :=
  match l with
  | [] => [x]
  | y :: r => if doc_leb spec x y then x :: y :: r else y :: insert_sorted spec x r
  end.

(** The documents in the order of the sort; ties keep the natural order. *)
Fixpoint sort_docs (spec : list string) (l : list doc) : list doc :=
  match l with
  | [] => []
  | x :: r => insert_sorted spec x (sort_docs spec r)
  end.

(** [coll.find(q).sort(spec).toArray()] *)
Definition find_sorted (coll : Db -> list doc) (q : doc -> bool) (spec : list string)
  : M (list doc) :=
  exec store_call;
  gets (fun d => sort_docs spec (List.filter q (coll d))).

(** [coll.findOne(q)] *)
Definition findOne (coll : Db -> list doc) (q : doc -> bool) : M (option doc) :=
  exec store_call;
  gets (fun d => List.find q (coll d)).

(** Equality of two values, as the index on [_id] compares them. *)
Fixpoint value_eqb (a b : value) : bool :=
  match a, b with
  | VNull, VNull => true
  | VBool x, VBool y => Bool.eqb x y
  | VNum x, VNum y => x =? y
  | VStr x, VStr y => String.eqb x y
  | VDate x, VDate y => x =? y
  | VOid x, VOid y => (x =? y)%N
  | VArr xs, VArr ys =>
      (fix all2 (xs ys : list value) : bool :=
         match xs, ys with
         | [], [] => true
         | x :: xs', y :: ys' => value_eqb x y && all2 xs' ys'
         | _, _ => false
         end) xs ys
  | VObj fs, VObj gs =>
      (fix all2 (fs gs : list (string * value)) : bool :=
         match fs, gs with
         | [], [] => true
         | (k, x) :: fs', (k', y) :: gs' =>
             String.eqb k k' && value_eqb x y && all2 fs' gs'
         | _, _ => false
         end) fs gs
  | _, _ => false
  end.

(** The document has the [_id] [v]. *)
Definition has_entity_id (v : value) (d : doc) : bool :=
  match d !! "_id" with Some v' => value_eqb v' v | None => false end.

Definition bad_id : JsError :=
  mkError "MongoServerError" (Some 2) "can't use an array for _id".

(** [entities.insertOne(payload)]: a payload whose [_id] is missing or
    null receives a fresh one, and the call leaves it in the payload; the
    store refuses an [_id] that is an array, and an [_id] that a stored
    entity has (the index on [_id]).  The handler looks the list and the
    key up before it inserts, so the unique index on them has nothing
    left to refuse in a run of requests one after the other. *)
Definition needs_id (payload : doc) : bool :=
  match payload !! "_id" with
  | None | Some VNull => true
  | Some _ => false
  end.

Definition is_array (v : value) : bool :=
  match v with VArr _ => true | _ => false end.

(** The [_id] of a document that has one. *)
Definition id_of (d : doc) : value := default VNull (d !! "_id").

Definition entities_insertOne (payload : doc) : M doc :=
  exec store_call;
  await stored <-
    (if needs_id payload
     then await id <- fresh_oid; ret (<["_id" := VOid id]> payload)
     else ret payload);
  if is_array (id_of stored) then throw bad_id
  else
    await taken <- gets (fun d => existsb (has_entity_id (id_of stored)) (entities d));
    if taken then throw duplicate_key
    else
      exec modify (fun d =>
        mkDb (accounts d) (sessions d) (entities d ++ [stored]) (pages d));
      ret stored.

(** [entities.findOneAndUpdate(q, { $set: set }, { returnDocument: "after" })]:
    the fields of [set] replace those of the first document that matches;
    [result.value] is that document after the update, as the versions 4
    and 5 of the driver answer.  Field names are taken as they are: what
    the store does with a name that holds a dot or starts with a dollar
    sign is not modelled, and the properties of the values of an update
    are stated for bodies with plain names. *)
Fixpoint update_matching (q : doc -> bool) (set : doc) (l : list doc)
  : option doc * list doc :=
  match l with
  | [] => (None, [])
  | d :: r =>
      if q d then (Some (set ∪ d), (set ∪ d) :: r)
      else let '(res, r') := update_matching q set r in (res, d :: r')
  end.

Definition entities_findOneAndUpdate (q : doc -> bool) (set : doc) : M (option doc) :=
  exec store_call;
  await res <- gets (fun d => fst (update_matching q set (entities d)));
  exec modify (fun d =>
    mkDb (accounts d) (sessions d) (snd (update_matching q set (entities d))) (pages d));
  ret res.

(** [stripMongoId(doc)] *)
Definition stripMongoId (d : doc) : doc := delete "_id" d.

(** Truthiness of a value of a document. *)
Definition value_truthy (v : value) : bool :=
  match v with
  | VNull => false
  | VBool b => b
  | VNum n => negb (n =? 0)
  | VStr s => Js.truthy s
  | _ => true
  end.

(** [xs.findIndex(p)] *)
Fixpoint findIndex {A} (p : A -> bool) (l : list A) : option nat :=
  match l with
  | [] => None
  | x :: r => if p x then Some O else S <$> findIndex p r
  end.

(* ===================================================================== *)
(** ** Responses *)
(* ===================================================================== *)

Record CookieOptions := mkCookieOptions {
  httpOnly : bool;
  secure : bool;
  sameSite : string;
  path : string;
  maxAge : Z
}.

Inductive CookieAction : Type :=
| NoCookie
| SetCookie (name val : string) (opts : CookieOptions)
| ClearCookie (name path : string).

(** The JSON bodies that the handlers send. *)
Inductive Body : Type :=
| ErrorBody (error message : string)
| ErrorObject (error : string) (err : JsError)
| OkBody
| AuthenticatedBody (authenticated : bool)
| DocBody (d : doc)
| PageBody (info : doc) (ents : list doc)
| PagesBody (ps : list doc)
| CountryBody (country : option doc) (ents : list doc)
| CityBody (city : option doc) (ents : list doc).

Record Response := mkResponse {
  status : Z;
  body : Body;
  cookie : CookieAction
}.

(** [res.status(code).json(b)], and [res.json(b)] with the status 200
    that Express starts from. *)
Definition json (code : Z) (b : Body) : Response := mkResponse code b NoCookie.

(* ===================================================================== *)
(** ** The admin session mechanism (third revision of the server) *)
(* ===================================================================== *)

(** [sessionTokenToHash(token)] *)
Definition sessionTokenToHash (cfg : Config) (token : string) : string :=
  createHmacSha256Hex (SESSION_PEPPER cfg) token.

(** [crypto.randomBytes(n)] *)
Definition randomBytes (env : Env) (n : nat) : list Z :=
  map (fun i => random_byte env i mod 256) (seq 0 n).

(** [makeSessionToken()] *)
Definition makeSessionToken (env : Env) : string :=
  Bytes.base64url (randomBytes env 32).

(** [adminCookieOptions()] *)
Definition adminCookieOptions (cfg : Config) : CookieOptions :=
  let isProd := NODE_ENV_production cfg in
  mkCookieOptions true isProd "none" "/" (1000 * 60 * 60 * 24 * 365 * 10).

(** [String(err)] of an error object: the name and the message, or the
    one of them that is not empty. *)
Definition error_toString (err : JsError) : string :=
  if negb (Js.truthy (err_name err)) then err_message err
  else if negb (Js.truthy (err_message err)) then err_name err
  else (err_name err ++ ": " ++ err_message err)%string.

(** [cleanError(err)] on an error object: [err.message || String(err)]. *)
Definition cleanError (err : JsError) : string :=
  if Js.truthy (err_message err) then err_message err else error_toString err.

(** Truthiness of a property that may be missing, and [x || null]. *)
Definition opt_truthy (o : option string) : bool :=
  match o with Some s => Js.truthy s | None => false end.

Definition json_truthy (o : option value) : bool :=
  match o with Some v => value_truthy v | None => false end.

Definition json_or_null (o : option value) : option value :=
  if json_truthy o then o else None.

Definition or_null (o : option string) : option string :=
  if opt_truthy o then o else None.

Definition or_else (o1 o2 : option string) : option string :=
  if opt_truthy o1 then o1 else o2.

(** A call into a library that may throw. *)
Definition lift {A} (r : JsError + A) : M A :=
  match r with inl e => throw e | inr a => ret a end.

Record AdminCtx := mkAdmin {
  admin_accountId : N;
  admin_sessionId : N
}.

(** What a middleware does: it answers, or calls [next()] with what it
    attached to the request. *)
Inductive Gate : Type :=
| Respond (r : Response)
| Next (admin : AdminCtx).

(** [requireAdminSession(req, res, next)]; [raw] is
    [req.cookies?.admin_session].  The update of [lastSeenAt] is started
    and not awaited, and its rejection is dropped. *)
Definition requireAdminSession (cfg : Config) (env : Env) (raw : option string) : M Gate :=
  try_catch
    (if negb (opt_truthy raw) then
       ret (Respond (json 401 (ErrorBody "unauthorized" "Missing admin session")))
     else
       let sessionTokenHash := sessionTokenToHash cfg (default EmptyString raw) in
       exec connectToMongo;
       await session <- sessions_findOne sessionTokenHash;
       match session with
       | None =>
           ret (Respond (json 401 (ErrorBody "unauthorized" "Invalid or revoked session")))
       | Some s =>
           exec try_catch (sessions_touch (session_id s) (now env)) (fun _ => ret tt);
           ret (Next (mkAdmin (accountId s) (session_id s)))
       end)
    (fun err => ret (Respond (json 500 (ErrorBody "internal_error" (cleanError err))))).

(** A route registered behind the middleware.  The handlers are async
    functions: what happens in them never reaches the [try] of the
    middleware. *)
Definition behind_admin (cfg : Config) (env : Env) (raw : option string)
    (handler : AdminCtx -> M Response) : M Response :=
  await g <- requireAdminSession cfg env raw;
  match g with
  | Respond r => ret r
  | Next admin => handler admin
  end.

(** The three fields that the login handler reads from [req.body || {}]:
    JSON values, or missing. *)
Record LoginBody := mkLoginBody {
  json_username : option value;
  json_password : option value;
  json_label : option value
}.

(** The field when it is a string. *)
Definition as_string (o : option value) : option string :=
  match o with Some (VStr s) => Some s | _ => None end.

Definition body_username (b : LoginBody) : option string := as_string (json_username b).
Definition body_password (b : LoginBody) : option string := as_string (json_password b).

(** A missing field reads as [undefined], which the store and the hasher
    never see: the handler has answered by then. *)
Definition or_undefined (o : option value) : value := default VNull o.

Definition invalid_credentials : Response :=
  json 401 (ErrorBody "unauthorized" "Invalid credentials").

(** [POST /admin/login] *)
Definition post_admin_login (cfg : Config) (env : Env) (b : LoginBody) : M Response :=
  try_catch
    (let username := json_username b in
     let password := json_password b in
     if negb (json_truthy username) || negb (json_truthy password) then
       ret (json 400 (ErrorBody "bad_request" "Missing username or password"))
     else
       exec connectToMongo;
       await account <- accounts_findOne cfg (or_undefined username);
       match account with
       | None => ret invalid_credentials
       | Some a =>
           await ok <- lift (argon2_verify cfg (passwordHash a) (or_undefined password));
           if negb ok then ret invalid_credentials
           else
             let sessionToken := makeSessionToken env in
             let sessionTokenHash := sessionTokenToHash cfg sessionToken in
             exec sessions_insertOne (fun id =>
               mkSession id (account_id a) sessionTokenHash (now env) (now env) None
                 (json_or_null (json_label b))
                 (or_else (x_forwarded_for env) (or_null (remoteAddress env)))
                 (or_null (user_agent env)));
             ret (mkResponse 200 OkBody
                    (SetCookie "admin_session" sessionToken (adminCookieOptions cfg)))
       end)
    (fun err => ret (json 500 (ErrorBody "internal_error" (cleanError err)))).

(** [POST /admin/logout], the handler behind the middleware *)
Definition logout_handler (cfg : Config) (env : Env) (raw : option string) : M Response :=
  try_catch
    (let sessionTokenHash := sessionTokenToHash cfg (default EmptyString raw) in
     exec connectToMongo;
     exec sessions_revoke sessionTokenHash (now env);
     ret (mkResponse 200 OkBody (ClearCookie "admin_session" "/")))
    (fun err => ret (json 500 (ErrorBody "internal_error" (cleanError err)))).

Definition post_admin_logout (cfg : Config) (env : Env) (raw : option string) : M Response :=
  behind_admin cfg env raw (fun _ => logout_handler cfg env raw).

(** [GET /admin/me] *)
Definition get_admin_me (cfg : Config) (raw : option string) : M Response :=
  try_catch
    (if negb (opt_truthy raw) then ret (json 200 (AuthenticatedBody false))
     else
       let sessionTokenHash := sessionTokenToHash cfg (default EmptyString raw) in
       exec connectToMongo;
       await session <- sessions_findOne sessionTokenHash;
       ret (json 200 (AuthenticatedBody (match session with Some _ => true | None => false end))))
    (fun _ => ret (json 200 (AuthenticatedBody false))).

(* ===================================================================== *)
(** ** The content endpoints and the entity routes *)
(* ===================================================================== *)

Definition name_then_key : list string := ["name"; "key"]%string.

(** [GET /pages/:id] (second and third revisions) *)
Definition get_page (id : string) : M Response :=
  try_catch
    (exec connectToMongo;
     await pageDoc <- findOne pages (field_eq "key" id);
     match pageDoc with
     | None =>
         ret (json 404 (ErrorBody "page_not_found"
                          ("No page found for key='" ++ id ++ "'")))
     | Some p =>
         await entityDocs <- find_sorted entities (field_eq "list" id) name_then_key;
         ret (json 200 (PageBody (stripMongoId p) (map stripMongoId entityDocs)))
     end)
    (fun err => ret (json 500 (ErrorObject "internal_error" err))).

(** [GET /pages] *)
Definition get_pages : M Response :=
  try_catch
    (exec connectToMongo;
     await pageDocs <- find_sorted pages (fun _ => true) name_then_key;
     ret (json 200 (PagesBody (map stripMongoId pageDocs))))
    (fun err => ret (json 500 (ErrorObject "internal_error" err))).

(** The canonical entity of a listing, hoisted out of it:
    [all.findIndex(e => e.list === tag)], the entity at that index, and
    the others. *)
Definition hoist (tag : string) (all : list doc) : option doc * list doc :=
  match findIndex (fun e => match e !! "list" with
                            | Some v => is_string tag v
                            | None => false
                            end) all with
  | Some i => (all !! i, delete i all)
  | None => (None, all)
  end.

(** [GET /countries/:code] *)
Definition get_country (cfg : Config) (code_param : string) : M Response :=
  let code := Js.toUpperCase (case_tables cfg) code_param in
  if negb (Js.truthy code) then
    ret (json 400 (ErrorBody "bad_request" "Missing country code"))
  else
    try_catch
      (exec connectToMongo;
       await entityDocs <-
         find_sorted entities
           (fun d => field_eq "country" code d || field_eq "countries" code d)
           name_then_key;
       let all := map stripMongoId entityDocs in
       let '(countryEntity, rest) := hoist "countries" all in
       ret (json 200 (CountryBody countryEntity rest)))
      (fun err => ret (json 500 (ErrorObject "internal_error" err))).

(** [GET /cities/:key] *)
Definition get_city (cfg : Config) (key : string) : M Response :=
  let city := cityKeyToDisplayName (case_tables cfg) key in
  if negb (Js.truthy city) then
    ret (json 400 (ErrorBody "bad_request" "Missing city key"))
  else
    try_catch
      (exec connectToMongo;
       await entityDocs <- find_sorted entities (field_eq "city" city) name_then_key;
       let all := map stripMongoId entityDocs in
       let '(cityEntity, rest) := hoist "cities" all in
       ret (json 200 (CityBody cityEntity rest)))
      (fun err => ret (json 500 (ErrorObject "internal_error" err))).

Definition same_list_key (list key : string) (d : doc) : bool :=
  field_eq "list" list d && field_eq "key" key d.

(** [GET /entities/:list/:key] *)
Definition get_entity (list key : string) : M Response :=
  if negb (Js.truthy list) || negb (Js.truthy key) then
    ret (json 400 (ErrorBody "bad_request" "Missing list or key"))
  else
    try_catch
      (exec connectToMongo;
       await found <- findOne entities (same_list_key list key);
       match found with
       | None => ret (json 404 (ErrorBody "not_found" "Entity not found"))
       | Some d => ret (json 200 (DocBody (stripMongoId d)))
       end)
      (fun err => ret (json 500 (ErrorBody "internal_error" (cleanError err)))).

(** The payload that [POST /entities/:list/:key] builds from the body. *)
Definition post_payload (env : Env) (list key : string) (req_body : option doc) : doc :=
  let payload := default ∅ req_body in
  let payload := <["list" := VStr list]> payload in
  let payload := <["key" := VStr key]> payload in
  let payload := <["updatedAt" := VDate (now env)]> payload in
  match payload !! "createdAt" with
  | Some v => if value_truthy v then payload else <["createdAt" := VDate (now env)]> payload
  | None => <["createdAt" := VDate (now env)]> payload
  end.

Definition is_duplicate_key (err : JsError) : bool :=
  match err_code err with Some c => c =? 11000 | None => false end
  || Js.includes (error_toString err) "E11000".

(** [POST /entities/:list/:key], the handler behind the middleware *)
Definition post_entity_handler (env : Env) (list key : string) (req_body : option doc)
  : M Response :=
  if negb (Js.truthy list) || negb (Js.truthy key) then
    ret (json 400 (ErrorBody "bad_request" "Missing list or key"))
  else
    try_catch
      (exec connectToMongo;
       let payload := post_payload env list key req_body in
       await existing <- findOne entities (same_list_key list key);
       match existing with
       | Some _ => ret (json 409 (ErrorBody "conflict" "Entity already exists"))
       | None =>
           await stored <- entities_insertOne payload;
           ret (json 201 (DocBody (stripMongoId stored)))
       end)
      (fun err =>
         if is_duplicate_key err then
           ret (json 409 (ErrorBody "conflict" "Entity already exists"))
         else ret (json 500 (ErrorBody "internal_error" (cleanError err)))).

(** The patch that [PUT /entities/:list/:key] builds from the body, and
    the document of its [$set]. *)
Definition put_patch (req_body : option doc) : doc :=
  delete "key" (delete "list" (delete "_id" (default ∅ req_body))).

Definition put_set (env : Env) (req_body : option doc) : doc :=
  <["updatedAt" := VDate (now env)]> (put_patch req_body).

(** [PUT /entities/:list/:key], the handler behind the middleware *)
Definition put_entity_handler (env : Env) (list key : string) (req_body : option doc)
  : M Response :=
  if negb (Js.truthy list) || negb (Js.truthy key) then
    ret (json 400 (ErrorBody "bad_request" "Missing list or key"))
  else
    try_catch
      (exec connectToMongo;
       await result <- entities_findOneAndUpdate (same_list_key list key)
                         (put_set env req_body);
       match result with
       | None => ret (json 404 (ErrorBody "not_found" "Entity not found"))
       | Some d => ret (json 200 (DocBody (stripMongoId d)))
       end)
      (fun err => ret (json 500 (ErrorBody "internal_error" (cleanError err)))).

Definition post_entity (cfg : Config) (env : Env) (raw : option string)
    (list key : string) (req_body : option doc) : M Response :=
  behind_admin cfg env raw (fun _ => post_entity_handler env list key req_body).

Definition put_entity (cfg : Config) (env : Env) (raw : option string)
    (list key : string) (req_body : option doc) : M Response :=
  behind_admin cfg env raw (fun _ => put_entity_handler env list key req_body).

(** The first revision of the server ([server.js]) has one content
    route, and its listing is sorted on the name alone. *)
Module ServerJs.

(** [GET /pages/:id] *)
Definition get_page (id : string) : M Response :=
  try_catch
    (exec connectToMongo;
     await pageDoc <- findOne pages (field_eq "key" id);
     match pageDoc with
     | None =>
         ret (json 404 (ErrorBody "page_not_found"
                          ("No page found for key='" ++ id ++ "'")))
     | Some p =>
         await entityDocs <- find_sorted entities (field_eq "list" id) ["name"%string];
         ret (json 200 (PageBody (stripMongoId p) (map stripMongoId entityDocs)))
     end)
    (fun err => ret (json 500 (ErrorObject "internal_error" err))).

End ServerJs.

(* ===================================================================== *)
(** ** The server as a whole: requests, and runs of requests *)
(* ===================================================================== *)

Inductive Request : Type :=
| PostAdminLogin (b : LoginBody)
| PostAdminLogout (raw : option string)
| GetAdminMe (raw : option string)
| GetPage (id : string)
| GetPages
| GetCountry (code : string)
| GetCity (key : string)
| GetEntity (list key : string)
| PostEntity (raw : option string) (list key : string) (req_body : option doc)
| PutEntity (raw : option string) (list key : string) (req_body : option doc).

Definition handle (cfg : Config) (env : Env) (req : Request) : M Response :=
  match req with
  | PostAdminLogin b => post_admin_login cfg env b
  | PostAdminLogout raw => post_admin_logout cfg env raw
  | GetAdminMe raw => get_admin_me cfg raw
  | GetPage id => get_page id
  | GetPages => get_pages
  | GetCountry code => get_country cfg code
  | GetCity key => get_city cfg key
  | GetEntity list key => get_entity list key
  | PostEntity raw list key req_body => post_entity cfg env raw list key req_body
  | PutEntity raw list key req_body => put_entity cfg env raw list key req_body
  end.

(** The world after a run of requests, each with its environment. *)
Fixpoint serve (cfg : Config) (reqs : list (Env * Request)) (w : World) : World :=
  match reqs with
  | [] => w
  | (env, req) :: rest => serve cfg rest (snd (handle cfg env req w))
  end.

(** The same database, with other faults in stock. *)
Definition with_faults (fs : list (option JsError)) (w : World) : World :=
  mkWorld (db w) (next_oid w) fs.


(* ===================================================================== *)
(** ** What the specification says, in its own words *)
(* ===================================================================== *)

(** *** City keys *)

(** The words of the specification are defined here on their own, from
    the Standard Library and the tables of the engine: nothing below
    calls a function of the model of the server. *)

(** A piece of a key holds no dash: a key is its pieces with a dash
    between each two of them. *)
Definition dash_free (t : string) : Prop :=
  forall c, In c (list_ascii_of_string t) -> c <> "-"%char.

(** The tokens of a key: its pieces, the empty ones dropped. *)
Definition tokens_of (pieces : list string) : list string :=
  List.filter (fun t => negb (String.eqb t EmptyString)) pieces.

(** The bytes of UTF-8 by their leading bits: [10......] continues a
    character, [1111....] starts a character of four bytes. *)
Definition continues (c : ascii) : bool := (Nat.shiftr (nat_of_ascii c) 6 =? 2)%nat.

Definition starts_four (c : ascii) : bool := (Nat.shiftr (nat_of_ascii c) 4 =? 15)%nat.

(** The characters of a token as JavaScript counts them: every character
    is one, and a character of four bytes is two. *)
Definition characters (t : string) : nat :=
  let bytes := list_ascii_of_string t in
  (List.length (List.filter (fun c => negb (continues c)) bytes)
   + List.length (List.filter starts_four bytes))%nat.

(** The bytes of the first character of a text: its first byte and the
    bytes after it that continue a character. *)
Fixpoint continuing (bytes : list ascii) : nat :=
  match bytes with
  | c :: r => if continues c then S (continuing r) else O
  | [] => O
  end.

(** A word in title case: the word in lower case, with its first
    character in upper case.  A first character of four bytes is left as it
    is, since the code converts one half of its surrogate pair. *)
Definition title_case (t : Js.CaseTables) (w : string) : string :=
  let lower := list_ascii_of_string (Js.toLowerCase t w) in
  match lower with
  | [] => EmptyString
  | c :: r =>
      if starts_four c then string_of_list_ascii lower
      else
        let n := continuing r in
        (Js.toUpperCase t (string_of_list_ascii (c :: firstn n r))
           ++ string_of_list_ascii (skipn n r))%string
  end.

(** The display name of a list of tokens, as the specification words it:
    with two tokens at least and a last token of two characters, the
    other tokens in title case with spaces between them, a comma, a
    space, and the last token in upper case; otherwise all the tokens in
    title case with spaces between them. *)
Definition display_name (t : Js.CaseTables) (ts : list string) : string :=
  match rev ts with
  | [] => EmptyString
  | last :: others =>
      if (negb (List.length others =? 0)%nat && (characters last =? 2)%nat)%bool
      then (String.concat " " (map (title_case t) (rev others)) ++ ", "
              ++ Js.toUpperCase t last)%string
      else String.concat " " (map (title_case t) ts)
  end.

(** A key and its pieces for the examples. *)
Definition new_york_pieces : list string :=
  [""; "new"; "YORK"; ""; "ny"]%string.

(** The tables of the engine keep a text that is not empty from
    becoming empty. *)
Definition keeps_text (t : Js.CaseTables) : Prop :=
  forall s, s <> EmptyString ->
            Js.toLowerCase t s <> EmptyString /\ Js.toUpperCase t s <> EmptyString.

(** The tables of the engine do not tell the case of the ASCII letters
    of their input apart. *)
Definition folds_ascii_case (t : Js.CaseTables) : Prop :=
  forall s,
    Js.toLowerCase t (Js.ascii_lower s) = Js.toLowerCase t s
    /\ Js.toLowerCase t (Js.ascii_upper s) = Js.toLowerCase t s
    /\ Js.toUpperCase t (Js.ascii_lower s) = Js.toUpperCase t s
    /\ Js.toUpperCase t (Js.ascii_upper s) = Js.toUpperCase t s.

(** *** The token digest *)

(** Configurations that differ in the pepper alone. *)
Definition never_verifies : string -> value -> JsError + bool :=
  fun _ _ => inr false.

Definition no_operators : list (string * value) -> JsError + (string -> bool) :=
  fun _ => inr (fun _ => false).

Definition with_pepper (pepper : string) : Config :=
  mkConfig pepper false never_verifies no_operators Js.ascii_tables.

(** *** Login *)

(** The store answers every call of the request. *)
Definition store_up (w : World) : Prop := faults w = [].

(** The causes of a failed credential check: no account of that name,
    the account of that name disabled, or a password that the hasher
    does not verify against the hash of the account, the one enabled
    account of that name. *)
Inductive credential_failure (cfg : Config) (d : Db) (u p : string) : Prop :=
| unknown_username :
    (forall a, In a (accounts d) -> username a <> u) ->
    credential_failure cfg d u p
| account_disabled :
    (exists a, In a (accounts d) /\ username a = u) ->
    (forall a, In a (accounts d) -> username a = u -> disabled a = true) ->
    credential_failure cfg d u p
| wrong_password (a : Account) :
    In a (accounts d) -> username a = u -> disabled a = false ->
    (forall a', In a' (accounts d) -> username a' = u -> a' = a) ->
    argon2_verify cfg (passwordHash a) (VStr p) = inr false ->
    credential_failure cfg d u p.

(** A pair of credentials matches a stored account: the account bears
    the username alone (the unique index on [username]), it is enabled,
    and the hasher verifies the password against its hash. *)
Definition matches_account (cfg : Config) (d : Db) (u p : string) (a : Account) : Prop :=
  In a (accounts d) /\ username a = u /\ disabled a = false
  /\ (forall a', In a' (accounts d) -> username a' = u -> a' = a)
  /\ argon2_verify cfg (passwordHash a) (VStr p) = inr true.

(** The digest of the token that this login would draw is not in the
    store yet. *)
Definition fresh_token (cfg : Config) (env : Env) (w : World) : Prop :=
  existsb (has_hash (sessionTokenToHash cfg (makeSessionToken env)))
          (sessions (db w)) = false.

(** Login succeeds for account [a]: the response is [{ok: true}] with the
    raw token in the cookie, one session is inserted, active, under the
    digest of that token, and the middleware resolves the token to the
    account. *)
Definition login_succeeds (cfg : Config) (env : Env) (b : LoginBody) (w : World)
    (a : Account) : Prop :=
  exists (token : string) (s : Session) (w' : World),
    post_admin_login cfg env b w
    = (Ok (mkResponse 200 OkBody
             (SetCookie "admin_session" token (adminCookieOptions cfg))), w')
    /\ sessions (db w') = sessions (db w) ++ [s]
    /\ revokedAt s = None
    /\ sessionTokenHash s = sessionTokenToHash cfg token
    /\ accountId s = account_id a
    /\ forall env',
         fst (requireAdminSession cfg env' (Some token) w')
         = Ok (Next (mkAdmin (account_id a) (session_id s))).

(** *** Introspection *)

(** No session of the store is active under the digest of the cookie:
    the token is unknown, or its session is revoked. *)
Definition no_active_session (cfg : Config) (d : Db) (raw : string) : Prop :=
  forall s, In s (sessions d) ->
            sessionTokenHash s = sessionTokenToHash cfg raw ->
            revokedAt s <> None.

(** The store throws at the connection or at the lookup. *)
Definition store_fails (w : World) : Prop :=
  exists e fs, faults w = Some e :: fs \/ faults w = None :: Some e :: fs.

(** *** The update of lastSeenAt *)

(** Two worlds that differ in the [sessions] collection at most. *)
Definition same_but_sessions (w1 w2 : World) : Prop :=
  accounts (db w1) = accounts (db w2)
  /\ entities (db w1) = entities (db w2)
  /\ pages (db w1) = pages (db w2)
  /\ next_oid w1 = next_oid w2
  /\ faults w1 = faults w2.

(** The middleware lets the cookie through on this database, as the
    session [s]. *)
Definition authenticates (cfg : Config) (d : Db) (raw : option string) (s : Session) : Prop :=
  opt_truthy raw = true
  /\ List.find (active_with_hash (sessionTokenToHash cfg (default EmptyString raw)))
               (sessions d) = Some s.

(** The store answers the connection and the lookup of the middleware,
    and then the update of [lastSeenAt] throws [e], or works. *)
Definition touch_throws (e : JsError) (rest : list (option JsError)) (w : World) : World :=
  with_faults (None :: None :: Some e :: rest) w.

Definition touch_works (rest : list (option JsError)) (w : World) : World :=
  with_faults (None :: None :: None :: rest) w.

(** *** Entities *)

(** The identifiers of an entity. *)
Definition identifiers (d : doc) : option value * option value * option value :=
  (d !! "_id", d !! "list", d !! "key").

(** The list and the key of an entity are those of the path. *)
Definition canonical (list key : string) (d : doc) : Prop :=
  d !! "list" = Some (VStr list) /\ d !! "key" = Some (VStr key).

(** *** Listings *)

(** The order on the values of a field: strictly before, and tied. *)
Definition field_lt (a b : option value) : Prop :=
  field_leb a b = true /\ field_leb b a = false.

Definition field_tied (a b : option value) : Prop :=
  field_leb a b = true /\ field_leb b a = true.

(** [d1] may come before [d2] in a listing sorted by name first and key
    second: its name is smaller, or the names are tied and its key is
    not larger. *)
Definition name_then_key_le (d1 d2 : doc) : Prop :=
  field_lt (d1 !! "name") (d2 !! "name")
  \/ (field_tied (d1 !! "name") (d2 !! "name")
      /\ field_leb (d1 !! "key") (d2 !! "key") = true).

(** A listing in the order [R]: every document may come before every
    later one. *)
Definition listed_in_order (R : doc -> doc -> Prop) (l : list doc) : Prop :=
  forall (i j : nat) (d1 d2 : doc),
    (i < j)%nat -> l !! i = Some d1 -> l !! j = Some d2 -> R d1 d2.

Definition sorted_by_name_then_key (l : list doc) : Prop :=
  listed_in_order name_then_key_le l.

(** A page with two entities of the same name, stored with the larger
    key first. *)
Definition entity (list name key : string) : doc :=
  {[ "list" := VStr list; "name" := VStr name; "key" := VStr key ]}.

Definition atlas_db : Db :=
  mkDb [] []
       [ entity "capitals" "Brussels" "brussels-2";
         entity "capitals" "Amsterdam" "amsterdam";
         entity "capitals" "Brussels" "brussels-1" ]
       [ {[ "key" := VStr "capitals"; "name" := VStr "Capitals" ]} ].

Definition atlas_world : World := mkWorld atlas_db 1 [].

(** *** The life of a session *)

(** The writes of the server to the [sessions] collection: the update of
    [lastSeenAt] of a session, the revocation of the session under a
    digest that the request is allowed to revoke, the insertion of an
    active session under a digest that the collection does not hold. *)
Inductive sessions_step (allowed : string -> Prop) : list Session -> list Session -> Prop :=
| step_touch (l : list Session) (id : N) (t : Z) :
    sessions_step allowed l (update_first (has_id id) (set_lastSeenAt t) l)
| step_revoke (l : list Session) (h : string) (t : Z) :
    allowed h ->
    sessions_step allowed l (update_first (has_hash h) (set_revokedAt t) l)
| step_insert (l : list Session) (s : Session) :
    existsb (has_hash (sessionTokenHash s)) l = false ->
    revokedAt s = None ->
    sessions_step allowed l (l ++ [s]).

(** The digests that a request may revoke: the one of the cookie of a
    logout. *)
Definition revokes (cfg : Config) (req : Request) (h : string) : Prop :=
  match req with
  | PostAdminLogout raw => h = sessionTokenToHash cfg (default EmptyString raw)
  | _ => False
  end.

Definition revoked_in (cfg : Config) (reqs : list (Env * Request)) (h : string) : Prop :=
  exists env req, In (env, req) reqs /\ revokes cfg req h.

(** The unique index on [sessionTokenHash]. *)
Definition unique_hashes (d : Db) : Prop :=
  NoDup (map sessionTokenHash (sessions d)).

(** Under the digest [h] the collection holds a session, and holds
    revoked sessions only. *)
Definition revoked_for_good (h : string) (l : list Session) : Prop :=
  (exists s, In s l /\ sessionTokenHash s = h)
  /\ forall s, In s l -> sessionTokenHash s = h -> revokedAt s <> None.

(** Under the digest [h] the collection holds an active session, and
    holds sessions of the account [a] only. *)
Definition active_for (h : string) (a : N) (l : list Session) : Prop :=
  (exists s, In s l /\ sessionTokenHash s = h /\ revokedAt s = None)
  /\ forall s, In s l -> sessionTokenHash s = h -> accountId s = a.

(** Every session of [l] is still in [l'], at its place and under its
    digest, and is revoked there if it was revoked in [l]. *)
Definition revocations_kept (l l' : list Session) : Prop :=
  forall (i : nat) (s : Session),
    l !! i = Some s ->
    exists s', l' !! i = Some s'
               /\ sessionTokenHash s' = sessionTokenHash s
               /\ (revokedAt s <> None -> revokedAt s' <> None).

(** A response with status 200. *)
Definition succeeded (r : Result Response) : Prop :=
  exists resp, r = Ok resp /\ status resp = 200.

(** The middleware turns the cookie down. *)
Definition turned_down (r : Result Gate) : Prop :=
  exists resp, r = Ok (Respond resp) /\ (status resp = 401 \/ status resp = 500).

Definition unauthorized : Response :=
  json 401 (ErrorBody "unauthorized" "Invalid or revoked session").

(** *** A store and a configuration to run the handlers on *)

(** A hasher for the examples.  Like [argon2.verify], it takes the bytes
    of the password from [Buffer.from], which throws a [TypeError] for a
    number or a boolean. *)
Definition not_a_string : JsError :=
  mkError "TypeError" None
    "The first argument must be of type string or an instance of Buffer, ArrayBuffer, or Array or an Array-like Object.".

Definition demo_verify (h : string) (p : value) : JsError + bool :=
  match p with
  | VStr p => inr (String.eqb h ("argon2id$" ++ p))
  | _ => inl not_a_string
  end.

(** A store for the examples that knows the operator [$ne] on strings,
    and refuses every other operator. *)
Definition unknown_operator : JsError :=
  mkError "MongoServerError" (Some 2) "unknown operator".

Definition demo_operators (fields : list (string * value)) : JsError + (string -> bool) :=
  match fields with
  | [("$ne"%string, VStr s)] => inr (fun name => negb (String.eqb name s))
  | _ => inl unknown_operator
  end.

Definition demo_cfg : Config :=
  mkConfig "pepper" false demo_verify demo_operators Js.ascii_tables.

Definition demo_env : Env :=
  mkEnv 1700000000000 (fun i => Z.of_nat i) None (Some "127.0.0.1"%string)
        (Some "curl"%string).

Definition later_env : Env :=
  mkEnv 1700000060000 (fun i => Z.of_nat (i + 7)) None (Some "127.0.0.1"%string)
        (Some "curl"%string).

Definition admin_account : Account :=
  mkAccount 1 "admin" "argon2id$correct" ["admin"%string] false.

Definition guest_account : Account :=
  mkAccount 2 "guest" "argon2id$" [] false.

Definition retired_account : Account :=
  mkAccount 3 "retired" "argon2id$old" [] true.

Definition demo_db : Db :=
  mkDb [admin_account; guest_account; retired_account] [] [] [].

Definition demo_world : World := mkWorld demo_db 100 [].

Definition credentials (u p : string) : LoginBody :=
  mkLoginBody (Some (VStr u)) (Some (VStr p)) None.

(** The world after the login of the administrator, the token of that
    login, and a request body that tries to take over the identifiers. *)
Definition demo_token : string := makeSessionToken demo_env.

Definition logged_in : World :=
  snd (post_admin_login demo_cfg demo_env (credentials "admin" "correct") demo_world).

Definition later_requests : list (Env * Request) :=
  [ (later_env, PostAdminLogin (credentials "admin" "correct"));
    (later_env, GetAdminMe (Some demo_token));
    (later_env, PostAdminLogout (Some demo_token)) ].

Definition hostile_body : doc :=
  {[ "_id" := VStr "forged"; "list" := VStr "pages"; "key" := VStr "home";
     "name" := VStr "Brussels" ]}.

(** *** The shape of digests and tokens *)

(** Every character of a string passes the test. *)
Fixpoint all_chars (p : ascii -> bool) (s : string) : bool :=
  match s with
  | EmptyString => true
  | String c r => p c && all_chars p r
  end.

Definition in_range (lo hi : nat) (c : ascii) : bool :=
  ((lo <=? nat_of_ascii c) && (nat_of_ascii c <=? hi))%nat.

(** A lower-case hexadecimal digit: 0-9 or a-f. *)
Definition is_hex_digit (c : ascii) : bool :=
  in_range 48 57 c || in_range 97 102 c.

(** A character of the base64url alphabet: A-Z, a-z, 0-9, - or _. *)
Definition is_b64url_char (c : ascii) : bool :=
  in_range 65 90 c || in_range 97 122 c || in_range 48 57 c
  || Ascii.eqb c "-" || Ascii.eqb c "_".

(** A byte. *)
Definition is_byte (b : Z) : Prop := 0 <= b < 256.

(** The 256 bytes, and a test on all of them and on all pairs of them. *)
Definition all_bytes : list Z := map Z.of_nat (seq 0 256).

Definition on_bytes (f : Z -> bool) : bool := forallb f all_bytes.

Definition on_byte_pairs (f : Z -> Z -> bool) : bool :=
  forallb (fun a => forallb (f a) all_bytes) all_bytes.

(** A number of six bits, the value of one digit of base64url. *)
Definition is_sextet (n : Z) : Prop := 0 <= n < 64.

(** *** Reads and writes *)

(** The requests that read: every GET route. *)
Definition is_read (req : Request) : bool :=
  match req with
  | GetAdminMe _ | GetPage _ | GetPages | GetCountry _ | GetCity _ | GetEntity _ _ => true
  | PostAdminLogin _ | PostAdminLogout _ | PostEntity _ _ _ _ | PutEntity _ _ _ _ => false
  end.

(** A response 401 or 500. *)
Definition refused (r : Result Response) : Prop :=
  exists resp, r = Ok resp /\ (status resp = 401 \/ status resp = 500).
(** The world that the middleware hands to the next handler when it lets
    the cookie through as the session [s] and the store answers. *)
Definition touched (env : Env) (s : Session) (w : World) : World :=
  mkWorld (mkDb (accounts (db w))
                (update_first (has_id (session_id s)) (set_lastSeenAt (now env))
                              (sessions (db w)))
                (entities (db w)) (pages (db w)))
          (next_oid w) [].

(** The value that an update gives to a field: the one of the body, or
    else the one that the entity had. *)
Definition patched (req_body : option doc) (d : doc) (f : string) : option value :=
  match default ∅ req_body !! f with
  | Some v => Some v
  | None => d !! f
  end.

(** The world after the administrator has created the entity of the
    city of Brussels, and a patch for it. *)
Definition stocked : World :=
  snd (post_entity demo_cfg later_env (Some demo_token) "cities" "brussels"
         (Some hostile_body) logged_in).

Definition brussels_patch : doc :=
  {[ "name" := VStr "Bruxelles"; "key" := VStr "paris"; "country" := VStr "BE" ]}.
(** *** Complete listings *)

(** The query of [GET /countries/:code] on the upper-case code. *)
Definition of_country (code : string) (d : doc) : bool :=
  field_eq "country" code d || field_eq "countries" code d.

(** The entity of a document of the response that may be missing,
    followed by the others. *)
Definition with_hoisted (c : option doc) (rest : list doc) : list doc :=
  match c with Some e => e :: rest | None => rest end.

(** The entity is filed under the list [tag]. *)
Definition filed_under (tag : string) (e : doc) : Prop :=
  e !! "list" = Some (VStr tag).

(** The order on the name alone. *)
Definition name_le (d1 d2 : doc) : Prop :=
  field_leb (d1 !! "name") (d2 !! "name") = true.
(** *** What a response carries *)

(** The documents of a body. *)
Definition docs_of (b : Body) : list doc :=
  match b with
  | DocBody d => [d]
  | PageBody info ents => info :: ents
  | PagesBody ps => ps
  | CountryBody c ents => with_hoisted c ents
  | CityBody c ents => with_hoisted c ents
  | _ => []
  end.

(** The request is a write of an entity that the response reports done. *)
Definition entity_written (req : Request) (resp : Response) : Prop :=
  match req with
  | PostEntity _ _ _ _ => status resp = 201
  | PutEntity _ _ _ _ => status resp = 200
  | _ => False
  end.

(** The request is a login or a logout that the response reports done. *)
Definition session_opened (cfg : Config) (env : Env) (req : Request) (resp : Response) : Prop :=
  match req with
  | PostAdminLogin _ =>
      resp = mkResponse 200 OkBody
               (SetCookie "admin_session" (makeSessionToken env) (adminCookieOptions cfg))
  | _ => False
  end.

Definition session_closed (req : Request) (resp : Response) : Prop :=
  match req with
  | PostAdminLogout _ => resp = mkResponse 200 OkBody (ClearCookie "admin_session" "/")
  | _ => False
  end.
(** *** Invariants of the store *)

(** The list and the key under which an entity is stored. *)
Definition path_of (d : doc) : option value * option value :=
  (d !! "list", d !! "key").

(** The unique index on [{ list: 1, key: 1 }]: no two entities under the
    same list and key. *)
Definition one_per_path (d : Db) : Prop := NoDup (map path_of (entities d)).

(** Every session belongs to an account of the store. *)
Definition sessions_have_accounts (d : Db) : Prop :=
  incl (map accountId (sessions d)) (map account_id (accounts d)).

(** A run of requests on the stocked store: a second creation of the same
    entity, an update of it, and a creation under another key. *)
Definition entity_requests : list (Env * Request) :=
  [ (later_env, PostEntity (Some demo_token) "cities" "brussels" (Some hostile_body));
    (later_env, PutEntity (Some demo_token) "cities" "brussels" (Some brussels_patch));
    (later_env, PostEntity (Some demo_token) "cities" "paris" (Some brussels_patch)) ].

(** The tokens of a key, read from left to right: [word] holds the bytes
    of the token that is being read, the last one first; a dash or the
    end of the key closes the token, and an empty token is dropped. *)
Definition close_token (word : list ascii) : list string :=
  match word with
  | [] => []
  | _ => [string_of_list_ascii (rev word)]
  end.

Fixpoint scan (word bytes : list ascii) : list string :=
  match bytes with
  | [] => close_token word
  | c :: r =>
      if Ascii.eqb c "-" then close_token word ++ scan [] r
      else scan (c :: word) r
  end.

Definition tokens (key : string) : list string :=
  scan [] (list_ascii_of_string key).

(** The first token of a split, with the bytes of [word] before it. *)
Definition with_word (word : list ascii) (parts : list string) : list string :=
  match parts with
  | [] => []
  | w :: ws => (string_of_list_ascii (rev word) ++ w)%string :: ws
  end.

(** A login body whose password is the number 5. *)
Definition number_password (u : string) : LoginBody :=
  mkLoginBody (Some (VStr u)) (Some (VNum 5)) None.

(** A field of a body that the handler takes for missing: it is not
    there, or it is null, false, zero or the empty string. *)
Inductive absent : option value -> Prop :=
| absent_undefined : absent None
| absent_null : absent (Some VNull)
| absent_false : absent (Some (VBool false))
| absent_zero : absent (Some (VNum 0))
| absent_empty : absent (Some (VStr EmptyString)).

Definition bad_request : Response :=
  json 400 (ErrorBody "bad_request" "Missing username or password").

(** *** Peppers *)

(** A text that the environment can hold as the pepper: it is not empty
    (the server exits on an empty pepper) and made of printable ASCII
    characters. *)
Definition printable (c : ascii) : bool := in_range 33 126 c.

Definition env_text (s : string) : Prop :=
  s <> EmptyString /\ all_chars printable s = true.

(** The hexadecimal digits, and the texts of [n] of them. *)
Definition hex_alphabet : list ascii :=
  [ "0"; "1"; "2"; "3"; "4"; "5"; "6"; "7";
    "8"; "9"; "a"; "b"; "c"; "d"; "e"; "f" ]%char.

Fixpoint hex_words (n : nat) : list string :=
  match n with
  | O => [EmptyString]
  | S k => hex_alphabet ≫= (fun c => String c <$> hex_words k)
  end.

(** The bytes of a key are not zero. *)
Definition no_zero_byte (key : list Z) : Prop := Forall (fun b => b <> 0) key.

(** *** Bodies that the store takes as they are *)

(** A plain field name: not empty, no dollar sign in front, no dot and no
    zero byte in it. *)
Definition plain_name (k : string) : bool :=
  Js.truthy k && negb (is_operator k)
  && all_chars (fun c => negb (Ascii.eqb c ".") && negb (Ascii.eqb c Ascii.zero)) k.

(** A value whose documents, at every depth, have plain field names. *)
Fixpoint plain_value (v : value) : bool :=
  match v with
  | VArr xs =>
      (fix all (xs : list value) : bool :=
         match xs with
         | [] => true
         | x :: r => plain_value x && all r
         end) xs
  | VObj fs =>
      (fix all (fs : list (string * value)) : bool :=
         match fs with
         | [] => true
         | (k, x) :: r => plain_name k && plain_value x && all r
         end) fs
  | _ => true
  end.

(** The body of a request has plain field names, at every depth. *)
Definition plain_body (req_body : option doc) : Prop :=
  map_Forall (fun k v => plain_name k = true /\ plain_value v = true)
             (default ∅ req_body).

(** The [_id] under which the store files a payload: its own, or the
    fresh one of the driver when it has none. *)
Definition filed_id (w : World) (payload : doc) : value :=
  match payload !! "_id" with
  | None | Some VNull => VOid (next_oid w)
  | Some v => v
  end.

(** The store takes the payload: its [_id] is no array, and no stored
    entity has it. *)
Definition id_free (w : World) (payload : doc) : Prop :=
  (forall xs, filed_id w payload <> VArr xs)
  /\ forall d, In d (entities (db w)) -> d !! "_id" <> Some (filed_id w payload).

(** A body that takes the [_id] of the entity of Brussels for another
    path. *)
Definition forged_again : doc :=
  {[ "_id" := VStr "forged"; "name" := VStr "Paris" ]}.

(** Three entities of a list, one of them with two names. *)
Definition named (name : value) (key : string) : doc :=
  {[ "list" := VStr "l"; "name" := name; "key" := VStr key ]}.

(** A body of login whose username is an operator: any name but the
    empty one. *)
Definition by_operator (p : string) : LoginBody :=
  mkLoginBody (Some (VObj [("$ne"%string, VStr EmptyString)])) (Some (VStr p)) None.

(* ===================================================================== *)
(** ** The model on known inputs *)
(* ===================================================================== *)

Example sha256_abc :
  sha256Hex "abc"
  = "ba7816bf8f01cfea414140de5dae2223b00361a396177a9cb410ff61f20015ad"%string.
Proof. vm_compute. reflexivity. Qed.

Example sha256_two_blocks :
  sha256Hex "abcdbcdecdefdefgefghfghighijhijkijkljklmklmnlmnomnopnopq"
  = "248d6a61d20638b8e5c026930c3e6039a33ce45964ff2167f6ecedd419db06c1"%string.
Proof. vm_compute. reflexivity. Qed.

Example hmac_rfc4231_case2 :
  createHmacSha256Hex "Jefe" "what do ya want for nothing?"
  = "5bdcc146bf60754e6a042426089575c75a003f089d2739839dec58b964ec3843"%string.
Proof. vm_compute. reflexivity. Qed.

Example base64url_three : Bytes.base64url [251; 255; 190] = "-_--"%string.
Proof. vm_compute. reflexivity. Qed.

Example city_den_haag :
  cityKeyToDisplayName Js.ascii_tables "den-haag" = "Den Haag"%string.
Proof. vm_compute. reflexivity. Qed.

Example city_with_state :
  cityKeyToDisplayName Js.ascii_tables "new-YORK-ny" = "New York, NY"%string.
Proof. vm_compute. reflexivity. Qed.

Example city_two_letters_alone :
  cityKeyToDisplayName Js.ascii_tables "-ny-" = "Ny"%string.
Proof. vm_compute. reflexivity. Qed.

Example city_only_dashes : cityKeyToDisplayName Js.ascii_tables "---" = ""%string.
Proof. vm_compute. reflexivity. Qed.

Example hmac_long_key :
  createHmacSha256Hex
    "kkkkkkkkkkkkkkkkkkkkkkkkkkkkkkkkkkkkkkkkkkkkkkkkkkkkkkkkkkkkkkkkkkkkkk" "token"
  = "57e9dc1d5aaf8acd4b799cf6d699659f2b55004ae21ed246cd4ebd72904e7c5a"%string.
Proof. vm_compute. reflexivity. Qed.

Example token_of_demo_env :
  demo_token = "AAECAwQFBgcICQoLDA0ODxAREhMUFRYXGBkaGxwdHh8"%string.
Proof. vm_compute. reflexivity. Qed.

Example digest_of_demo_token :
  sessionTokenToHash demo_cfg demo_token
  = "2e3722e677811ccbd5c5729224188eecec765324dca11594feed5ab4a83ba7ad"%string.
Proof. vm_compute. reflexivity. Qed.

Example login_missing_password :
  fst (post_admin_login demo_cfg demo_env (mkLoginBody (Some (VStr "admin")) None None)
         demo_world)
  = Ok (json 400 (ErrorBody "bad_request" "Missing username or password")).
Proof. vm_compute. reflexivity. Qed.

Example login_store_down :
  fst (post_admin_login demo_cfg demo_env (credentials "admin" "correct")
         (with_faults [Some (mkError "MongoNetworkError" None "connection refused")] demo_world))
  = Ok (json 500 (ErrorBody "internal_error" "connection refused")).
Proof. vm_compute. reflexivity. Qed.

(** The scenario of the specification: login, introspection, logout,
    introspection with the stale cookie. *)
Example login_me_logout_me :
  let w1 := logged_in in
  let w2 := snd (post_admin_logout demo_cfg later_env (Some demo_token) w1) in
  fst (post_admin_login demo_cfg demo_env (credentials "admin" "correct") demo_world)
  = Ok (mkResponse 200 OkBody
          (SetCookie "admin_session" demo_token (adminCookieOptions demo_cfg)))
  /\ fst (get_admin_me demo_cfg (Some demo_token) w1)
     = Ok (json 200 (AuthenticatedBody true))
  /\ fst (post_admin_logout demo_cfg later_env (Some demo_token) w1)
     = Ok (mkResponse 200 OkBody (ClearCookie "admin_session" "/"))
  /\ fst (get_admin_me demo_cfg (Some demo_token) w2)
     = Ok (json 200 (AuthenticatedBody false))
  /\ fst (post_admin_logout demo_cfg later_env (Some demo_token) w2)
     = Ok (json 401 (ErrorBody "unauthorized" "Invalid or revoked session")).
Proof. vm_compute. repeat split. Qed.

Example post_entity_keeps_path_identifiers :
  fst (post_entity demo_cfg later_env (Some demo_token) "cities" "brussels"
         (Some hostile_body) logged_in)
  = Ok (json 201 (DocBody
          {[ "list" := VStr "cities"; "key" := VStr "brussels";
             "name" := VStr "Brussels";
             "createdAt" := VDate 1700000060000;
             "updatedAt" := VDate 1700000060000 ]})).
Proof. vm_compute. reflexivity. Qed.

Example post_entity_without_cookie :
  fst (post_entity demo_cfg later_env None "cities" "brussels" (Some hostile_body) logged_in)
  = Ok (json 401 (ErrorBody "unauthorized" "Missing admin session")).
Proof. vm_compute. reflexivity. Qed.

Example sort_breaks_ties_in_store_order :
  sort_docs ["name"%string]
    [ entity "l" "B" "2"; entity "l" "A" "9"; entity "l" "B" "1" ]
  = [ entity "l" "A" "9"; entity "l" "B" "2"; entity "l" "B" "1" ].
Proof. vm_compute. reflexivity. Qed.

Example hoist_takes_first_canonical :
  hoist "countries" [ entity "cities" "Brussels" "brussels";
                      entity "countries" "Belgium" "BE" ]
  = (Some (entity "countries" "Belgium" "BE"), [ entity "cities" "Brussels" "brussels" ]).
Proof. vm_compute. reflexivity. Qed.

(* ===================================================================== *)
(** ** Properties of the city keys *)
(* ===================================================================== *)

Section Splitting.

Local Open Scope string_scope.

Lemma truthy_nonempty (t : string) : Js.truthy t = negb (String.eqb t "").
Proof. destruct t; reflexivity. Qed.

Lemma split_not_nil (s : string) : Js.split "-" s <> [].
Proof.
  induction s as [|c r IH]; simpl; [discriminate|].
  destruct (Ascii.eqb c "-"); [discriminate|].
  destruct (Js.split "-" r); discriminate.
Qed.

Lemma append_cons (c : ascii) (a b : string) : String c a ++ b = String c (a ++ b).
Proof. reflexivity. Qed.

Lemma string_of_app (l1 l2 : list ascii) :
  string_of_list_ascii (l1 ++ l2) = string_of_list_ascii l1 ++ string_of_list_ascii l2.
Proof.
  induction l1 as [|c r IH]; [reflexivity|].
  cbn [app string_of_list_ascii]. now rewrite append_cons, IH.
Qed.

Lemma append_nil_r (s : string) : s ++ "" = s.
Proof. induction s as [|c r IH]; [reflexivity | now rewrite append_cons, IH]. Qed.

Lemma append_assoc (a b c : string) : (a ++ b) ++ c = a ++ (b ++ c).
Proof. induction a as [|x r IH]; [reflexivity | now rewrite !append_cons, IH]. Qed.

Lemma close_token_word (word : list ascii) :
  close_token word
  = List.filter Js.truthy [string_of_list_ascii (rev word) ++ ""].
Proof.
  rewrite append_nil_r. destruct word as [|c word]; [reflexivity|].
  simpl. rewrite string_of_app. simpl.
  destruct (string_of_list_ascii (rev word)); reflexivity.
Qed.

Lemma scan_split (s : string) (word : list ascii) :
  scan word (list_ascii_of_string s)
  = List.filter Js.truthy (with_word word (Js.split "-" s)).
Proof.
  revert word. induction s as [|c r IH]; intros word.
  - apply close_token_word.
  - cbn [list_ascii_of_string scan Js.split].
    destruct (Ascii.eqb c "-").
    + rewrite close_token_word, (IH []).
      cbn [with_word List.filter].
      destruct (Js.split "-" r) as [|w ws] eqn:E; [now apply split_not_nil in E|].
      cbn [with_word rev string_of_list_ascii String.append].
      destruct (Js.truthy _); reflexivity.
    + rewrite (IH (c :: word)).
      destruct (Js.split "-" r) as [|w ws] eqn:E; [now apply split_not_nil in E|].
      cbn [with_word rev]. rewrite string_of_app, append_assoc. reflexivity.
Qed.

Lemma parts_tokens (key : string) :
  List.filter Js.truthy (Js.split "-" key) = tokens key.
Proof.
  unfold tokens. rewrite scan_split.
  destruct (Js.split "-" key); reflexivity.
Qed.

(** A key is its pieces with dashes between them, and the split gives
    the pieces back. *)
Lemma dash_free_cons (c : ascii) (p : string) :
  dash_free (String c p) -> Ascii.eqb c "-" = false /\ dash_free p.
Proof.
  intros H. split.
  - apply Ascii.eqb_neq. apply H. now left.
  - intros x Hx. apply H. now right.
Qed.

Lemma split_dash_free (p : string) : dash_free p -> Js.split "-" p = [p].
Proof.
  induction p as [|c p IH]; intros H; [reflexivity|].
  apply dash_free_cons in H as [Hc Hp].
  simpl. rewrite Hc, (IH Hp). reflexivity.
Qed.

Lemma split_piece (p rest : string) :
  dash_free p -> Js.split "-" (p ++ "-" ++ rest) = p :: Js.split "-" rest.
Proof.
  induction p as [|c p IH]; intros H; [reflexivity|].
  apply dash_free_cons in H as [Hc Hp].
  rewrite append_cons. simpl. rewrite Hc.
  change (Js.split "-" (p ++ String "-" rest)) with (Js.split "-" (p ++ "-" ++ rest)).
  rewrite (IH Hp). reflexivity.
Qed.

Lemma split_concat (pieces : list string) :
  Forall dash_free pieces -> pieces <> [] ->
  Js.split "-" (String.concat "-" pieces) = pieces.
Proof.
  induction pieces as [|p [|q r] IH]; intros Hfree Hne; [contradiction| |].
  - apply split_dash_free. now inversion Hfree.
  - change (String.concat "-" (p :: q :: r))
      with (p ++ "-" ++ String.concat "-" (q :: r)).
    inversion Hfree as [|? ? Hp Hrest]; subst.
    rewrite (split_piece _ _ Hp), (IH Hrest); [reflexivity | discriminate].
Qed.

Lemma tokens_concat (pieces : list string) :
  Forall dash_free pieces -> tokens (String.concat "-" pieces) = tokens_of pieces.
Proof.
  intros Hfree. destruct pieces as [|p r]; [reflexivity|].
  rewrite <- parts_tokens, (split_concat _ Hfree) by discriminate.
  apply List.filter_ext. intros t. apply truthy_nonempty.
Qed.

Lemma split_pieces (key : string) :
  Forall dash_free (Js.split "-" key) /\ key = String.concat "-" (Js.split "-" key).
Proof.
  induction key as [|c r [IHfree IHkey]].
  - split; [|reflexivity]. repeat constructor. intros c [].
  - simpl Js.split. destruct (Ascii.eqb_spec c "-") as [->|Hc].
    + split; [constructor; [intros x [] | exact IHfree]|].
      destruct (Js.split "-" r) as [|w ws] eqn:E; [now apply split_not_nil in E|].
      rewrite IHkey. reflexivity.
    + destruct (Js.split "-" r) as [|w ws] eqn:E; [now apply split_not_nil in E|].
      apply Forall_cons in IHfree as [Hw Hws].
      split.
      * constructor; [|exact Hws].
        intros x [<- | Hx]; [exact Hc | now apply Hw].
      * rewrite IHkey. destruct ws as [|w' ws']; reflexivity.
Qed.

End Splitting.

Section Characters.

Local Open Scope string_scope.

Lemma continuation_byte (c : ascii) : Js.is_continuation c = continues c.
Proof. destruct c as [[] [] [] [] [] [] [] []]; reflexivity. Qed.

Lemma pair_byte (c : ascii) : Js.leads_pair c = starts_four c.
Proof. destruct c as [[] [] [] [] [] [] [] []]; reflexivity. Qed.

Lemma units_byte (c : ascii) :
  Js.units_of c
  = ((if continues c then 0 else 1) + (if starts_four c then 1 else 0))%nat.
Proof. destruct c as [[] [] [] [] [] [] [] []]; reflexivity. Qed.

Lemma length_characters (t : string) : Js.length t = characters t.
Proof.
  induction t as [|c t IH]; [reflexivity|].
  cbn [Js.length]. rewrite IH, units_byte. unfold characters.
  cbn [list_ascii_of_string List.filter].
  destruct (continues c), (starts_four c); cbn [negb List.length]; lia.
Qed.

Lemma continuation_bytes (r : string) :
  Js.continuation r
  = (string_of_list_ascii (firstn (continuing (list_ascii_of_string r))
                                  (list_ascii_of_string r)),
     string_of_list_ascii (skipn (continuing (list_ascii_of_string r))
                                 (list_ascii_of_string r))).
Proof.
  induction r as [|c r IH]; [reflexivity|].
  cbn [Js.continuation list_ascii_of_string continuing].
  rewrite continuation_byte. destruct (continues c).
  - rewrite IH. reflexivity.
  - cbn [firstn skipn string_of_list_ascii].
    now rewrite string_of_list_ascii_of_string.
Qed.

Lemma toTitleCaseWord_title_case (t : Js.CaseTables) (w : string) :
  w <> "" -> toTitleCaseWord t w = title_case t w.
Proof.
  intros Hw. unfold toTitleCaseWord, title_case.
  destruct w as [|c0 w0]; [contradiction|]. cbn [Js.truthy negb].
  cbv zeta. destruct (Js.toLowerCase t (String c0 w0)) as [|c r]; [reflexivity|].
  cbn [Js.first_unit list_ascii_of_string]. rewrite pair_byte.
  destruct (starts_four c).
  - cbn [string_of_list_ascii]. now rewrite string_of_list_ascii_of_string.
  - rewrite continuation_bytes. reflexivity.
Qed.

Lemma join_concat (sep : string) (xs : list string) :
  Js.join sep xs = String.concat sep xs.
Proof.
  induction xs as [|x [|y r] IH]; [reflexivity | reflexivity |].
  change (Js.join sep (x :: y :: r)) with (x ++ sep ++ Js.join sep (y :: r)).
  now rewrite IH.
Qed.

Lemma tokens_nonempty (key t : string) : In t (tokens key) -> t <> "".
Proof.
  rewrite <- parts_tokens, filter_In. intros [_ H] ->. discriminate H.
Qed.

Lemma rev_last (ts : list string) :
  ts <> [] -> rev ts = List.last ts "" :: rev (removelast ts).
Proof.
  intros Hne. rewrite (app_removelast_last "" Hne) at 1.
  now rewrite rev_app_distr.
Qed.

Lemma map_title (t : Js.CaseTables) (ts : list string) :
  (forall x, In x ts -> x <> "") ->
  map (toTitleCaseWord t) ts = map (title_case t) ts.
Proof.
  intros H. apply map_ext_in. intros x Hx. apply toTitleCaseWord_title_case, H, Hx.
Qed.

Lemma In_removelast (ts : list string) (x : string) : In x (removelast ts) -> In x ts.
Proof.
  induction ts as [|y [|z r] IH]; simpl; [tauto | tauto |].
  intros [<- | H]; [now left | right; now apply IH].
Qed.

(** The function of the server is the display name of its tokens. *)
Lemma cityKeyToDisplayName_tokens (t : Js.CaseTables) (key : string) :
  cityKeyToDisplayName t key = display_name t (tokens key).
Proof.
  unfold cityKeyToDisplayName, display_name.
  rewrite parts_tokens.
  pose proof (tokens_nonempty key) as Hne.
  destruct (tokens key) as [|x ts] eqn:Ets; [reflexivity|].
  change (List.length (x :: ts) =? 0)%nat with false. cbv iota zeta.
  rewrite (rev_last (x :: ts)) by discriminate.
  rewrite length_rev, rev_involutive, length_characters, !join_concat.
  rewrite (map_title t (x :: ts)) by exact Hne.
  rewrite (map_title t (removelast (x :: ts)))
    by (intros y Hy; apply Hne; now apply In_removelast).
  rewrite andb_comm.
  destruct (List.length (removelast (x :: ts))); reflexivity.
Qed.

End Characters.

(** C10. [cityKeyToDisplayName] is a function of its key alone, defined on
    every string.  Every key is a list of pieces without a dash, with a
    dash between each two of them; its tokens are the pieces that are
    not empty; and the function gives the display name of the tokens:
    with two tokens or more and a last token of two characters, the
    other tokens in title case joined by spaces, a comma, a space, and
    the last token in upper case; otherwise all tokens in title case
    joined by spaces.  A key without tokens gives the empty string, for
    which [GET /cities/:key] answers 400 [bad_request] without a call to
    the store.  The conversions are those of the engine, whatever they
    are. *)
Theorem cityKeyToDisplayName_display_name (cfg : Config) (key : string) :
  cityKeyToDisplayName (case_tables cfg) key = display_name (case_tables cfg) (tokens key)
  /\ (exists pieces, Forall dash_free pieces /\ key = String.concat "-" pieces)
  /\ (forall pieces,
        Forall dash_free pieces -> key = String.concat "-" pieces ->
        tokens key = tokens_of pieces)
  /\ (tokens key = [] ->
      cityKeyToDisplayName (case_tables cfg) key = EmptyString
      /\ forall w, get_city cfg key w
                   = (Ok (json 400 (ErrorBody "bad_request" "Missing city key")), w)).
Proof.
  split; [apply cityKeyToDisplayName_tokens|].
  split; [exists (Js.split "-" key); apply split_pieces|].
  split; [intros pieces Hfree ->; now apply tokens_concat|].
  intros Hnil.
  assert (E0 : cityKeyToDisplayName (case_tables cfg) key = EmptyString).
  { rewrite cityKeyToDisplayName_tokens, Hnil. reflexivity. }
  split; [exact E0|].
  intros w. unfold get_city. rewrite E0. reflexivity.
Qed.

Lemma cityKeyToDisplayName_display_name_witness :
  tokens "-new-YORK--ny" = ["new"; "YORK"; "ny"]%string
  /\ cityKeyToDisplayName (case_tables demo_cfg) "-new-YORK--ny" = "New York, NY"%string
  /\ tokens "--" = []
  /\ forall w, get_city demo_cfg "--" w
               = (Ok (json 400 (ErrorBody "bad_request" "Missing city key")), w).
Proof.
  destruct (cityKeyToDisplayName_display_name demo_cfg "-new-YORK--ny")
    as (Hname & _ & Htokens & _).
  destruct (cityKeyToDisplayName_display_name demo_cfg "--") as (_ & _ & _ & Hempty).
  assert (Hfree : Forall dash_free new_york_pieces).
  { repeat constructor; intros c Hc; simpl in Hc;
      repeat (destruct Hc as [<- | Hc]; [discriminate|]); destruct Hc. }
  split; [exact (Htokens new_york_pieces Hfree eq_refl)|].
  split; [rewrite Hname; reflexivity|].
  split; [reflexivity|].
  exact (proj2 (Hempty eq_refl)).
Defined.

(** A last token of one character that takes two bytes is no state code:
    [paris-é] has two tokens, and its name has no comma. *)
Example city_one_character_of_two_bytes (t : Js.CaseTables) :
  Js.length "é" = 1%nat
  /\ cityKeyToDisplayName t "paris-é"
     = (toTitleCaseWord t "paris" ++ " " ++ toTitleCaseWord t "é")%string.
Proof. split; reflexivity. Qed.

(* ===================================================================== *)
(** ** Running the handlers *)
(* ===================================================================== *)

(** The digest and the token generator are never unfolded by
    simplification: the handlers are traced with them as black boxes. *)
Arguments sessionTokenToHash : simpl never.
Arguments makeSessionToken : simpl never.

Ltac unfold_handlers :=
  unfold handle, post_entity, put_entity, post_admin_logout, logout_handler, behind_admin,
    requireAdminSession, post_admin_login, get_admin_me,
    post_entity_handler, put_entity_handler, get_entity,
    get_page, get_pages, get_country, get_city, ServerJs.get_page.

Ltac unfold_store :=
  unfold accounts_findOne, sessions_findOne, sessions_insertOne, sessions_touch,
    sessions_revoke, findOne, find_sorted, entities_insertOne,
    entities_findOneAndUpdate, connectToMongo, lift.

Ltac unfold_monad :=
  unfold try_catch, bind, gets, modify, ret, throw, fresh_oid, store_call.

Ltac run_handler := unfold_handlers; unfold_store; unfold_monad.

Section Running.

Lemma find_none_iff {A} (p : A -> bool) (l : list A) :
  List.find p l = None <-> forall x, In x l -> p x = false.
Proof.
  split.
  - intros H x Hx. exact (List.find_none p l H x Hx).
  - induction l as [|y l IH]; [reflexivity|].
    intros H. simpl. rewrite (H y (or_introl eq_refl)).
    apply IH. intros x Hx. apply H. now right.
Qed.

Lemma find_the_one {A} (p : A -> bool) (l : list A) (a : A) :
  In a l -> p a = true -> (forall x, In x l -> p x = true -> x = a) ->
  List.find p l = Some a.
Proof.
  induction l as [|y l IH]; [intros []|].
  intros Hin Hp Huniq. simpl.
  destruct (p y) eqn:Epy.
  - f_equal. apply Huniq; [now left | exact Epy].
  - destruct Hin as [-> | Hin]; [congruence|].
    apply IH; [exact Hin | exact Hp |].
    intros x Hx. apply Huniq. now right.
Qed.

Lemma truthy_iff (s : string) : Js.truthy s = true <-> s <> EmptyString.
Proof. destruct s; simpl; split; congruence. Qed.

Lemma as_string_some (o : option value) (s : string) :
  as_string o = Some s -> o = Some (VStr s).
Proof. destruct o as [[]|]; simpl; congruence. Qed.

(** In each case of a failed check the lookup finds no account, or an
    account whose hash does not verify. *)
Lemma account_lookup (cfg : Config) (d : Db) (u p : string) :
  credential_failure cfg d u p ->
  match List.find (enabled_account u) (accounts d) with
  | None => True
  | Some a => argon2_verify cfg (passwordHash a) (VStr p) = inr false
  end.
Proof.
  intros [Hnone | Hex Hdis | a Hin Hua Hen Huniq Hver].
  - replace (List.find (enabled_account u) (accounts d)) with (@None Account);
      [exact I|].
    symmetry. apply find_none_iff. intros a Ha. unfold enabled_account.
    destruct (String.eqb_spec (username a) u) as [E|E]; [|reflexivity].
    now apply Hnone in Ha.
  - replace (List.find (enabled_account u) (accounts d)) with (@None Account);
      [exact I|].
    symmetry. apply find_none_iff. intros a Ha. unfold enabled_account.
    destruct (String.eqb_spec (username a) u) as [E|E]; [|reflexivity].
    now rewrite (Hdis a Ha E).
  - rewrite (find_the_one (enabled_account u) (accounts d) a Hin); [exact Hver | |].
    + unfold enabled_account. rewrite Hua, String.eqb_refl, Hen. reflexivity.
    + intros x Hx Hpx. apply andb_prop in Hpx as [Hpx _].
      apply String.eqb_eq in Hpx. now apply Huniq.
Qed.

(** The outcome of the account lookup and of the verification decides
    a login with both fields present, when the store answers. *)
Lemma login_rejected (cfg : Config) (env : Env) (b : LoginBody) (w : World)
    (u p : string) :
  body_username b = Some u -> body_password b = Some p ->
  u <> EmptyString -> p <> EmptyString ->
  store_up w ->
  credential_failure cfg (db w) u p ->
  post_admin_login cfg env b w = (Ok invalid_credentials, w).
Proof.
  intros Eu Ep Hu Hp Hup Hfail.
  apply truthy_iff in Hu. apply truthy_iff in Hp.
  apply as_string_some in Eu. apply as_string_some in Ep.
  pose proof (account_lookup cfg (db w) u p Hfail) as Hlook.
  destruct w as [d n fs]. unfold store_up in Hup. simpl in Hup, Hlook. subst fs.
  run_handler. rewrite Eu, Ep. cbv zeta. cbn [json_truthy value_truthy]. rewrite Hu, Hp.
  simpl.
  change (fun a : Account => String.eqb (username a) u && negb (disabled a))
    with (enabled_account u).
  destruct (List.find (enabled_account u) (accounts d)) as [a|]; [|reflexivity].
  rewrite Hlook. reflexivity.
Qed.

(** A hasher that throws on the password shows in the response: the
    error of the hasher, with status 500, when the lookup finds an
    account; [Invalid credentials] when it finds none. *)
Lemma login_hasher_throws (cfg : Config) (env : Env) (w : World)
    (u : string) (password : value) :
  u <> EmptyString -> value_truthy password = true -> store_up w ->
  let answer :=
    fst (post_admin_login cfg env (mkLoginBody (Some (VStr u)) (Some password) None) w) in
  match List.find (enabled_account u) (accounts (db w)) with
  | None => answer = Ok invalid_credentials
  | Some a =>
      match argon2_verify cfg (passwordHash a) password with
      | inl e => answer = Ok (json 500 (ErrorBody "internal_error" (cleanError e)))
      | inr false => answer = Ok invalid_credentials
      | inr true => True
      end
  end.
Proof.
  intros Hu Hp Hup. apply truthy_iff in Hu.
  destruct w as [d n fs]. unfold store_up in Hup. simpl in Hup. subst fs.
  run_handler. cbv zeta. cbn [json_username json_password json_truthy value_truthy].
  rewrite Hu, Hp. simpl.
  change (fun a : Account => String.eqb (username a) u && negb (disabled a))
    with (enabled_account u).
  destruct (List.find (enabled_account u) (accounts d)) as [a|]; [|reflexivity].
  destruct (argon2_verify cfg (passwordHash a) password) as [e|[|]];
    first [reflexivity | exact I].
Qed.

End Running.

(** Two login attempts with strings for a username and a password that
    fail the credential check, each for any of the three causes (no
    account of that name, account disabled, a password that the hasher
    answers not to verify), receive the same response: status 401 with
    the error [unauthorized] and the message [Invalid credentials];
    neither changes the store. *)
Lemma string_login_failures_alike
    (cfg : Config) (env1 env2 : Env) (b1 b2 : LoginBody) (w1 w2 : World)
    (u1 p1 u2 p2 : string) :
  body_username b1 = Some u1 -> body_password b1 = Some p1 ->
  body_username b2 = Some u2 -> body_password b2 = Some p2 ->
  u1 <> EmptyString -> p1 <> EmptyString ->
  u2 <> EmptyString -> p2 <> EmptyString ->
  store_up w1 -> store_up w2 ->
  credential_failure cfg (db w1) u1 p1 ->
  credential_failure cfg (db w2) u2 p2 ->
  fst (post_admin_login cfg env1 b1 w1) = fst (post_admin_login cfg env2 b2 w2)
  /\ fst (post_admin_login cfg env1 b1 w1)
     = Ok (json 401 (ErrorBody "unauthorized" "Invalid credentials"))
  /\ snd (post_admin_login cfg env1 b1 w1) = w1.
Proof.
  intros Eu1 Ep1 Eu2 Ep2 Hu1 Hp1 Hu2 Hp2 Hup1 Hup2 Hf1 Hf2.
  rewrite (login_rejected cfg env1 b1 w1 u1 p1) by assumption.
  rewrite (login_rejected cfg env2 b2 w2 u2 p2) by assumption.
  repeat split.
Qed.

Example string_login_failures_alike_demo :
  credential_failure demo_cfg (db demo_world) "admin" "wrong"
  /\ credential_failure demo_cfg (db demo_world) "nobody" "correct"
  /\ credential_failure demo_cfg (db demo_world) "retired" "old"
  /\ fst (post_admin_login demo_cfg demo_env (credentials "admin" "wrong") demo_world)
     = fst (post_admin_login demo_cfg later_env (credentials "nobody" "correct") demo_world)
  /\ fst (post_admin_login demo_cfg demo_env (credentials "admin" "wrong") demo_world)
     = fst (post_admin_login demo_cfg later_env (credentials "retired" "old") demo_world).
Proof.
  assert (F1 : credential_failure demo_cfg (db demo_world) "admin" "wrong").
  { apply (wrong_password _ _ _ _ admin_account); simpl; try reflexivity.
    - left; reflexivity.
    - intros a' [<- | [<- | [<- | []]]]; simpl; intros E; (reflexivity || discriminate E). }
  assert (F2 : credential_failure demo_cfg (db demo_world) "nobody" "correct").
  { apply unknown_username. simpl.
    intros a' [<- | [<- | [<- | []]]]; simpl; discriminate. }
  assert (F3 : credential_failure demo_cfg (db demo_world) "retired" "old").
  { apply account_disabled; simpl.
    - exists retired_account. split; [right; right; left|]; reflexivity.
    - intros a' [<- | [<- | [<- | []]]]; simpl; intros E; (reflexivity || discriminate E). }
  split; [exact F1|]. split; [exact F2|]. split; [exact F3|].
  split.
  - apply (string_login_failures_alike demo_cfg demo_env later_env
             (credentials "admin" "wrong") (credentials "nobody" "correct")
             demo_world demo_world "admin" "wrong" "nobody" "correct");
      first [reflexivity | discriminate | assumption].
  - apply (string_login_failures_alike demo_cfg demo_env later_env
             (credentials "admin" "wrong") (credentials "retired" "old")
             demo_world demo_world "admin" "wrong" "retired" "old");
      first [reflexivity | discriminate | assumption].
Qed.

(** C2 fails on the code.  The handler hands the password of the body to
    the hasher as it comes, and only when the lookup has found an enabled
    account; a password that is a number makes the hasher throw, and the
    error goes out with status 500.  With the password 5, the login as
    [admin], an enabled account, is answered 500 [internal_error], and
    the logins as [nobody], which is no account, and as [retired], a
    disabled account, are answered 401 [Invalid credentials]: the caller
    tells an enabled account from the others. *)
Theorem login_failure_tells_accounts_apart :
  fst (post_admin_login demo_cfg demo_env (number_password "admin") demo_world)
  = Ok (json 500 (ErrorBody "internal_error" (err_message not_a_string)))
  /\ fst (post_admin_login demo_cfg demo_env (number_password "nobody") demo_world)
     = Ok (json 401 (ErrorBody "unauthorized" "Invalid credentials"))
  /\ fst (post_admin_login demo_cfg demo_env (number_password "retired") demo_world)
     = Ok (json 401 (ErrorBody "unauthorized" "Invalid credentials"))
  /\ fst (post_admin_login demo_cfg demo_env (number_password "admin") demo_world)
     <> fst (post_admin_login demo_cfg demo_env (number_password "nobody") demo_world).
Proof.
  assert (Hup : store_up demo_world) by reflexivity.
  assert (Hfive : value_truthy (VNum 5) = true) by reflexivity.
  pose proof (login_hasher_throws demo_cfg demo_env demo_world "admin" (VNum 5)
                ltac:(discriminate) Hfive Hup) as Hadmin.
  pose proof (login_hasher_throws demo_cfg demo_env demo_world "nobody" (VNum 5)
                ltac:(discriminate) Hfive Hup) as Hnobody.
  pose proof (login_hasher_throws demo_cfg demo_env demo_world "retired" (VNum 5)
                ltac:(discriminate) Hfive Hup) as Hretired.
  cbv zeta in Hadmin, Hnobody, Hretired.
  cbn [List.find demo_world demo_db db accounts enabled_account username disabled
       admin_account guest_account retired_account String.eqb Ascii.eqb Bool.eqb
       andb negb argon2_verify demo_cfg demo_verify passwordHash]
    in Hadmin, Hnobody, Hretired.
  unfold number_password.
  split; [exact Hadmin|]. split; [exact Hnobody|]. split; [exact Hretired|].
  rewrite Hadmin, Hnobody. discriminate.
Qed.

(* ===================================================================== *)
(** ** Login, and the first use of the token *)
(* ===================================================================== *)

Section LoginSucceeds.

(** A token of [makeSessionToken] is never the empty string. *)
Lemma makeSessionToken_truthy (env : Env) : Js.truthy (makeSessionToken env) = true.
Proof.
  unfold makeSessionToken, randomBytes.
  cbn [seq map Bytes.base64url]. reflexivity.
Qed.

Lemma find_after_fresh (h : string) (l : list Session) (s : Session) :
  existsb (has_hash h) l = false ->
  active_with_hash h s = true ->
  List.find (active_with_hash h) (l ++ [s]) = Some s.
Proof.
  intros Hfresh Hs.
  induction l as [|x l IH]; simpl.
  - now rewrite Hs.
  - simpl in Hfresh. apply orb_false_elim in Hfresh as [Hx Hl].
    unfold active_with_hash at 1. rewrite Hx. simpl. now apply IH.
Qed.

Lemma absent_falsy (o : option value) : absent o -> json_truthy o = false.
Proof. intros []; reflexivity. Qed.

Lemma falsy_absent (o : option value) : json_truthy o = false -> absent o.
Proof.
  destruct o as [[|[|]|n|s| | | |]|]; simpl; try discriminate; try constructor.
  - destruct (Z.eqb_spec n 0) as [->|]; [constructor | discriminate].
  - destruct s; [constructor | discriminate].
Qed.

(** A request without a username or without a password is answered 400
    before the handler turns to the store. *)
Lemma login_bad_request (cfg : Config) (env : Env) (b : LoginBody) (w : World) :
  absent (json_username b) \/ absent (json_password b) ->
  post_admin_login cfg env b w = (Ok bad_request, w).
Proof.
  intros H. run_handler. cbv zeta.
  destruct H as [H | H]; apply absent_falsy in H; rewrite H; simpl;
    [|rewrite orb_true_r]; destruct w; reflexivity.
Qed.

End LoginSucceeds.

(** C1, as the code has it.  For a username and a password, both
    non-empty strings, that match a stored account with [disabled = false]
    whose hash verifies against the password, when the store answers and
    the digest of the drawn token is not in the store yet: Login answers
    [{ok: true}] with the raw token in the cookie, inserts one session with
    [revokedAt = null] under the digest of that token, and the middleware,
    given the token, resolves to the id of the account.  And a request
    whose username or password is missing, null, false, zero or the empty
    string is answered 400 [bad_request], the world left as it was: no
    call to the store is made. *)
Theorem login_issues_working_token
    (cfg : Config) (env : Env) (b : LoginBody) (w : World) :
  (forall (u p : string) (a : Account),
      body_username b = Some u -> body_password b = Some p ->
      u <> EmptyString -> p <> EmptyString ->
      store_up w ->
      fresh_token cfg env w ->
      matches_account cfg (db w) u p a ->
      login_succeeds cfg env b w a)
  /\ (absent (json_username b) \/ absent (json_password b) ->
      post_admin_login cfg env b w = (Ok bad_request, w)).
Proof.
  split; [|apply login_bad_request].
  intros u p a Eu Ep Hu Hp Hup Hfresh (Hin & Hua & Hen & Huniq & Hver).
  apply truthy_iff in Hu. apply truthy_iff in Hp.
  apply as_string_some in Eu. apply as_string_some in Ep.
  assert (Hfind : List.find (enabled_account u) (accounts (db w)) = Some a).
  { apply find_the_one; [exact Hin | |].
    - unfold enabled_account. rewrite Hua, String.eqb_refl, Hen. reflexivity.
    - intros x Hx Hpx. apply andb_prop in Hpx as [Hpx _].
      apply String.eqb_eq in Hpx. now apply Huniq. }
  destruct w as [d n fs]. unfold store_up, fresh_token in *. simpl in *. subst fs.
  set (token := makeSessionToken env) in *.
  set (h := sessionTokenToHash cfg token) in *.
  set (s := mkSession n (account_id a) h (now env) (now env) None
              (json_or_null (json_label b))
              (or_else (x_forwarded_for env) (or_null (remoteAddress env)))
              (or_null (user_agent env))).
  exists token, s,
    (mkWorld (mkDb (accounts d) (sessions d ++ [s]) (entities d) (pages d))
             (N.succ n) []).
  split.
  { run_handler. rewrite Eu, Ep. cbv zeta. cbn [json_truthy value_truthy].
    rewrite Hu, Hp. simpl.
    change (fun a : Account => String.eqb (username a) u && negb (disabled a))
      with (enabled_account u).
    rewrite Hfind, Hver. simpl.
    fold token. fold h. rewrite Hfresh. reflexivity. }
  repeat (split; [reflexivity|]).
  intros env'.
  run_handler. cbn [opt_truthy from_option id].
  unfold token at 1. rewrite makeSessionToken_truthy. simpl.
  fold h. rewrite (find_after_fresh h (sessions d) s Hfresh).
  - reflexivity.
  - unfold active_with_hash, has_hash. simpl. rewrite String.eqb_refl. reflexivity.
Qed.

Lemma login_issues_working_token_witness :
  matches_account demo_cfg (db demo_world) "admin" "correct" admin_account
  /\ login_succeeds demo_cfg demo_env (credentials "admin" "correct") demo_world
       admin_account
  /\ absent (json_password (credentials "guest" ""))
  /\ post_admin_login demo_cfg demo_env (credentials "guest" "") demo_world
     = (Ok bad_request, demo_world).
Proof.
  assert (Hm : matches_account demo_cfg (db demo_world) "admin" "correct" admin_account).
  { repeat split; try reflexivity.
    - left; reflexivity.
    - simpl. intros a' [<- | [<- | [<- | []]]]; simpl; intros E;
        (reflexivity || discriminate E). }
  assert (Ha : absent (json_password (credentials "guest" ""))) by constructor.
  split; [exact Hm|].
  split.
  - destruct (login_issues_working_token demo_cfg demo_env (credentials "admin" "correct")
                demo_world) as [Hok _].
    apply (Hok "admin"%string "correct"%string admin_account);
      first [reflexivity | discriminate | exact Hm].
  - split; [exact Ha|].
    destruct (login_issues_working_token demo_cfg demo_env (credentials "guest" "")
                demo_world) as [_ Hbad].
    apply Hbad. right. exact Ha.
Defined.

(** C1, as the specification states it, fails: the account [guest] is
    enabled and its hash verifies against the empty password, the store
    answers, and Login answers 400 to that pair without a session. *)
Lemma login_refuses_empty_password :
  ~ (forall cfg env b w u p a,
        body_username b = Some u -> body_password b = Some p ->
        store_up w ->
        fresh_token cfg env w ->
        matches_account cfg (db w) u p a ->
        login_succeeds cfg env b w a).
Proof.
  intros claim.
  destruct (claim demo_cfg demo_env (credentials "guest" "") demo_world
              "guest"%string ""%string guest_account) as (token & s & w' & Hrun & _);
    try reflexivity.
  - repeat split; try reflexivity.
    + right; left; reflexivity.
    + simpl. intros a' [<- | [<- | [<- | []]]]; simpl; intros E;
        (reflexivity || discriminate E).
  - vm_compute in Hrun. discriminate Hrun.
Qed.

(* ===================================================================== *)
(** ** Introspection *)
(* ===================================================================== *)

Section Introspection.

Lemma no_active_session_find (cfg : Config) (d : Db) (raw : string) :
  no_active_session cfg d raw ->
  List.find (active_with_hash (sessionTokenToHash cfg raw)) (sessions d) = None.
Proof.
  intros Hno. apply find_none_iff. intros s Hs.
  unfold active_with_hash, has_hash, is_active.
  destruct (String.eqb_spec (sessionTokenHash s) (sessionTokenToHash cfg raw)) as [E|E];
    [|reflexivity].
  specialize (Hno s Hs E). destruct (revokedAt s); [reflexivity | congruence].
Qed.

End Introspection.

Ltac me_answers b :=
  exists b; run_handler;
  match goal with E : opt_truthy _ = _ |- _ => rewrite E end; simpl;
  repeat match goal with E : List.find _ _ = _ |- _ => rewrite E end.

(** C5. [GET /admin/me] never answers with an error: on every cookie and
    in every state of the store it answers 200 with [{authenticated: b}]
    and leaves the database as it was; and [b] is false when the cookie is
    missing or empty, when no session is active under the digest of its
    value (a malformed or unknown value, or a revoked session), and when
    the store throws. *)
Theorem introspect_never_fails (cfg : Config) (raw : option string) (w : World) :
  exists b : bool,
    fst (get_admin_me cfg raw w) = Ok (json 200 (AuthenticatedBody b))
    /\ db (snd (get_admin_me cfg raw w)) = db w
    /\ (opt_truthy raw = false -> b = false)
    /\ (no_active_session cfg (db w) (default EmptyString raw) -> b = false)
    /\ (store_fails w -> b = false).
Proof.
  destruct w as [d n fs].
  destruct (opt_truthy raw) eqn:Eraw; [|me_answers false; repeat split].
  pose proof (no_active_session_find cfg d (default EmptyString raw)) as Hnone.
  destruct (List.find (active_with_hash (sessionTokenToHash cfg (default EmptyString raw)))
              (sessions d)) as [s|] eqn:Efind.
  - (* a session is active under the digest: true, unless the store throws *)
    destruct fs as [|[e|] [|[e'|] fs]];
      [ me_answers true
      | me_answers false | me_answers false | me_answers false
      | me_answers true | me_answers false | me_answers true ];
      try (repeat split; fail);
      (split; [reflexivity|]); (split; [reflexivity|]); (split; [discriminate|]);
      (split; [intros Hno; now specialize (Hnone Hno)|]);
      intros (e0 & fs0 & [H|H]); discriminate H.
  - (* no session is active under the digest *)
    destruct fs as [|[e|] [|[e'|] fs]]; me_answers false; repeat split.
Qed.

Lemma introspect_never_fails_witness :
  no_active_session demo_cfg
    (db (snd (post_admin_logout demo_cfg later_env (Some demo_token) logged_in)))
    demo_token
  /\ fst (get_admin_me demo_cfg (Some demo_token)
            (snd (post_admin_logout demo_cfg later_env (Some demo_token) logged_in)))
     = Ok (json 200 (AuthenticatedBody false))
  /\ store_fails (with_faults [None; Some duplicate_key] logged_in)
  /\ fst (get_admin_me demo_cfg (Some demo_token)
            (with_faults [None; Some duplicate_key] logged_in))
     = Ok (json 200 (AuthenticatedBody false))
  /\ fst (get_admin_me demo_cfg None logged_in) = Ok (json 200 (AuthenticatedBody false)).
Proof.
  assert (Hno : no_active_session demo_cfg
                  (db (snd (post_admin_logout demo_cfg later_env (Some demo_token) logged_in)))
                  demo_token).
  { intros s Hs _. vm_compute in Hs. destruct Hs as [<- | []]. discriminate. }
  assert (Hf : store_fails (with_faults [None; Some duplicate_key] logged_in)).
  { exists duplicate_key, []. right. reflexivity. }
  split; [exact Hno|]. split; [|split; [exact Hf|split]].
  - destruct (introspect_never_fails demo_cfg (Some demo_token)
                (snd (post_admin_logout demo_cfg later_env (Some demo_token) logged_in)))
      as (b & Hres & _ & _ & Hrev & _).
    rewrite Hres, (Hrev Hno). reflexivity.
  - destruct (introspect_never_fails demo_cfg (Some demo_token)
                (with_faults [None; Some duplicate_key] logged_in))
      as (b & Hres & _ & _ & _ & Hfail).
    rewrite Hres, (Hfail Hf). reflexivity.
  - destruct (introspect_never_fails demo_cfg None logged_in)
      as (b & Hres & _ & Hmiss & _).
    rewrite Hres, (Hmiss eq_refl). reflexivity.
Defined.

(* ===================================================================== *)
(** ** The update of lastSeenAt *)
(* ===================================================================== *)

(** Case analysis on what a handler inspects: the faults in stock, the
    result of a lookup, a test. *)
Ltac crunch :=
  repeat (simpl;
    match goal with
    | |- _ /\ _ => split
    | |- context [match ?f with [] => _ | _ :: _ => _ end] =>
        is_var f; destruct f as [|[?|] f]
    | |- context [match ?x with Some _ => _ | None => _ end] => destruct x
    | |- context [if ?b then _ else _] => destruct b eqn:?
    end); try reflexivity.

Ltac same_worlds w1 w2 H :=
  destruct w1 as [[a1 s1 e1 p1] n1 f1], w2 as [[a2 s2 e2 p2] n2 f2];
  destruct H as (Ha & He & Hp & Hn & Hf); simpl in Ha, He, Hp, Hn, Hf; subst.

Section LastSeen.

Lemma logout_handler_same (cfg : Config) (env : Env) (raw : option string) (w1 w2 : World) :
  same_but_sessions w1 w2 ->
  fst (logout_handler cfg env raw w1) = fst (logout_handler cfg env raw w2).
Proof. intros H. same_worlds w1 w2 H. run_handler. crunch. Qed.

Lemma post_entity_handler_same (env : Env) (list key : string) (req_body : option doc)
    (w1 w2 : World) :
  same_but_sessions w1 w2 ->
  fst (post_entity_handler env list key req_body w1)
  = fst (post_entity_handler env list key req_body w2)
  /\ same_but_sessions (snd (post_entity_handler env list key req_body w1))
                       (snd (post_entity_handler env list key req_body w2)).
Proof. intros H. same_worlds w1 w2 H. run_handler. unfold same_but_sessions. crunch. Qed.

Lemma put_entity_handler_same (env : Env) (list key : string) (req_body : option doc)
    (w1 w2 : World) :
  same_but_sessions w1 w2 ->
  fst (put_entity_handler env list key req_body w1)
  = fst (put_entity_handler env list key req_body w2)
  /\ same_but_sessions (snd (put_entity_handler env list key req_body w1))
                       (snd (put_entity_handler env list key req_body w2)).
Proof.
  intros H. same_worlds w1 w2 H. run_handler. unfold same_but_sessions. crunch.
Qed.

Lemma gate_touch_throws (cfg : Config) (env : Env) (raw : option string) (w : World)
    (e : JsError) (rest : list (option JsError)) (s : Session) :
  authenticates cfg (db w) raw s ->
  requireAdminSession cfg env raw (touch_throws e rest w)
  = (Ok (Next (mkAdmin (accountId s) (session_id s))), with_faults rest w).
Proof.
  intros [Hraw Hfind]. destruct w as [d n fs]. simpl in Hfind.
  run_handler. rewrite Hraw. simpl. rewrite Hfind. reflexivity.
Qed.

Lemma gate_touch_works (cfg : Config) (env : Env) (raw : option string) (w : World)
    (rest : list (option JsError)) (s : Session) :
  authenticates cfg (db w) raw s ->
  requireAdminSession cfg env raw (touch_works rest w)
  = (Ok (Next (mkAdmin (accountId s) (session_id s))),
     mkWorld (mkDb (accounts (db w))
                   (update_first (has_id (session_id s)) (set_lastSeenAt (now env))
                                 (sessions (db w)))
                   (entities (db w)) (pages (db w)))
             (next_oid w) rest).
Proof.
  intros [Hraw Hfind]. destruct w as [d n fs]. simpl in Hfind.
  run_handler. rewrite Hraw. simpl. rewrite Hfind. reflexivity.
Qed.

End LastSeen.

(** C7. For a request that the middleware lets through, a failure of the
    update of [lastSeenAt] is swallowed.  With the update throwing and
    with the update working, the middleware calls [next()] with the same
    account and session, the worlds handed to the next handler differ in
    the [sessions] collection at most (the failed update leaves the
    database as it was), and each of the routes behind the middleware
    (logout, creation and update of an entity) sends the same response. *)
Theorem lastSeenAt_failure_swallowed
    (cfg : Config) (env : Env) (raw : option string) (w : World)
    (e : JsError) (rest : list (option JsError)) (s : Session) :
  authenticates cfg (db w) raw s ->
  let failing := touch_throws e rest w in
  let working := touch_works rest w in
  fst (requireAdminSession cfg env raw failing)
    = Ok (Next (mkAdmin (accountId s) (session_id s)))
  /\ fst (requireAdminSession cfg env raw working)
    = Ok (Next (mkAdmin (accountId s) (session_id s)))
  /\ db (snd (requireAdminSession cfg env raw failing)) = db w
  /\ same_but_sessions (snd (requireAdminSession cfg env raw failing))
                       (snd (requireAdminSession cfg env raw working))
  /\ fst (post_admin_logout cfg env raw failing)
     = fst (post_admin_logout cfg env raw working)
  /\ (forall list key req_body,
         fst (post_entity cfg env raw list key req_body failing)
         = fst (post_entity cfg env raw list key req_body working))
  /\ (forall list key req_body,
         fst (put_entity cfg env raw list key req_body failing)
         = fst (put_entity cfg env raw list key req_body working)).
Proof.
  intros Hauth failing working. subst failing working.
  pose proof (gate_touch_throws cfg env raw w e rest s Hauth) as Ht.
  pose proof (gate_touch_works cfg env raw w rest s Hauth) as Hw.
  assert (Hsame : same_but_sessions
                    (snd (requireAdminSession cfg env raw (touch_throws e rest w)))
                    (snd (requireAdminSession cfg env raw (touch_works rest w)))).
  { rewrite Ht, Hw. repeat split. }
  split; [now rewrite Ht|]. split; [now rewrite Hw|].
  split; [now rewrite Ht|]. split; [exact Hsame|].
  rewrite Ht, Hw in Hsame. simpl in Hsame.
  unfold post_admin_logout, post_entity, put_entity, behind_admin, bind.
  rewrite Ht, Hw.
  split; [now apply logout_handler_same|].
  split; intros list key req_body.
  - now apply post_entity_handler_same.
  - now apply put_entity_handler_same.
Qed.

Lemma lastSeenAt_failure_swallowed_witness :
  (exists s, authenticates demo_cfg (db logged_in) (Some demo_token) s)
  /\ fst (post_entity demo_cfg later_env (Some demo_token) "cities" "brussels"
            (Some hostile_body) (touch_throws duplicate_key [] logged_in))
     = fst (post_entity demo_cfg later_env (Some demo_token) "cities" "brussels"
              (Some hostile_body) (touch_works [] logged_in)).
Proof.
  assert (Ha : exists s, authenticates demo_cfg (db logged_in) (Some demo_token) s).
  { eexists. split; vm_compute; reflexivity. }
  split; [exact Ha|].
  destruct Ha as [s Ha].
  destruct (lastSeenAt_failure_swallowed demo_cfg later_env (Some demo_token) logged_in
              duplicate_key [] s Ha) as (_ & _ & _ & _ & _ & Hpost & _).
  exact (Hpost "cities"%string "brussels"%string (Some hostile_body)).
Defined.

(* ===================================================================== *)
(** ** The identifiers of an entity *)
(* ===================================================================== *)

Section Identifiers.

Lemma post_payload_canonical (env : Env) (list key : string) (req_body : option doc) :
  canonical list key (post_payload env list key req_body).
Proof.
  unfold canonical, post_payload.
  destruct (_ !! "createdAt"%string) as [v|]; [destruct (value_truthy v)|];
    split; simplify_map_eq; reflexivity.
Qed.

Lemma canonical_with_id (list key : string) (v : value) (d : doc) :
  canonical list key d -> canonical list key (<["_id" := v]> d).
Proof.
  intros [Hl Hk]. split; (rewrite lookup_insert_ne; [assumption | discriminate]).
Qed.

Lemma put_set_identifiers (env : Env) (req_body : option doc) :
  put_set env req_body !! "_id" = None
  /\ put_set env req_body !! "list" = None
  /\ put_set env req_body !! "key" = None.
Proof. unfold put_set, put_patch. repeat split; simplify_map_eq; reflexivity. Qed.

Lemma set_keeps_identifiers (set d : doc) :
  set !! "_id" = None -> set !! "list" = None -> set !! "key" = None ->
  identifiers (set ∪ d) = identifiers d.
Proof.
  intros Hi Hl Hk. unfold identifiers.
  now rewrite !lookup_union_r by assumption.
Qed.

Lemma update_matching_identifiers (q : doc -> bool) (set : doc) (l : list doc) :
  set !! "_id" = None -> set !! "list" = None -> set !! "key" = None ->
  map identifiers (snd (update_matching q set l)) = map identifiers l.
Proof.
  intros Hi Hl Hk.
  induction l as [|d l IH]; [reflexivity|].
  simpl. destruct (q d).
  - simpl. now rewrite set_keeps_identifiers.
  - destruct (update_matching q set l) as [res l']. simpl in *. now rewrite IH.
Qed.




End Identifiers.

Section EntityRoutes.



End EntityRoutes.



(* ===================================================================== *)
(** ** The order of the listings *)
(* ===================================================================== *)

Section FieldOrder.

Lemma string_compare_not_gt_trans (a b c : string) :
  String.compare a b <> Gt -> String.compare b c <> Gt -> String.compare a c <> Gt.
Proof.
  revert b c. induction a as [|x a IH]; intros [|y b] [|z c]; simpl;
    try congruence.
  unfold Ascii.compare.
  destruct (N.compare_spec (N_of_ascii x) (N_of_ascii y)) as [Exy|Lxy|Gxy];
    destruct (N.compare_spec (N_of_ascii y) (N_of_ascii z)) as [Eyz|Lyz|Gyz];
    destruct (N.compare_spec (N_of_ascii x) (N_of_ascii z)) as [Exz|Lxz|Gxz];
    try congruence; try lia.
  apply IH.
Qed.

Lemma string_leb_trans (a b c : string) :
  String.leb a b = true -> String.leb b c = true -> String.leb a c = true.
Proof.
  unfold String.leb. intros Hab Hbc.
  pose proof (string_compare_not_gt_trans a b c) as H.
  destruct (String.compare a b), (String.compare b c), (String.compare a c);
    try reflexivity; try discriminate; exfalso; apply H; congruence.
Qed.

Lemma string_leb_total (a b : string) :
  String.leb a b = false -> String.leb b a = true.
Proof.
  intros H. destruct (String.leb_total a b) as [E|E]; [congruence | exact E].
Qed.

Lemma value_leb_total (a b : option value) :
  value_leb a b = false -> value_leb b a = true.
Proof.
  unfold value_leb.
  destruct (kind_rank a <? kind_rank b) eqn:Eab; [discriminate|].
  destruct (kind_rank b <? kind_rank a) eqn:Eba; [reflexivity|].
  destruct a as [[| x| x| x| x| x| x| x]|], b as [[| y| y| y| y| y| y| y]|];
    try discriminate; intros H.
  - destruct x, y; (reflexivity || discriminate).
  - apply Z.leb_gt in H. apply Z.leb_le. lia.
  - now apply string_leb_total.
  - apply Z.leb_gt in H. apply Z.leb_le. lia.
  - apply N.leb_gt in H. apply N.leb_le. lia.
Qed.

Lemma field_leb_total (a b : option value) :
  field_leb a b = false -> field_leb b a = true.
Proof.
  unfold field_leb.
  destruct (sort_key a) as [|x], (sort_key b) as [|y]; simpl;
    try discriminate; try reflexivity.
  apply value_leb_total.
Qed.

End FieldOrder.

Section FieldOrderTrans.

Lemma value_leb_trans (a b c : option value) :
  value_leb a b = true -> value_leb b c = true -> value_leb a c = true.
Proof.
  unfold value_leb.
  destruct (kind_rank a <? kind_rank b) eqn:Eab;
    destruct (kind_rank b <? kind_rank a) eqn:Eba; try discriminate;
    destruct (kind_rank b <? kind_rank c) eqn:Ebc;
    destruct (kind_rank c <? kind_rank b) eqn:Ecb; try discriminate;
    destruct (kind_rank a <? kind_rank c) eqn:Eac; try reflexivity;
    destruct (kind_rank c <? kind_rank a) eqn:Eca; try lia.
  destruct a as [[| x| x| x| x| x| x| x]|], b as [[| y| y| y| y| y| y| y]|];
    try discriminate;
    destruct c as [[| z| z| z| z| z| z| z]|]; try discriminate;
    try reflexivity.
  - destruct x, y, z; simpl; congruence.
  - intros H1 H2. apply Z.leb_le in H1, H2. apply Z.leb_le. lia.
  - apply string_leb_trans.
  - intros H1 H2. apply Z.leb_le in H1, H2. apply Z.leb_le. lia.
  - intros H1 H2. apply N.leb_le in H1, H2. apply N.leb_le. lia.
Qed.

Lemma field_leb_trans (a b c : option value) :
  field_leb a b = true -> field_leb b c = true -> field_leb a c = true.
Proof.
  unfold field_leb.
  destruct (sort_key a) as [|x], (sort_key b) as [|y], (sort_key c) as [|z]; simpl;
    try discriminate; try reflexivity.
  apply value_leb_trans.
Qed.

Lemma doc_leb_total (spec : list string) (d1 d2 : doc) :
  doc_leb spec d1 d2 = false -> doc_leb spec d2 d1 = true.
Proof.
  induction spec as [|f spec IH]; simpl; [discriminate|].
  destruct (field_leb (d1 !! f) (d2 !! f)) eqn:E12;
    destruct (field_leb (d2 !! f) (d1 !! f)) eqn:E21; try discriminate.
  - exact IH.
  - reflexivity.
  - apply field_leb_total in E12. congruence.
Qed.

Lemma doc_leb_trans (spec : list string) (d1 d2 d3 : doc) :
  doc_leb spec d1 d2 = true -> doc_leb spec d2 d3 = true -> doc_leb spec d1 d3 = true.
Proof.
  induction spec as [|f spec IH]; simpl; [reflexivity|].
  destruct (field_leb (d1 !! f) (d2 !! f)) eqn:E12; [|discriminate].
  destruct (field_leb (d2 !! f) (d3 !! f)) eqn:E23; [|intros _; discriminate].
  rewrite (field_leb_trans _ _ _ E12 E23).
  destruct (field_leb (d3 !! f) (d1 !! f)) eqn:E31; [|reflexivity].
  rewrite (field_leb_trans _ _ _ E23 E31), (field_leb_trans _ _ _ E31 E12).
  exact IH.
Qed.

(** The order of the sort on name and key is the order of the
    specification. *)
Lemma doc_leb_name_then_key (d1 d2 : doc) :
  doc_leb name_then_key d1 d2 = true <-> name_then_key_le d1 d2.
Proof.
  unfold name_then_key, name_then_key_le, field_lt, field_tied. simpl.
  destruct (field_leb (d1 !! "name"%string) (d2 !! "name"%string));
    destruct (field_leb (d2 !! "name"%string) (d1 !! "name"%string));
    destruct (field_leb (d1 !! "key"%string) (d2 !! "key"%string));
    destruct (field_leb (d2 !! "key"%string) (d1 !! "key"%string));
    intuition congruence.
Qed.

End FieldOrderTrans.

Section SortedListings.

Variable spec : list string.

Let R (d1 d2 : doc) : Prop := doc_leb spec d1 d2 = true.

Lemma Forall_insert_sorted (P : doc -> Prop) (x : doc) (l : list doc) :
  P x -> Forall P l -> Forall P (insert_sorted spec x l).
Proof.
  intros Hx Hl. induction Hl as [|y l Hy Hl IH]; simpl.
  - now constructor.
  - destruct (doc_leb spec x y); repeat constructor; assumption.
Qed.

Lemma insert_sorted_strongly (x : doc) (l : list doc) :
  StronglySorted R l -> StronglySorted R (insert_sorted spec x l).
Proof.
  induction 1 as [|y l Hl IH Hy]; simpl.
  - repeat constructor.
  - destruct (doc_leb spec x y) eqn:Exy.
    + constructor; [now constructor|].
      constructor; [exact Exy|].
      eapply Forall_impl; [exact Hy|].
      intros z Hyz. exact (doc_leb_trans spec x y z Exy Hyz).
    + constructor; [exact IH|].
      apply Forall_insert_sorted; [|exact Hy].
      now apply doc_leb_total.
Qed.

Lemma sort_docs_strongly (l : list doc) : StronglySorted R (sort_docs spec l).
Proof.
  induction l as [|x l IH]; simpl; [constructor|].
  now apply insert_sorted_strongly.
Qed.

Lemma strongly_sorted_in_order (l : list doc) :
  StronglySorted R l -> listed_in_order R l.
Proof.
  induction 1 as [|y l Hl IH Hy]; intros i j d1 d2 Hij H1 H2.
  - destruct i; discriminate.
  - destruct j as [|j]; [lia|]. simpl in H2.
    destruct i as [|i]; simpl in H1.
    + injection H1 as <-.
      rewrite Forall_forall in Hy. apply Hy.
      eapply list_elem_of_lookup_2. exact H2.
    + apply (IH i j); [lia | exact H1 | exact H2].
Qed.

Lemma sort_docs_in_order (l : list doc) : listed_in_order R (sort_docs spec l).
Proof. apply strongly_sorted_in_order, sort_docs_strongly. Qed.

End SortedListings.

Section ListingShape.

Variable R : doc -> doc -> Prop.

Lemma in_order_map (f : doc -> doc) (l : list doc) :
  (forall d1 d2, R d1 d2 -> R (f d1) (f d2)) ->
  listed_in_order R l -> listed_in_order R (map f l).
Proof.
  intros Hf Hl i j d1 d2 Hij H1 H2.
  change (map f l) with (f <$> l) in H1, H2.
  rewrite list_lookup_fmap in H1, H2.
  destruct (l !! i) as [x1|] eqn:E1; [|discriminate].
  destruct (l !! j) as [x2|] eqn:E2; [|discriminate].
  simpl in H1, H2. injection H1 as <-. injection H2 as <-.
  apply Hf. exact (Hl i j x1 x2 Hij E1 E2).
Qed.

Lemma in_order_delete (k : nat) (l : list doc) :
  listed_in_order R l -> listed_in_order R (delete k l).
Proof.
  intros Hl i j d1 d2 Hij H1 H2.
  destruct (Nat.lt_ge_cases j k) as [Hjk|Hjk].
  - rewrite list_lookup_delete_lt in H1, H2 by lia.
    exact (Hl i j d1 d2 Hij H1 H2).
  - rewrite list_lookup_delete_ge in H2 by lia.
    destruct (Nat.lt_ge_cases i k) as [Hik|Hik].
    + rewrite list_lookup_delete_lt in H1 by lia.
      apply (Hl i (S j) d1 d2); [lia | exact H1 | exact H2].
    + rewrite list_lookup_delete_ge in H1 by lia.
      apply (Hl (S i) (S j) d1 d2); [lia | exact H1 | exact H2].
Qed.

Lemma in_order_hoist (tag : string) (l : list doc) :
  listed_in_order R l -> listed_in_order R (snd (hoist tag l)).
Proof.
  intros Hl. unfold hoist.
  destruct (findIndex _ l) as [i|]; simpl; [now apply in_order_delete | exact Hl].
Qed.

End ListingShape.

Section ContentListings.

Lemma stripMongoId_order (d1 d2 : doc) :
  name_then_key_le d1 d2 -> name_then_key_le (stripMongoId d1) (stripMongoId d2).
Proof.
  unfold name_then_key_le, field_lt, field_tied, stripMongoId.
  now rewrite !lookup_delete_ne by discriminate.
Qed.

Lemma sorted_query (q : doc -> bool) (coll : list doc) :
  sorted_by_name_then_key (map stripMongoId (sort_docs name_then_key (List.filter q coll))).
Proof.
  apply in_order_map; [exact stripMongoId_order|].
  intros i j d1 d2 Hij H1 H2. apply doc_leb_name_then_key.
  exact (sort_docs_in_order name_then_key _ i j d1 d2 Hij H1 H2).
Qed.

Lemma sorted_hoisted (tag : string) (q : doc -> bool) (coll : list doc) :
  sorted_by_name_then_key
    (snd (hoist tag (map stripMongoId (sort_docs name_then_key (List.filter q coll))))).
Proof. apply in_order_hoist, sorted_query. Qed.

Ltac listing :=
  crunch; simpl;
  try match goal with
      | |- context [hoist ?t (map stripMongoId
                                (sort_docs name_then_key (List.filter ?q ?c)))] =>
          let H := fresh "Hsorted" in
          pose proof (sorted_hoisted t q c) as H;
          destruct (hoist t (map stripMongoId
                               (sort_docs name_then_key (List.filter q c))));
          simpl in H
      end;
  simpl; intros Hresp; try discriminate Hresp;
  injection Hresp; intros; subst; first [assumption | apply sorted_query].

(** In the second and third revisions of the server, the listing of
    every content endpoint is sorted by name first and key second. *)
Lemma content_listings_sorted (cfg : Config) (w : World) :
  (forall ps, fst (get_pages w) = Ok (json 200 (PagesBody ps)) ->
              sorted_by_name_then_key ps)
  /\ (forall id info ents,
        fst (get_page id w) = Ok (json 200 (PageBody info ents)) ->
        sorted_by_name_then_key ents)
  /\ (forall code country ents,
        fst (get_country cfg code w) = Ok (json 200 (CountryBody country ents)) ->
        sorted_by_name_then_key ents)
  /\ (forall key city ents,
        fst (get_city cfg key w) = Ok (json 200 (CityBody city ents)) ->
        sorted_by_name_then_key ents).
Proof.
  destruct w as [d n fs].
  split; [|split; [|split]].
  - intros ps. run_handler. listing.
  - intros id info ents. run_handler. listing.
  - intros code country ents. run_handler. listing.
  - intros key city ents. run_handler. listing.
Qed.

End ContentListings.

(** C8, where the code departs from it.  In the first revision of the
    server ([server.js]), [GET /pages/:id] sorts on the name alone: for the
    page [capitals], whose two entities named Brussels are stored with
    the key [brussels-2] before the key [brussels-1], the listing comes
    back with [brussels-2] first, which is not sorted by name first and
    key second; the third revision answers the same request with the
    keys in order. *)
Theorem serverjs_page_listing_ignores_key :
  let unsorted := [ entity "capitals" "Amsterdam" "amsterdam";
                    entity "capitals" "Brussels" "brussels-2";
                    entity "capitals" "Brussels" "brussels-1" ] in
  let sorted := [ entity "capitals" "Amsterdam" "amsterdam";
                  entity "capitals" "Brussels" "brussels-1";
                  entity "capitals" "Brussels" "brussels-2" ] in
  (exists info,
      fst (ServerJs.get_page "capitals" atlas_world)
      = Ok (json 200 (PageBody info unsorted)))
  /\ ~ sorted_by_name_then_key unsorted
  /\ (exists info,
         fst (get_page "capitals" atlas_world) = Ok (json 200 (PageBody info sorted))).
Proof.
  intros unsorted sorted. split; [|split].
  - eexists. vm_compute. reflexivity.
  - intros Hs.
    specialize (Hs 1%nat 2%nat (entity "capitals" "Brussels" "brussels-2")
                  (entity "capitals" "Brussels" "brussels-1")
                  ltac:(lia) eq_refl eq_refl).
    destruct Hs as [[_ H] | [_ H]]; vm_compute in H; discriminate H.
  - eexists. vm_compute. reflexivity.
Qed.

(* ===================================================================== *)
(** ** The life of a session *)
(* ===================================================================== *)

Section UpdateFirst.

Context {A : Type} (p : A -> bool) (f : A -> A).

Lemma update_first_lookup (l : list A) (i : nat) (x : A) :
  l !! i = Some x ->
  update_first p f l !! i = Some x \/ update_first p f l !! i = Some (f x).
Proof.
  revert i. induction l as [|y l IH]; intros i Hi; [destruct i; discriminate|].
  simpl. destruct (p y).
  - destruct i as [|i]; simpl in *; [injection Hi as ->; now right | now left].
  - destruct i as [|i]; simpl in *; [now left | now apply IH].
Qed.

Lemma update_first_In (l : list A) (x' : A) :
  In x' (update_first p f l) ->
  In x' l \/ exists x, In x l /\ p x = true /\ x' = f x.
Proof.
  induction l as [|y l IH]; simpl; [intros []|].
  destruct (p y) eqn:Ey; simpl.
  - intros [<- | Hin]; [right; exists y; auto | left; now right].
  - intros [<- | Hin]; [left; now left|].
    destruct (IH Hin) as [H | (x & Hx & Hp & ->)]; [left; now right|].
    right. exists x. auto.
Qed.

Lemma update_first_keeps (l : list A) (x : A) :
  In x l -> In x (update_first p f l) \/ In (f x) (update_first p f l).
Proof.
  induction l as [|y l IH]; simpl; [intros []|].
  destruct (p y) eqn:Ey; simpl.
  - intros [-> | Hin]; [right; now left | left; now right].
  - intros [-> | Hin]; [left; now left|].
    destruct (IH Hin); [left | right]; now right.
Qed.

Lemma update_first_keeps_other (l : list A) (x : A) :
  In x l -> p x = false -> In x (update_first p f l).
Proof.
  intros Hin Hp. induction l as [|y l IH]; simpl; [destruct Hin|].
  destruct Hin as [-> | Hin].
  - rewrite Hp. now left.
  - destruct (p y); right; [exact Hin | now apply IH].
Qed.

Lemma update_first_map {B} (g : A -> B) (l : list A) :
  (forall x, g (f x) = g x) -> map g (update_first p f l) = map g l.
Proof.
  intros Hg. induction l as [|y l IH]; simpl; [reflexivity|].
  destruct (p y); simpl; [now rewrite Hg | now rewrite IH].
Qed.

End UpdateFirst.

Section SessionSteps.

Variable allowed : string -> Prop.

Lemma existsb_has_hash (h : string) (l : list Session) :
  existsb (has_hash h) l = false ->
  forall s, In s l -> sessionTokenHash s <> h.
Proof.
  intros Hex s Hs E.
  assert (existsb (has_hash h) l = true); [|congruence].
  apply existsb_exists. exists s. split; [exact Hs|].
  unfold has_hash. now rewrite E, String.eqb_refl.
Qed.

(** Revoked for good: no write brings an active session back under
    the digest. *)
Lemma step_revoked_for_good (h : string) (l l' : list Session) :
  sessions_step allowed l l' -> revoked_for_good h l -> revoked_for_good h l'.
Proof.
  intros Hstep [(s0 & Hin0 & Hh0) Hall].
  destruct Hstep as [l id t | l h' t _ | l s Hfresh Hact].
  - split.
    + destruct (update_first_keeps (has_id id) (set_lastSeenAt t) l s0 Hin0);
        eexists; (split; [eassumption | exact Hh0]).
    + intros s Hs Hh.
      destruct (update_first_In _ _ _ _ Hs) as [H | (x & Hx & _ & ->)];
        [now apply Hall | simpl in *; now apply (Hall x)].
  - split.
    + destruct (update_first_keeps (has_hash h') (set_revokedAt t) l s0 Hin0);
        eexists; (split; [eassumption | exact Hh0]).
    + intros s Hs Hh.
      destruct (update_first_In _ _ _ _ Hs) as [H | (x & Hx & _ & ->)];
        [now apply Hall | simpl; discriminate].
  - split.
    + exists s0. split; [apply in_or_app; now left | exact Hh0].
    + intros s' Hs' Hh.
      apply in_app_or in Hs' as [Hs' | [<- | []]]; [now apply Hall|].
      exfalso. apply (existsb_has_hash _ _ Hfresh s0 Hin0). congruence.
Qed.

(** Active until revoked: the writes that do not revoke the digest
    leave its session active, and bring no other account under it. *)
Lemma step_active_for (h : string) (a : N) (l l' : list Session) :
  ~ allowed h ->
  sessions_step allowed l l' -> active_for h a l -> active_for h a l'.
Proof.
  intros Hno Hstep [(s0 & Hin0 & Hh0 & Hact0) Hall].
  destruct Hstep as [l id t | l h' t Hal | l s Hfresh Hact].
  - split.
    + destruct (update_first_keeps (has_id id) (set_lastSeenAt t) l s0 Hin0);
        eexists; (split; [eassumption | split; [exact Hh0 | exact Hact0]]).
    + intros s Hs Hh.
      destruct (update_first_In _ _ _ _ Hs) as [H | (x & Hx & _ & ->)];
        [now apply Hall | simpl in *; now apply (Hall x)].
  - assert (Hne : h' <> h) by (intros ->; contradiction).
    split.
    + exists s0. split; [|split; assumption].
      apply update_first_keeps_other; [exact Hin0|].
      unfold has_hash. apply String.eqb_neq. congruence.
    + intros s Hs Hh.
      destruct (update_first_In _ _ _ _ Hs) as [H | (x & Hx & _ & ->)];
        [now apply Hall | simpl in *; now apply (Hall x)].
  - split.
    + exists s0. split; [apply in_or_app; now left | split; assumption].
    + intros s' Hs' Hh.
      apply in_app_or in Hs' as [Hs' | [<- | []]]; [now apply Hall|].
      exfalso. apply (existsb_has_hash _ _ Hfresh s0 Hin0). congruence.
Qed.

End SessionSteps.

Section Revocations.

Lemma revocations_kept_refl (l : list Session) : revocations_kept l l.
Proof. intros i s Hi. exists s. auto. Qed.

Lemma revocations_kept_trans (l1 l2 l3 : list Session) :
  revocations_kept l1 l2 -> revocations_kept l2 l3 -> revocations_kept l1 l3.
Proof.
  intros H12 H23 i s Hi.
  destruct (H12 i s Hi) as (s2 & Hi2 & Hh2 & Hr2).
  destruct (H23 i s2 Hi2) as (s3 & Hi3 & Hh3 & Hr3).
  exists s3. split; [exact Hi3|]. split; [congruence | auto].
Qed.

Lemma step_revocations_kept (allowed : string -> Prop) (l l' : list Session) :
  sessions_step allowed l l' -> revocations_kept l l'.
Proof.
  intros [l0 id t | l0 h t _ | l0 s0 _ _] i s Hi.
  - destruct (update_first_lookup (has_id id) (set_lastSeenAt t) l0 i s Hi) as [H|H];
      eexists; (split; [exact H|]); simpl; auto.
  - destruct (update_first_lookup (has_hash h) (set_revokedAt t) l0 i s Hi) as [H|H];
      eexists; (split; [exact H|]); simpl; auto.
  - exists s. split; [|auto].
    rewrite lookup_app_l; [exact Hi|]. eapply lookup_lt_Some; exact Hi.
Qed.

Lemma steps_revocations_kept (allowed : string -> Prop) (l l' : list Session) :
  rtc (sessions_step allowed) l l' -> revocations_kept l l'.
Proof.
  induction 1 as [l | l1 l2 l3 Hstep _ IH]; [apply revocations_kept_refl|].
  eapply revocations_kept_trans; [|exact IH].
  eapply step_revocations_kept; exact Hstep.
Qed.

Lemma steps_revoked_for_good (allowed : string -> Prop) (h : string) (l l' : list Session) :
  rtc (sessions_step allowed) l l' -> revoked_for_good h l -> revoked_for_good h l'.
Proof.
  induction 1 as [l | l1 l2 l3 Hstep _ IH]; [auto|].
  intros H. apply IH. eapply step_revoked_for_good; eassumption.
Qed.

Lemma steps_active_for (allowed : string -> Prop) (h : string) (a : N)
    (l l' : list Session) :
  ~ allowed h ->
  rtc (sessions_step allowed) l l' -> active_for h a l -> active_for h a l'.
Proof.
  intros Hno. induction 1 as [l | l1 l2 l3 Hstep _ IH]; [auto|].
  intros H. apply IH. eapply step_active_for; eassumption.
Qed.

Lemma steps_weaken (P Q : string -> Prop) (l l' : list Session) :
  (forall h, P h -> Q h) ->
  rtc (sessions_step P) l l' -> rtc (sessions_step Q) l l'.
Proof.
  intros HPQ. induction 1 as [l | l1 l2 l3 Hstep _ IH]; [apply rtc_refl|].
  eapply rtc_l; [|exact IH].
  destruct Hstep; constructor; auto.
Qed.

End Revocations.

Section HandlersStep.

Ltac steps_done :=
  simpl;
  first
    [ apply rtc_refl
    | apply rtc_once; apply step_touch
    | apply rtc_once; apply step_revoke; reflexivity
    | apply rtc_once; apply step_insert; [assumption | reflexivity]
    | eapply rtc_l; [apply step_touch | apply rtc_once; apply step_revoke; reflexivity] ].

Ltac crunch_hoist :=
  repeat (simpl;
    match goal with
    | |- context [match ?f with [] => _ | _ :: _ => _ end] =>
        is_var f; destruct f as [|[?|] f]
    | |- context [match ?x with Some _ => _ | None => _ end] => destruct x
    | |- context [match ?x with inl _ => _ | inr _ => _ end] => destruct x
    | |- context [hoist ?t ?l] => destruct (hoist t l)
    | |- context [if ?b then _ else _] => destruct b eqn:?
    end).

(** Every request writes to the [sessions] collection by steps of the
    life of a session, and revokes the digest of its own cookie only. *)
Lemma handle_steps (cfg : Config) (env : Env) (req : Request) (w : World) :
  rtc (sessions_step (revokes cfg req))
      (sessions (db w)) (sessions (db (snd (handle cfg env req w)))).
Proof.
  destruct w as [d n fs].
  destruct req; run_handler; crunch_hoist; steps_done.
Qed.

End HandlersStep.

Section Runs.

Lemma serve_steps (cfg : Config) (reqs : list (Env * Request)) (w : World) :
  rtc (sessions_step (revoked_in cfg reqs))
      (sessions (db w)) (sessions (db (serve cfg reqs w))).
Proof.
  revert w. induction reqs as [|[env req] reqs IH]; intros w; [apply rtc_refl|].
  simpl. eapply rtc_trans.
  - eapply steps_weaken; [|apply (handle_steps cfg env req w)].
    intros h Hh. exists env, req. split; [now left | exact Hh].
  - eapply steps_weaken; [|apply IH].
    intros h (env' & req' & Hin & Hh). exists env', req'. split; [now right | exact Hh].
Qed.

(** What the middleware does with a cookie: it answers 401 or 500 and
    leaves the database as it was, or it finds the active session of the
    digest and calls [next()], the session touched or not. *)
Lemma gate_cases (cfg : Config) (env : Env) (raw : option string) (w : World) :
  let h := sessionTokenToHash cfg (default EmptyString raw) in
  let r := requireAdminSession cfg env raw w in
  (turned_down (fst r) /\ db (snd r) = db w)
  \/ (exists s,
        opt_truthy raw = true
        /\ List.find (active_with_hash h) (sessions (db w)) = Some s
        /\ fst r = Ok (Next (mkAdmin (accountId s) (session_id s)))
        /\ (sessions (db (snd r)) = sessions (db w)
            \/ sessions (db (snd r))
               = update_first (has_id (session_id s)) (set_lastSeenAt (now env))
                              (sessions (db w)))).
Proof.
  destruct w as [d n fs]. unfold turned_down. run_handler.
  destruct (opt_truthy raw) eqn:Eraw; simpl.
  2:{ left. split; [eexists; split; [reflexivity | now left] | reflexivity]. }
  destruct fs as [|[e|] fs]; simpl.
  - destruct (List.find _ (sessions d)) as [s|] eqn:Efind; simpl.
    + right. exists s. repeat split; auto.
    + left. split; [eexists; split; [reflexivity | now left] | reflexivity].
  - left. split; [eexists; split; [reflexivity | now right] | reflexivity].
  - destruct fs as [|[e|] fs]; simpl.
    + destruct (List.find _ (sessions d)) as [s|] eqn:Efind; simpl.
      * right. exists s. repeat split; auto.
      * left. split; [eexists; split; [reflexivity | now left] | reflexivity].
    + left. split; [eexists; split; [reflexivity | now right] | reflexivity].
    + destruct (List.find _ (sessions d)) as [s|] eqn:Efind; simpl.
      * right. exists s. destruct fs as [|[e|] fs]; simpl; repeat split; auto.
      * left. split; [eexists; split; [reflexivity | now left] | reflexivity].
Qed.

(** The logout handler answers 200 only after the revocation. *)
Lemma logout_handler_cases (cfg : Config) (env : Env) (raw : option string) (w : World) :
  let h := sessionTokenToHash cfg (default EmptyString raw) in
  let r := logout_handler cfg env raw w in
  succeeded (fst r) ->
  sessions (db (snd r))
  = update_first (has_hash h) (set_revokedAt (now env)) (sessions (db w)).
Proof.
  destruct w as [d n fs]. unfold succeeded. run_handler.
  destruct fs as [|[e|] [|[e'|] fs]]; simpl; try reflexivity;
    intros (resp & [= <-] & Hst); discriminate Hst.
Qed.

Lemma revoke_the_one (h : string) (t : Z) (l : list Session) :
  NoDup (map sessionTokenHash l) ->
  (exists s, In s l /\ sessionTokenHash s = h) ->
  revoked_for_good h (update_first (has_hash h) (set_revokedAt t) l).
Proof.
  induction l as [|y l IH]; intros Hnd (s & Hin & Hh); [destruct Hin|].
  apply NoDup_cons in Hnd as [Hy Hnd]. simpl.
  unfold has_hash at 1. destruct (String.eqb_spec (sessionTokenHash y) h) as [Ey|Ey].
  - split.
    + exists (set_revokedAt t y). split; [now left | exact Ey].
    + intros s' [<- | Hs'] Hh'; [discriminate|].
      exfalso. apply Hy. rewrite Ey, <- Hh'.
      apply list_elem_of_In, in_map, Hs'.
  - destruct Hin as [-> | Hin]; [contradiction|].
    destruct (IH Hnd (ex_intro _ s (conj Hin Hh))) as [(s1 & Hin1 & Hh1) Hall].
    split.
    + exists s1. split; [now right | exact Hh1].
    + intros s' [<- | Hs'] Hh'; [contradiction | now apply Hall].
Qed.

(** A successful logout leaves the digest of its cookie revoked for
    good. *)
Lemma logout_revokes (cfg : Config) (env : Env) (raw : option string) (w : World) :
  unique_hashes (db w) ->
  succeeded (fst (post_admin_logout cfg env raw w)) ->
  opt_truthy raw = true
  /\ revoked_for_good (sessionTokenToHash cfg (default EmptyString raw))
       (sessions (db (snd (post_admin_logout cfg env raw w)))).
Proof.
  intros Huniq Hok.
  destruct (gate_cases cfg env raw w)
    as [[(resp & Hr & Hst) _] | (s & Hraw & Hfind & Hr & Hsess)];
    unfold post_admin_logout, behind_admin, bind in *;
    destruct (requireAdminSession cfg env raw w) as [g w1]; simpl in Hr; subst g.
  - destruct Hok as (resp' & [= <-] & Hst'). rewrite Hst' in Hst.
    destruct Hst; discriminate.
  - split; [exact Hraw|].
    rewrite (logout_handler_cases cfg env raw w1 Hok).
    apply find_some in Hfind as [Hin Hact].
    apply andb_prop in Hact as [Hhash _]. apply String.eqb_eq in Hhash.
    simpl in Hsess. destruct Hsess as [-> | ->].
    + apply revoke_the_one; [exact Huniq | now exists s].
    + apply revoke_the_one.
      * rewrite update_first_map; [exact Huniq | reflexivity].
      * destruct (update_first_keeps (has_id (session_id s))
                    (set_lastSeenAt (now env)) (sessions (db w)) s Hin);
          eexists; (split; [eassumption | exact Hhash]).
Qed.

(** Without an active session under the digest of the cookie, the
    middleware turns the cookie down: 401, or 500 when the store
    throws. *)
Lemma gate_turns_down (cfg : Config) (env : Env) (raw : option string) (w : World) :
  opt_truthy raw = true ->
  no_active_session cfg (db w) (default EmptyString raw) ->
  turned_down (fst (requireAdminSession cfg env raw w))
  /\ (faults w = [] -> fst (requireAdminSession cfg env raw w) = Ok (Respond unauthorized)).
Proof.
  intros Hraw Hno. apply no_active_session_find in Hno.
  destruct w as [d n fs]. simpl in Hno. unfold turned_down. run_handler.
  rewrite Hraw. simpl.
  destruct fs as [|[e|] [|[e'|] fs]]; simpl; rewrite ?Hno;
    (split; [eexists; split; [reflexivity | auto] | first [reflexivity | discriminate]]).
Qed.

End Runs.

(** C3. After a successful logout with a cookie, on a store whose digests
    are unique, and after any requests whatever: the middleware turns the
    cookie down, with 401 [unauthorized] when the store answers (and 500
    when it throws), never calling [next()]; and every session is still
    in the store, revoked if it was revoked. The latter holds from any world:
    no request sets a [revokedAt] back to null. *)
Theorem logout_is_permanent
    (cfg : Config) (env : Env) (raw : option string) (w : World)
    (reqs : list (Env * Request)) :
  unique_hashes (db w) ->
  succeeded (fst (post_admin_logout cfg env raw w)) ->
  let w1 := snd (post_admin_logout cfg env raw w) in
  let w2 := serve cfg reqs w1 in
  (forall env' fs,
      turned_down (fst (requireAdminSession cfg env' raw (with_faults fs w2)))
      /\ (fs = [] ->
          fst (requireAdminSession cfg env' raw (with_faults fs w2))
          = Ok (Respond unauthorized)))
  /\ revocations_kept (sessions (db w1)) (sessions (db w2))
  /\ (forall w0 reqs0,
         revocations_kept (sessions (db w0)) (sessions (db (serve cfg reqs0 w0)))).
Proof.
  intros Huniq Hok w1 w2.
  destruct (logout_revokes cfg env raw w Huniq Hok) as [Hraw Hrev].
  fold w1 in Hrev.
  assert (Hrev2 : revoked_for_good (sessionTokenToHash cfg (default EmptyString raw))
                    (sessions (db w2))).
  { eapply steps_revoked_for_good; [apply serve_steps | exact Hrev]. }
  split; [|split].
  - intros env' fs.
    destruct (gate_turns_down cfg env' raw (with_faults fs w2) Hraw) as [Hdown H401].
    + intros s Hs Hh. now apply (proj2 Hrev2).
    + split; [exact Hdown | exact H401].
  - eapply steps_revocations_kept. apply serve_steps.
  - intros w0 reqs0. eapply steps_revocations_kept. apply serve_steps.
Qed.

Lemma logout_is_permanent_witness :
  unique_hashes (db logged_in)
  /\ succeeded (fst (post_admin_logout demo_cfg later_env (Some demo_token) logged_in))
  /\ fst (requireAdminSession demo_cfg later_env (Some demo_token)
            (with_faults []
               (serve demo_cfg later_requests
                  (snd (post_admin_logout demo_cfg later_env (Some demo_token) logged_in)))))
     = Ok (Respond unauthorized).
Proof.
  assert (Hu : unique_hashes (db logged_in)).
  { unfold unique_hashes. vm_compute. apply NoDup_singleton. }
  assert (Hs : succeeded (fst (post_admin_logout demo_cfg later_env (Some demo_token) logged_in))).
  { eexists. split; vm_compute; reflexivity. }
  split; [exact Hu|]. split; [exact Hs|].
  apply (proj1 (logout_is_permanent demo_cfg later_env (Some demo_token) logged_in
                  later_requests Hu Hs) later_env []).
  reflexivity.
Defined.

(* ===================================================================== *)
(** ** Concurrent sessions *)
(* ===================================================================== *)

Section Logins.

(** What a login does.  Nothing to the database, when it does not
    succeed.  Or the store has found an enabled account that passes the
    test of the username of the body, the hasher has verified the
    password of the body against the hash of that account, and the login
    adds one active session of that account, created and seen now, under
    the digest of its token, a digest that the collection did not hold;
    it touches nothing else. *)
Lemma login_effect (cfg : Config) (env : Env) (b : LoginBody) (w : World) :
  let token := makeSessionToken env in
  let r := post_admin_login cfg env b w in
  (db (snd r) = db w /\ ~ succeeded (fst r))
  \/ (exists (test : string -> bool) (a : Account) (s : Session),
        (json_truthy (json_username b) = true /\ json_truthy (json_password b) = true)
        /\ username_filter cfg (or_undefined (json_username b)) = inr test
        /\ List.find (fun a => test (username a) && negb (disabled a)) (accounts (db w))
           = Some a
        /\ argon2_verify cfg (passwordHash a) (or_undefined (json_password b)) = inr true
        /\ db (snd r) = mkDb (accounts (db w)) (sessions (db w) ++ [s])
                             (entities (db w)) (pages (db w))
        /\ fst r = Ok (mkResponse 200 OkBody
                         (SetCookie "admin_session" token (adminCookieOptions cfg)))
        /\ (sessionTokenHash s = sessionTokenToHash cfg token
            /\ revokedAt s = None
            /\ accountId s = account_id a
            /\ createdAt s = now env /\ lastSeenAt s = now env)
        /\ existsb (has_hash (sessionTokenToHash cfg token)) (sessions (db w)) = false).
Proof.
  destruct w as [d n fs]. unfold succeeded. run_handler.
  assert (Hfail : forall resp : Response,
             status resp <> 200 ->
             ~ (exists resp', Ok resp = Ok resp' /\ status resp' = 200)).
  { intros resp Hne (resp' & [= <-] & Hst). contradiction. }
  destruct (json_truthy (json_username b)) eqn:Eu; simpl;
    [|left; split; [reflexivity | apply Hfail; discriminate]].
  destruct (json_truthy (json_password b)) eqn:Ep; simpl;
    [|left; split; [reflexivity | apply Hfail; discriminate]].
  destruct fs as [|[e|] [|[e'|] fs]]; simpl;
    try (left; split; [reflexivity | apply Hfail; discriminate]).
  all: destruct (username_filter cfg (or_undefined (json_username b)))
         as [e2|test] eqn:Etest; simpl;
    try (left; split; [reflexivity | apply Hfail; discriminate]).
  all: destruct (List.find _ (accounts d)) as [a|] eqn:Efind; simpl;
    try (left; split; [reflexivity | apply Hfail; discriminate]).
  all: destruct (argon2_verify cfg (passwordHash a) _) as [e0|[|]] eqn:Ever; simpl;
    try (left; split; [reflexivity | apply Hfail; discriminate]).
  all: try (destruct fs as [|[e1|] fs]; simpl;
    try (left; split; [reflexivity | apply Hfail; discriminate])).
  all: destruct (existsb _ (sessions d)) eqn:Etaken; simpl;
    try (left; split; [reflexivity | apply Hfail; discriminate]).
  all: right; exists test, a; eexists;
    repeat split; first [exact Efind | exact Ever | exact Etaken | reflexivity].
Qed.

Lemma login_cases (cfg : Config) (env : Env) (b : LoginBody) (w : World) :
  let token := makeSessionToken env in
  let r := post_admin_login cfg env b w in
  (db (snd r) = db w /\ ~ succeeded (fst r))
  \/ (exists s,
        db (snd r) = mkDb (accounts (db w)) (sessions (db w) ++ [s])
                          (entities (db w)) (pages (db w))
        /\ fst r = Ok (mkResponse 200 OkBody
                         (SetCookie "admin_session" token (adminCookieOptions cfg)))
        /\ sessionTokenHash s = sessionTokenToHash cfg token
        /\ revokedAt s = None
        /\ existsb (has_hash (sessionTokenToHash cfg token)) (sessions (db w)) = false).
Proof.
  destruct (login_effect cfg env b w)
    as [H | (test & a & s & _ & _ & _ & _ & Hdb & Hresp & (Hh & Hr & _) & Hfresh)];
    [left; exact H|].
  right. exists s. repeat split; assumption.
Qed.

End Logins.

Section Independent.

(** With an active session under the digest of the cookie, and sessions
    of one account only under it, the middleware resolves the cookie to
    that account when the store answers. *)
Lemma gate_lets_through (cfg : Config) (env : Env) (raw : string) (a : N) (w : World) :
  Js.truthy raw = true ->
  faults w = [] ->
  active_for (sessionTokenToHash cfg raw) a (sessions (db w)) ->
  exists sid,
    fst (requireAdminSession cfg env (Some raw) w) = Ok (Next (mkAdmin a sid)).
Proof.
  intros Hraw Hup [(s0 & Hin0 & Hh0 & Hact0) Hall].
  destruct (List.find (active_with_hash (sessionTokenToHash cfg raw)) (sessions (db w)))
    as [s|] eqn:Efind.
  - pose proof (find_some _ _ Efind) as [Hin Hp].
    apply andb_prop in Hp as [Hh _]. apply String.eqb_eq in Hh.
    exists (session_id s).
    destruct w as [d n fs]. simpl in *. subst fs.
    run_handler. cbn [opt_truthy from_option id]. rewrite Hraw. simpl.
    rewrite Efind. simpl. now rewrite (Hall s Hin Hh).
  - exfalso.
    pose proof (proj1 (find_none_iff _ _) Efind s0 Hin0) as Hp.
    unfold active_with_hash, has_hash, is_active in Hp.
    now rewrite Hh0, String.eqb_refl, Hact0 in Hp.
Qed.

Lemma active_after_insert (h : string) (l : list Session) (s : Session) (rest : list Session) :
  existsb (has_hash h) l = false ->
  sessionTokenHash s = h -> revokedAt s = None ->
  (forall s', In s' rest -> sessionTokenHash s' <> h) ->
  active_for h (accountId s) ((l ++ [s]) ++ rest).
Proof.
  intros Hfresh Hh Hact Hrest. split.
  - exists s. split; [|split; assumption].
    apply in_or_app. left. apply in_or_app. right. now left.
  - intros s' Hs' Hh'.
    apply in_app_or in Hs' as [Hs' | Hs'].
    + apply in_app_or in Hs' as [Hs' | [<- | []]]; [|reflexivity].
      exfalso. exact (existsb_has_hash h l Hfresh s' Hs' Hh').
    + exfalso. exact (Hrest s' Hs' Hh').
Qed.

End Independent.

(** C6. Two consecutive successful logins: each inserts one session and
    leaves every other document of the store as it was; the two raw
    tokens differ; both sessions are active, each under the digest of
    its token; and after any requests whatever that do not log out with
    the digest of a token, the middleware, when the store answers, still
    resolves that token to the account of its session (the logout of the
    other token is among these requests). *)
Theorem logins_are_independent
    (cfg : Config) (env1 env2 : Env) (b1 b2 : LoginBody) (w : World) :
  let t1 := makeSessionToken env1 in
  let t2 := makeSessionToken env2 in
  let w1 := snd (post_admin_login cfg env1 b1 w) in
  let w2 := snd (post_admin_login cfg env2 b2 w1) in
  succeeded (fst (post_admin_login cfg env1 b1 w)) ->
  succeeded (fst (post_admin_login cfg env2 b2 w1)) ->
  exists s1 s2,
    db w1 = mkDb (accounts (db w)) (sessions (db w) ++ [s1]) (entities (db w)) (pages (db w))
    /\ db w2 = mkDb (accounts (db w)) ((sessions (db w) ++ [s1]) ++ [s2])
                    (entities (db w)) (pages (db w))
    /\ t1 <> t2
    /\ sessionTokenHash s1 = sessionTokenToHash cfg t1
    /\ sessionTokenHash s2 = sessionTokenToHash cfg t2
    /\ revokedAt s1 = None /\ revokedAt s2 = None
    /\ forall reqs env',
         (~ revoked_in cfg reqs (sessionTokenToHash cfg t1) ->
          exists sid,
            fst (requireAdminSession cfg env' (Some t1)
                   (with_faults [] (serve cfg reqs w2)))
            = Ok (Next (mkAdmin (accountId s1) sid)))
         /\ (~ revoked_in cfg reqs (sessionTokenToHash cfg t2) ->
             exists sid,
               fst (requireAdminSession cfg env' (Some t2)
                      (with_faults [] (serve cfg reqs w2)))
               = Ok (Next (mkAdmin (accountId s2) sid))).
Proof.
  intros t1 t2 w1 w2 Hok1 Hok2.
  destruct (login_cases cfg env1 b1 w) as [[_ Hno] | (s1 & Hdb1 & _ & Hh1 & Hact1 & Hfresh1)];
    [contradiction|].
  destruct (login_cases cfg env2 b2 w1) as [[_ Hno] | (s2 & Hdb2 & _ & Hh2 & Hact2 & Hfresh2)];
    [contradiction|].
  fold w1 in Hdb1. fold w2 in Hdb2. fold t1 in Hh1, Hfresh1. fold t2 in Hh2, Hfresh2.
  rewrite Hdb1 in Hdb2, Hfresh2. simpl in Hdb2, Hfresh2.
  assert (Hne : sessionTokenToHash cfg t1 <> sessionTokenToHash cfg t2).
  { intros E.
    apply (existsb_has_hash _ _ Hfresh2 s1); [|congruence].
    apply in_or_app. right. now left. }
  exists s1, s2.
  split; [exact Hdb1|]. split; [exact Hdb2|].
  split; [intros E; apply Hne; now rewrite E|].
  split; [exact Hh1|]. split; [exact Hh2|]. split; [exact Hact1|]. split; [exact Hact2|].
  intros reqs env'. split; intros Hkeep.
  - apply gate_lets_through; [apply makeSessionToken_truthy | reflexivity |].
    simpl. eapply steps_active_for; [exact Hkeep | apply serve_steps |].
    rewrite Hdb2. simpl.
    apply active_after_insert; try assumption.
    intros s' [<- | []]. congruence.
  - apply gate_lets_through; [apply makeSessionToken_truthy | reflexivity |].
    simpl. eapply steps_active_for; [exact Hkeep | apply serve_steps |].
    rewrite Hdb2. simpl.
    rewrite <- (app_nil_r ((sessions (db w) ++ [s1]) ++ [s2])).
    apply active_after_insert; try assumption.
    intros s' [].
Qed.

Lemma logins_are_independent_witness :
  succeeded (fst (post_admin_login demo_cfg demo_env (credentials "admin" "correct")
                    demo_world))
  /\ succeeded (fst (post_admin_login demo_cfg later_env (credentials "admin" "correct")
                       logged_in))
  /\ makeSessionToken demo_env <> makeSessionToken later_env.
Proof.
  assert (H1 : succeeded (fst (post_admin_login demo_cfg demo_env
                                 (credentials "admin" "correct") demo_world))).
  { eexists. split; vm_compute; reflexivity. }
  assert (H2 : succeeded (fst (post_admin_login demo_cfg later_env
                                 (credentials "admin" "correct") logged_in))).
  { eexists. split; vm_compute; reflexivity. }
  split; [exact H1|]. split; [exact H2|].
  destruct (logins_are_independent demo_cfg demo_env later_env
              (credentials "admin" "correct") (credentials "admin" "correct")
              demo_world H1 H2) as (s1 & s2 & _ & _ & Hne & _).
  exact Hne.
Defined.

(* ===================================================================== *)
(** ** The shape of digests and tokens *)
(* ===================================================================== *)

Section ByteCases.

Lemma in_all_bytes (b : Z) : is_byte b -> In b all_bytes.
Proof.
  intros [Hlo Hhi]. unfold all_bytes.
  rewrite <- (Z2Nat.id b Hlo). apply in_map. apply in_seq. lia.
Qed.

Lemma on_bytes_sound (f : Z -> bool) :
  on_bytes f = true -> forall b, is_byte b -> f b = true.
Proof.
  unfold on_bytes. rewrite forallb_forall.
  intros H b Hb. apply H, in_all_bytes, Hb.
Qed.

Lemma on_byte_pairs_sound (f : Z -> Z -> bool) :
  on_byte_pairs f = true -> forall a b, is_byte a -> is_byte b -> f a b = true.
Proof.
  unfold on_byte_pairs. rewrite forallb_forall.
  intros H a b Ha Hb.
  specialize (H a (in_all_bytes a Ha)). rewrite forallb_forall in H.
  apply H, in_all_bytes, Hb.
Qed.

Lemma land_255_byte (x : Z) : is_byte (Z.land x 255).
Proof.
  change 255 with (Z.ones 8). rewrite Z.land_ones by lia.
  apply Z.mod_pos_bound. lia.
Qed.

Lemma mod_256_byte (x : Z) : is_byte (x mod 256).
Proof. apply Z.mod_pos_bound. lia. Qed.

End ByteCases.

Section HexDigest.

Lemma hex_length (bs : list Z) :
  String.length (Bytes.hex bs) = (2 * length bs)%nat.
Proof. induction bs as [|b bs IH]; simpl; [reflexivity | rewrite IH; lia]. Qed.

Lemma hex_of_byte (b : Z) :
  is_byte b ->
  is_hex_digit (Bytes.hex_digit (Z.shiftr b 4))
  && is_hex_digit (Bytes.hex_digit (Z.land b 15)) = true.
Proof.
  apply (on_bytes_sound
           (fun b => is_hex_digit (Bytes.hex_digit (Z.shiftr b 4))
                     && is_hex_digit (Bytes.hex_digit (Z.land b 15)))).
  vm_compute. reflexivity.
Qed.

Lemma hex_digits (bs : list Z) :
  Forall is_byte bs -> all_chars is_hex_digit (Bytes.hex bs) = true.
Proof.
  induction 1 as [|b bs Hb _ IH]; [reflexivity|].
  cbn [Bytes.hex all_chars]. rewrite andb_assoc, (hex_of_byte b Hb). exact IH.
Qed.

Lemma absorb_words (fuel : nat) (h bs : list Z) :
  length h = 8%nat -> length (Sha256.absorb fuel h bs) = 8%nat.
Proof.
  revert h bs. induction fuel as [|fuel IH]; intros h bs Hh; [exact Hh|].
  destruct bs as [|b bs]; [exact Hh|].
  cbn [Sha256.absorb]. apply IH. reflexivity.
Qed.

Lemma words_to_bytes (ws : list Z) :
  length (flat_map Sha256.bytes_of_word ws) = (4 * length ws)%nat
  /\ Forall is_byte (flat_map Sha256.bytes_of_word ws).
Proof.
  induction ws as [|w ws [IHl IHb]]; [split; [reflexivity | constructor]|].
  split.
  - simpl. simpl in IHl. rewrite IHl. lia.
  - cbn [flat_map Sha256.bytes_of_word app].
    repeat (constructor; [apply land_255_byte|]). exact IHb.
Qed.

Lemma digest_bytes (msg : list Z) :
  length (Sha256.digest msg) = 32%nat /\ Forall is_byte (Sha256.digest msg).
Proof.
  unfold Sha256.digest.
  destruct (words_to_bytes
              (Sha256.absorb (length (Sha256.pad msg)) Sha256.initial_hash (Sha256.pad msg)))
    as [Hl Hb].
  split; [|exact Hb].
  rewrite Hl, absorb_words; reflexivity.
Qed.

Lemma hmac_bytes (key msg : list Z) :
  length (Sha256.hmac key msg) = 32%nat /\ Forall is_byte (Sha256.hmac key msg).
Proof. unfold Sha256.hmac. apply digest_bytes. Qed.

End HexDigest.

(** X1. The digest of a session token, and the hexadecimal SHA-256 of a
    text, are 64 characters long and made of the digits 0-9 and a-f,
    for every pepper, token and text. *)
Theorem digest_is_64_hex_digits (cfg : Config) (token input : string) :
  String.length (sessionTokenToHash cfg token) = 64%nat
  /\ all_chars is_hex_digit (sessionTokenToHash cfg token) = true
  /\ String.length (sha256Hex input) = 64%nat
  /\ all_chars is_hex_digit (sha256Hex input) = true.
Proof.
  unfold sessionTokenToHash, createHmacSha256Hex, sha256Hex.
  destruct (hmac_bytes (Bytes.of_string (SESSION_PEPPER cfg)) (Bytes.of_string token))
    as [Hl Hb].
  destruct (digest_bytes (Bytes.of_string input)) as [Hl' Hb'].
  rewrite !hex_length, Hl, Hl'.
  repeat split; try reflexivity; now apply hex_digits.
Qed.

Section Base64Url.

(** The digits of a group of bytes, as arithmetic on the bytes. *)
Lemma sextets (a b : Z) :
  is_byte a -> is_byte b ->
  Z.shiftr a 2 = a / 4
  /\ Z.shiftl (Z.land a 3) 4 = (a mod 4) * 16
  /\ Z.lor (Z.shiftl (Z.land a 3) 4) (Z.shiftr b 4) = (a mod 4) * 16 + b / 16
  /\ Z.shiftl (Z.land b 15) 2 = (b mod 16) * 4
  /\ Z.lor (Z.shiftl (Z.land a 15) 2) (Z.shiftr b 6) = (a mod 16) * 4 + b / 64
  /\ Z.land b 63 = b mod 64.
Proof.
  intros Ha Hb.
  pose proof (on_byte_pairs_sound
    (fun a b =>
       (Z.shiftr a 2 =? a / 4)
       && (Z.shiftl (Z.land a 3) 4 =? (a mod 4) * 16)
       && (Z.lor (Z.shiftl (Z.land a 3) 4) (Z.shiftr b 4) =? (a mod 4) * 16 + b / 16)
       && (Z.shiftl (Z.land b 15) 2 =? (b mod 16) * 4)
       && (Z.lor (Z.shiftl (Z.land a 15) 2) (Z.shiftr b 6) =? (a mod 16) * 4 + b / 64)
       && (Z.land b 63 =? b mod 64))
    ltac:(vm_compute; reflexivity) a b Ha Hb) as H.
  cbv beta in H.
  repeat (apply andb_prop in H as [H ?]).
  repeat split; now apply Z.eqb_eq.
Qed.

Lemma b64url_digit_char (n : Z) :
  is_sextet n -> is_b64url_char (Bytes.b64url_digit n) = true.
Proof.
  intros [Hlo Hhi].
  pose proof (on_bytes_sound
                (fun n => (64 <=? n) || is_b64url_char (Bytes.b64url_digit n))
                ltac:(vm_compute; reflexivity) n ltac:(split; lia)) as H.
  cbv beta in H. apply orb_prop in H as [H|H]; [apply Z.leb_le in H; lia | exact H].
Qed.

Lemma b64url_digit_inj (x y : Z) :
  is_sextet x -> is_sextet y ->
  Bytes.b64url_digit x = Bytes.b64url_digit y -> x = y.
Proof.
  intros [Hx Hx'] [Hy Hy'] E.
  pose proof (on_byte_pairs_sound
                (fun x y => (64 <=? x) || (64 <=? y)
                            || negb (Ascii.eqb (Bytes.b64url_digit x) (Bytes.b64url_digit y))
                            || (x =? y))
                ltac:(vm_compute; reflexivity) x y ltac:(split; lia) ltac:(split; lia)) as H.
  cbv beta in H. rewrite E, Ascii.eqb_refl in H. cbn [negb] in H. rewrite orb_false_r in H.
  apply orb_prop in H as [H|H]; [|now apply Z.eqb_eq].
  apply orb_prop in H as [H|H]; apply Z.leb_le in H; lia.
Qed.

Ltac sextet_bounds :=
  unfold is_byte, is_sextet in *;
  repeat match goal with
         | |- _ /\ _ => split
         end;
  Z.div_mod_to_equations; lia.

(** Every digit of the encoding of bytes is in the alphabet. *)
Lemma base64url_alphabet (bs : list Z) :
  Forall is_byte bs -> all_chars is_b64url_char (Bytes.base64url bs) = true.
Proof.
  enough (H : forall bs, Forall is_byte bs ->
            all_chars is_b64url_char (Bytes.base64url bs) = true
            /\ (forall a, is_byte a ->
                  all_chars is_b64url_char (Bytes.base64url (a :: bs)) = true)
            /\ (forall a b, is_byte a -> is_byte b ->
                  all_chars is_b64url_char (Bytes.base64url (a :: b :: bs)) = true))
    by (intros Hbs; apply (H bs Hbs)).
  clear bs. induction 1 as [|c bs Hc Hbs (IH0 & IH1 & IH2)].
  - split; [reflexivity|]. split.
    + intros a Ha. destruct (sextets a a Ha Ha) as (E0 & E1 & _).
      cbn [Bytes.base64url all_chars]. rewrite E0, E1.
      rewrite !b64url_digit_char by sextet_bounds. reflexivity.
    + intros a b Ha Hb.
      destruct (sextets a b Ha Hb) as (E0 & _ & E2 & E3 & _).
      cbn [Bytes.base64url all_chars]. rewrite E0, E2, E3.
      rewrite !b64url_digit_char by sextet_bounds. reflexivity.
  - split; [now apply IH1|]. split; [intros a Ha; now apply IH2|].
    intros a b Ha Hb.
    destruct (sextets a b Ha Hb) as (E0 & _ & E2 & _).
    destruct (sextets b c Hb Hc) as (_ & _ & _ & _ & E4 & E5).
    cbn [Bytes.base64url all_chars]. rewrite E0, E2, E4, E5.
    rewrite !b64url_digit_char by sextet_bounds. exact IH0.
Qed.

Ltac same_digit H :=
  apply b64url_digit_inj in H; [| sextet_bounds | sextet_bounds].

(** Different bytes have different encodings. *)
Lemma base64url_inj (n : nat) (l1 l2 : list Z) :
  (length l1 <= n)%nat ->
  Forall is_byte l1 -> Forall is_byte l2 ->
  Bytes.base64url l1 = Bytes.base64url l2 -> l1 = l2.
Proof.
  revert l1 l2. induction n as [|n IH]; intros l1 l2 Hn H1 H2 E.
  { destruct l1; [|simpl in Hn; lia].
    destruct l2 as [|a [|b [|c r]]]; cbn [Bytes.base64url] in E;
      [reflexivity | discriminate E ..]. }
  destruct l1 as [|a [|b [|c r]]], l2 as [|a' [|b' [|c' r']]];
    cbn [Bytes.base64url] in E;
    try reflexivity; try discriminate E;
    repeat match goal with
           | H : Forall is_byte (_ :: _) |- _ => apply Forall_cons in H as [? H]
           end.
  - (* one byte each *)
    destruct (sextets a a) as (E0 & E1 & _); [assumption..|].
    destruct (sextets a' a') as (E0' & E1' & _); [assumption..|].
    rewrite E0, E1, E0', E1' in E.
    injection E as D0 D1. same_digit D0. same_digit D1.
    f_equal. sextet_bounds.
  - (* two bytes each *)
    destruct (sextets a b) as (E0 & _ & E2 & E3 & _); [assumption..|].
    destruct (sextets a' b') as (E0' & _ & E2' & E3' & _); [assumption..|].
    rewrite E0, E2, E3, E0', E2', E3' in E.
    injection E as D0 D1 D2. same_digit D0. same_digit D1. same_digit D2.
    assert (a = a' /\ b = b') as [-> ->] by sextet_bounds. reflexivity.
  - (* a group of three bytes each *)
    destruct (sextets a b) as (E0 & _ & E2 & _); [assumption..|].
    destruct (sextets b c) as (_ & _ & _ & _ & E4 & E5); [assumption..|].
    destruct (sextets a' b') as (E0' & _ & E2' & _); [assumption..|].
    destruct (sextets b' c') as (_ & _ & _ & _ & E4' & E5'); [assumption..|].
    rewrite E0, E2, E4, E5, E0', E2', E4', E5' in E.
    injection E as D0 D1 D2 D3 Er.
    same_digit D0. same_digit D1. same_digit D2. same_digit D3.
    assert (a = a' /\ b = b' /\ c = c') as (-> & -> & ->) by sextet_bounds.
    do 3 f_equal. apply IH; [simpl in Hn; lia | assumption..].
Qed.

Lemma randomBytes_bytes (env : Env) (n : nat) :
  length (randomBytes env n) = n /\ Forall is_byte (randomBytes env n).
Proof.
  unfold randomBytes. split.
  - now rewrite length_map, length_seq.
  - apply Forall_forall. intros b Hb.
    apply list_elem_of_In, in_map_iff in Hb as (i & <- & _). apply mod_256_byte.
Qed.

End Base64Url.

(** X2. A session token has 43 characters, all of the URL-safe alphabet
    A-Z, a-z, 0-9, - and _, whatever the random source delivers; so it
    is never the empty string, which the middleware would take for a
    missing cookie. *)
Theorem token_is_43_url_safe_characters (env : Env) :
  String.length (makeSessionToken env) = 43%nat
  /\ all_chars is_b64url_char (makeSessionToken env) = true
  /\ opt_truthy (Some (makeSessionToken env)) = true.
Proof.
  split; [|split].
  - unfold makeSessionToken, randomBytes.
    cbn [seq map Bytes.base64url String.length]. reflexivity.
  - unfold makeSessionToken. apply base64url_alphabet, randomBytes_bytes.
  - unfold makeSessionToken, randomBytes.
    cbn [seq map Bytes.base64url opt_truthy Js.truthy]. reflexivity.
Qed.

(** X3. The encoding of the token loses nothing of the 32 random bytes:
    two logins whose random bytes differ draw different tokens. *)
Theorem token_keeps_all_random_bytes (env1 env2 : Env) :
  makeSessionToken env1 = makeSessionToken env2 ->
  randomBytes env1 32 = randomBytes env2 32.
Proof.
  unfold makeSessionToken. intros E.
  apply (base64url_inj 32); [| apply randomBytes_bytes .. | exact E].
  now rewrite (proj1 (randomBytes_bytes env1 32)).
Qed.

Lemma token_keeps_all_random_bytes_witness :
  makeSessionToken demo_env = makeSessionToken (mkEnv 0 (fun i => Z.of_nat i + 256) None None None)
  /\ randomBytes demo_env 32
     = randomBytes (mkEnv 0 (fun i => Z.of_nat i + 256) None None None) 32.
Proof.
  assert (E : makeSessionToken demo_env
              = makeSessionToken (mkEnv 0 (fun i => Z.of_nat i + 256) None None None)).
  { vm_compute. reflexivity. }
  split; [exact E|].
  exact (token_keeps_all_random_bytes _ _ E).
Defined.

(* ===================================================================== *)
(** ** Properties of the token digest *)
(* ===================================================================== *)

Section KeyBlocks.

Lemma hmac_key_block (k1 k2 msg : list Z) :
  Sha256.key_block k1 = Sha256.key_block k2 ->
  Sha256.hmac k1 msg = Sha256.hmac k2 msg.
Proof. intros E. unfold Sha256.hmac. now rewrite E. Qed.

(** Zeros after a key without zero bytes tell where the key ends. *)
Lemma zero_fill_inj (k1 k2 : list Z) (n1 n2 : nat) :
  no_zero_byte k1 -> no_zero_byte k2 ->
  k1 ++ repeat 0 n1 = k2 ++ repeat 0 n2 -> k1 = k2.
Proof.
  unfold no_zero_byte. intros H1. revert k2 n2.
  induction H1 as [|x k1 Hx _ IH]; intros k2 n2 H2 E.
  - destruct H2 as [|y k2 Hy _]; [reflexivity|].
    destruct n1; simpl in E; [discriminate | injection E as E _; now subst].
  - destruct H2 as [|y k2 Hy H2].
    + destruct n2; simpl in E; [discriminate | injection E as E _; now subst].
    + simpl in E. injection E as -> E. f_equal. exact (IH k2 n2 H2 E).
Qed.

Lemma printable_not_zero (c : ascii) :
  printable c = true -> Z.of_N (N_of_ascii c) <> 0.
Proof. destruct c as [[] [] [] [] [] [] [] []]; simpl; first [discriminate | lia]. Qed.

Lemma text_no_zero_byte (s : string) :
  all_chars printable s = true -> no_zero_byte (Bytes.of_string s).
Proof.
  unfold no_zero_byte, Bytes.of_string.
  induction s as [|c s IH]; simpl; [constructor|].
  intros H. apply andb_prop in H as [Hc Hs].
  constructor; [now apply printable_not_zero | now apply IH].
Qed.

Lemma of_string_inj (s1 s2 : string) :
  Bytes.of_string s1 = Bytes.of_string s2 -> s1 = s2.
Proof.
  unfold Bytes.of_string. revert s2.
  induction s1 as [|c1 s1 IH]; intros [|c2 s2]; simpl; try discriminate; [reflexivity|].
  intros E. injection E as Ec Es.
  apply N2Z.inj in Ec.
  rewrite <- (ascii_N_embedding c1), <- (ascii_N_embedding c2), Ec.
  f_equal. now apply IH.
Qed.

Lemma of_string_length (s : string) :
  length (Bytes.of_string s) = String.length s.
Proof.
  unfold Bytes.of_string. rewrite length_map.
  induction s as [|c s IH]; simpl; [reflexivity | now rewrite IH].
Qed.

(** Two texts of the environment, of one block at most, have different
    key blocks unless they are the same text. *)
Lemma short_key_blocks (s1 s2 : string) :
  env_text s1 -> env_text s2 ->
  (String.length s1 <= 64)%nat -> (String.length s2 <= 64)%nat ->
  Sha256.key_block (Bytes.of_string s1) = Sha256.key_block (Bytes.of_string s2) ->
  s1 = s2.
Proof.
  intros [_ H1] [_ H2] L1 L2. unfold Sha256.key_block, Sha256.block_size.
  rewrite !of_string_length.
  destruct (Nat.ltb_spec 64 (String.length s1)) as [?|_]; [lia|].
  destruct (Nat.ltb_spec 64 (String.length s2)) as [?|_]; [lia|].
  intros E. apply of_string_inj.
  eapply zero_fill_inj; [| | exact E]; now apply text_no_zero_byte.
Qed.

End KeyBlocks.

Section Counting.

(** The texts of [n] hexadecimal digits: there are [16 ^ n] of them, all
    different, and they are the texts of that length made of these
    digits. *)
Lemma hex_digit_listed (c : ascii) : is_hex_digit c = true -> c ∈ hex_alphabet.
Proof.
  intros H. apply list_elem_of_In.
  destruct c as [[] [] [] [] [] [] [] []]; try discriminate H; simpl; tauto.
Qed.

Lemma hex_listed_printable (c : ascii) : c ∈ hex_alphabet -> printable c = true.
Proof.
  intros H. apply list_elem_of_In in H. simpl in H.
  repeat (destruct H as [<- | H]; [reflexivity|]). destruct H.
Qed.

Lemma hex_words_listed (n : nat) (s : string) :
  String.length s = n -> all_chars is_hex_digit s = true -> s ∈ hex_words n.
Proof.
  revert s. induction n as [|n IH]; intros [|c s] Hl Hd; try discriminate Hl.
  - apply list_elem_of_singleton. reflexivity.
  - simpl in Hd. apply andb_prop in Hd as [Hc Hs].
    cbn [hex_words]. apply list_elem_of_bind. exists c.
    split; [|now apply hex_digit_listed].
    apply list_elem_of_fmap. exists s. split; [reflexivity|].
    apply IH; [now injection Hl | exact Hs].
Qed.

Lemma hex_words_texts (n : nat) (s : string) :
  s ∈ hex_words n -> String.length s = n /\ all_chars printable s = true.
Proof.
  revert s. induction n as [|n IH]; intros s Hs.
  - apply list_elem_of_singleton in Hs as ->. split; reflexivity.
  - cbn [hex_words] in Hs. apply list_elem_of_bind in Hs as (c & Hs & Hc).
    apply list_elem_of_fmap in Hs as (r & -> & Hr).
    destruct (IH r Hr) as [Hl Hp]. simpl.
    rewrite Hl, Hp, (hex_listed_printable c Hc). split; reflexivity.
Qed.

Lemma hex_words_NoDup (n : nat) : NoDup (hex_words n).
Proof.
  induction n as [|n IH]; [apply NoDup_singleton|].
  cbn [hex_words]. apply NoDup_bind.
  - intros c1 c2 s _ _ H1 H2.
    apply list_elem_of_fmap in H1 as (r1 & -> & _).
    apply list_elem_of_fmap in H2 as (r2 & E & _). now injection E.
  - intros c _. apply NoDup_fmap_2_strong; [|exact IH].
    intros r1 r2 _ _ E. now injection E.
  - apply (bool_decide_unpack _). vm_compute. exact I.
Qed.

Lemma hex_words_length (n : nat) : length (hex_words n) = (16 ^ n)%nat.
Proof.
  induction n as [|n IH]; [reflexivity|].
  rewrite Nat.pow_succ_r'. cbn [hex_words hex_alphabet mbind list_bind].
  rewrite !length_app, !length_fmap, IH. simpl length. lia.
Qed.

(** Among more texts than there are images, two have the same image. *)
Lemma same_image {A B : Type} `{EqDecision B} (f : A -> B) (l : list A) :
  NoDup l -> ~ NoDup (f <$> l) ->
  exists x y, x ∈ l /\ y ∈ l /\ x <> y /\ f x = f y.
Proof.
  induction 1 as [|x l Hx Hl IH]; intros Hdup.
  - exfalso. apply Hdup. apply NoDup_nil_2.
  - cbn [fmap list_fmap] in Hdup.
    destruct (decide (f x ∈ f <$> l)) as [Hin | Hout].
    + apply list_elem_of_fmap in Hin as (y & E & Hy).
      exists x, y. repeat split; [left | now right | | exact E].
      intros ->. contradiction.
    + destruct IH as (a & b & Ha & Hb & Hab & E).
      * intros Hnd. apply Hdup. now apply NoDup_cons.
      * exists a, b. repeat split; [now right | now right | exact Hab | exact E].
Qed.

Lemma pigeonhole {A B : Type} `{EqDecision B} (f : A -> B) (l : list A) (k : list B) :
  NoDup l -> (forall x, x ∈ l -> f x ∈ k) -> (length k < length l)%nat ->
  exists x y, x ∈ l /\ y ∈ l /\ x <> y /\ f x = f y.
Proof.
  intros Hl Hk Hlt. apply same_image; [exact Hl|].
  intros Hnd.
  assert (Hsub : (f <$> l) ⊆+ k).
  { apply NoDup_submseteq; [exact Hnd|].
    intros y Hy. apply list_elem_of_fmap in Hy as (x & -> & Hx). now apply Hk. }
  apply submseteq_length in Hsub. rewrite length_fmap in Hsub.
  exact (Nat.lt_irrefl _ (Nat.le_lt_trans _ _ _ Hsub Hlt)).
Qed.

(** Digests of [n] hexadecimal digits cannot tell all the peppers of
    [n + 1] hexadecimal digits apart. *)
Lemma two_peppers_one_digest (n : nat) (digest : string -> string) :
  (forall s, String.length (digest s) = n /\ all_chars is_hex_digit (digest s) = true) ->
  exists s1 s2,
    env_text s1 /\ env_text s2 /\ String.length s1 = S n /\ String.length s2 = S n
    /\ s1 <> s2 /\ digest s1 = digest s2.
Proof.
  intros Hshape.
  destruct (pigeonhole digest (hex_words (S n)) (hex_words n))
    as (s1 & s2 & H1 & H2 & Hne & E).
  - apply hex_words_NoDup.
  - intros s _. destruct (Hshape s). now apply hex_words_listed.
  - rewrite !hex_words_length. apply Nat.pow_lt_mono_r; [|apply Nat.lt_succ_diag_r].
    repeat constructor.
  - apply hex_words_texts in H1 as [L1 P1]. apply hex_words_texts in H2 as [L2 P2].
    exists s1, s2.
    assert (T1 : env_text s1) by (split; [intros ->; discriminate L1 | exact P1]).
    assert (T2 : env_text s2) by (split; [intros ->; discriminate L2 | exact P2]).
    exact (conj T1 (conj T2 (conj L1 (conj L2 (conj Hne E))))).
Qed.

Lemma sessionTokenToHash_shape (cfg : Config) (token : string) :
  String.length (sessionTokenToHash cfg token) = 64%nat
  /\ all_chars is_hex_digit (sessionTokenToHash cfg token) = true.
Proof.
  unfold sessionTokenToHash, createHmacSha256Hex.
  destruct (hmac_bytes (Bytes.of_string (SESSION_PEPPER cfg)) (Bytes.of_string token))
    as [Hl Hb].
  rewrite hex_length, Hl. split; [reflexivity | now apply hex_digits].
Qed.

End Counting.

(** C4, as the code has it.  The digest of a token is a function of the
    pepper and the token: the same pepper gives the same digest.  The
    pepper counts only through its HMAC key block (the pepper, hashed
    when longer than 64 bytes, filled with zeros up to 64 bytes): two
    peppers with the same key block give the same digest of every token,
    and two different peppers that the environment can hold, of 64 bytes
    at most, have different key blocks.  A digest is one of the [16 ^ 64]
    texts of 64 hexadecimal digits, so that for every token two
    different peppers of 65 hexadecimal digits give the same digest; and
    there are peppers that give different digests of a token. *)
Theorem sessionTokenToHash_deterministic :
  (forall cfg1 cfg2 token,
      SESSION_PEPPER cfg1 = SESSION_PEPPER cfg2 ->
      sessionTokenToHash cfg1 token = sessionTokenToHash cfg2 token)
  /\ (forall cfg1 cfg2 token,
         Sha256.key_block (Bytes.of_string (SESSION_PEPPER cfg1))
         = Sha256.key_block (Bytes.of_string (SESSION_PEPPER cfg2)) ->
         sessionTokenToHash cfg1 token = sessionTokenToHash cfg2 token)
  /\ (forall cfg1 cfg2,
         env_text (SESSION_PEPPER cfg1) -> env_text (SESSION_PEPPER cfg2) ->
         (String.length (SESSION_PEPPER cfg1) <= 64)%nat ->
         (String.length (SESSION_PEPPER cfg2) <= 64)%nat ->
         SESSION_PEPPER cfg1 <> SESSION_PEPPER cfg2 ->
         Sha256.key_block (Bytes.of_string (SESSION_PEPPER cfg1))
         <> Sha256.key_block (Bytes.of_string (SESSION_PEPPER cfg2)))
  /\ (forall token,
         exists s1 s2,
           env_text s1 /\ env_text s2 /\ s1 <> s2
           /\ sessionTokenToHash (with_pepper s1) token
              = sessionTokenToHash (with_pepper s2) token)
  /\ sessionTokenToHash (with_pepper "pepper one") "token"
     <> sessionTokenToHash (with_pepper "pepper two") "token".
Proof.
  split; [|split; [|split; [|split]]].
  - intros cfg1 cfg2 token E. unfold sessionTokenToHash. now rewrite E.
  - intros cfg1 cfg2 token E.
    unfold sessionTokenToHash, createHmacSha256Hex.
    now rewrite (hmac_key_block _ _ _ E).
  - intros cfg1 cfg2 H1 H2 L1 L2 Hne E. apply Hne.
    now apply short_key_blocks.
  - intros token.
    destruct (two_peppers_one_digest 64
                (fun s => sessionTokenToHash (with_pepper s) token))
      as (s1 & s2 & H1 & H2 & _ & _ & Hne & E).
    + intros s. apply sessionTokenToHash_shape.
    + exists s1, s2. exact (conj H1 (conj H2 (conj Hne E))).
  - vm_compute. discriminate.
Qed.

Lemma sessionTokenToHash_deterministic_witness :
  SESSION_PEPPER (with_pepper "pepper one")
  = SESSION_PEPPER (mkConfig "pepper one" true never_verifies no_operators Js.ascii_tables)
  /\ sessionTokenToHash (with_pepper "pepper-one") "token"
     = sessionTokenToHash
         (mkConfig "pepper-one" true never_verifies no_operators Js.ascii_tables) "token"
  /\ env_text "pepper-one" /\ env_text "pepper-two"
  /\ Sha256.key_block (Bytes.of_string "pepper-one")
     <> Sha256.key_block (Bytes.of_string "pepper-two").
Proof.
  destruct sessionTokenToHash_deterministic as (Hsame & _ & Hblock & _).
  assert (H1 : env_text "pepper-one") by (split; [discriminate | reflexivity]).
  assert (H2 : env_text "pepper-two") by (split; [discriminate | reflexivity]).
  split; [reflexivity|].
  split; [apply Hsame; reflexivity|].
  split; [exact H1|]. split; [exact H2|].
  apply (Hblock (with_pepper "pepper-one") (with_pepper "pepper-two") H1 H2).
  - simpl. lia.
  - simpl. lia.
  - discriminate.
Defined.

(** C4, as the specification states it, fails: the digests of a token
    under two different peppers are not always different, also among the
    peppers that the environment can hold. *)
Lemma digest_same_under_two_secrets :
  ~ (forall cfg1 cfg2 token,
        env_text (SESSION_PEPPER cfg1) -> env_text (SESSION_PEPPER cfg2) ->
        SESSION_PEPPER cfg1 <> SESSION_PEPPER cfg2 ->
        sessionTokenToHash cfg1 token <> sessionTokenToHash cfg2 token).
Proof.
  intros claim.
  destruct (two_peppers_one_digest 64
              (fun s => sessionTokenToHash (with_pepper s) "token"))
    as (s1 & s2 & H1 & H2 & _ & _ & Hne & E).
  - intros s. apply sessionTokenToHash_shape.
  - exact (claim (with_pepper s1) (with_pepper s2) "token"%string H1 H2 Hne E).
Qed.

(* ===================================================================== *)
(** ** What the server keeps, and what it never writes *)
(* ===================================================================== *)

(** Case analysis on everything a handler inspects. *)
Ltac handler_cases :=
  repeat (simpl;
    match goal with
    | |- context [match ?f with [] => _ | _ :: _ => _ end] =>
        is_var f; destruct f as [|[?|] f]
    | |- context [match ?x with Some _ => _ | None => _ end] => destruct x
    | |- context [match ?x with inl _ => _ | inr _ => _ end] => destruct x
    | |- context [hoist ?t ?l] => destruct (hoist t l)
    | |- context [if ?b then _ else _] => destruct b eqn:?
    end).

Lemma sessionTokenToHash_length (cfg : Config) (token : string) :
  String.length (sessionTokenToHash cfg token) = 64%nat.
Proof.
  unfold sessionTokenToHash, createHmacSha256Hex.
  now rewrite hex_length, (proj1 (hmac_bytes _ _)).
Qed.

Lemma makeSessionToken_length (env : Env) :
  String.length (makeSessionToken env) = 43%nat.
Proof.
  unfold makeSessionToken, randomBytes.
  cbn [seq map Bytes.base64url String.length]. reflexivity.
Qed.

(** X4. A successful login hands the raw token to the cookie and stores
    its digest: the session that it inserts holds 64 hexadecimal digits
    under [sessionTokenHash], never the token of the cookie. *)
Theorem login_stores_the_digest_only
    (cfg : Config) (env : Env) (b : LoginBody) (w : World) :
  succeeded (fst (post_admin_login cfg env b w)) ->
  exists s,
    sessions (db (snd (post_admin_login cfg env b w))) = sessions (db w) ++ [s]
    /\ fst (post_admin_login cfg env b w)
       = Ok (mkResponse 200 OkBody
               (SetCookie "admin_session" (makeSessionToken env) (adminCookieOptions cfg)))
    /\ String.length (sessionTokenHash s) = 64%nat
    /\ sessionTokenHash s <> makeSessionToken env.
Proof.
  intros Hok.
  destruct (login_cases cfg env b w) as [[_ Hno] | (s & Hdb & Hresp & Hh & _)];
    [contradiction|].
  exists s. rewrite Hdb. split; [reflexivity|]. split; [exact Hresp|].
  assert (Hlen : String.length (sessionTokenHash s) = 64%nat).
  { rewrite Hh. apply sessionTokenToHash_length. }
  split; [exact Hlen|].
  intros E. rewrite E in Hlen.
  rewrite makeSessionToken_length in Hlen. discriminate Hlen.
Qed.

Lemma login_stores_the_digest_only_witness :
  succeeded (fst (post_admin_login demo_cfg demo_env (credentials "admin" "correct")
                    demo_world))
  /\ exists s,
       sessions (db logged_in) = [s] /\ sessionTokenHash s <> demo_token.
Proof.
  assert (H : succeeded (fst (post_admin_login demo_cfg demo_env
                                (credentials "admin" "correct") demo_world))).
  { eexists. split; vm_compute; reflexivity. }
  split; [exact H|].
  destruct (login_stores_the_digest_only demo_cfg demo_env
              (credentials "admin" "correct") demo_world H) as (s & Hs & _ & _ & Hne).
  exists s. split; [exact Hs | exact Hne].
Defined.

Section Invariants.

Lemma step_unique_hashes (allowed : string -> Prop) (l l' : list Session) :
  sessions_step allowed l l' ->
  NoDup (map sessionTokenHash l) -> NoDup (map sessionTokenHash l').
Proof.
  intros [l0 id t | l0 h t _ | l0 s Hfresh _] Hnd.
  - now rewrite update_first_map.
  - now rewrite update_first_map.
  - rewrite map_app. apply NoDup_app. split; [exact Hnd|]. split.
    + intros h Hin Hin'. apply list_elem_of_In in Hin'.
      simpl in Hin'. destruct Hin' as [<- | []].
      apply list_elem_of_In, in_map_iff in Hin as (s' & Hh & Hs').
      exact (existsb_has_hash _ _ Hfresh s' Hs' Hh).
    + apply NoDup_singleton.
Qed.

Lemma steps_unique_hashes (allowed : string -> Prop) (l l' : list Session) :
  rtc (sessions_step allowed) l l' ->
  NoDup (map sessionTokenHash l) -> NoDup (map sessionTokenHash l').
Proof.
  induction 1 as [l | l1 l2 l3 Hstep _ IH]; [auto|].
  intros H. apply IH. eapply step_unique_hashes; eassumption.
Qed.

(** No request writes to the [accounts] and [pages] collections. *)
Lemma handle_keeps_accounts_pages (cfg : Config) (env : Env) (req : Request) (w : World) :
  accounts (db (snd (handle cfg env req w))) = accounts (db w)
  /\ pages (db (snd (handle cfg env req w))) = pages (db w).
Proof.
  destruct w as [d n fs].
  destruct req; run_handler; handler_cases; split; reflexivity.
Qed.

End Invariants.

(** X5. On a store whose session digests are unique, they are unique
    after any run of requests: the server never stores two sessions
    under one digest. *)
Theorem digests_stay_unique (cfg : Config) (reqs : list (Env * Request)) (w : World) :
  unique_hashes (db w) -> unique_hashes (db (serve cfg reqs w)).
Proof.
  unfold unique_hashes. intros H.
  eapply steps_unique_hashes; [apply serve_steps | exact H].
Qed.

Lemma digests_stay_unique_witness :
  unique_hashes (db logged_in)
  /\ unique_hashes (db (serve demo_cfg later_requests logged_in)).
Proof.
  assert (H : unique_hashes (db logged_in)).
  { unfold unique_hashes. vm_compute. apply NoDup_singleton. }
  split; [exact H|].
  exact (digests_stay_unique demo_cfg later_requests logged_in H).
Defined.

(** X6. No run of requests, whatever the requests and the faults of the
    store, changes the [accounts] collection or the [pages] collection. *)
Theorem accounts_and_pages_are_never_written
    (cfg : Config) (reqs : list (Env * Request)) (w : World) :
  accounts (db (serve cfg reqs w)) = accounts (db w)
  /\ pages (db (serve cfg reqs w)) = pages (db w).
Proof.
  revert w. induction reqs as [|[env req] reqs IH]; intros w; [split; reflexivity|].
  simpl. destruct (IH (snd (handle cfg env req w))) as [Ha Hp].
  destruct (handle_keeps_accounts_pages cfg env req w) as [Ha' Hp'].
  split; congruence.
Qed.

(** X7. Every GET route leaves the whole database as it was, when the
    store answers and when it throws. *)
Theorem get_routes_are_read_only
    (cfg : Config) (env : Env) (req : Request) (w : World) :
  is_read req = true -> db (snd (handle cfg env req w)) = db w.
Proof.
  destruct w as [d n fs].
  destruct req; try discriminate; intros _; run_handler; handler_cases; reflexivity.
Qed.

Lemma get_routes_are_read_only_witness :
  is_read (GetCountry "be") = true
  /\ db (snd (handle demo_cfg demo_env (GetCountry "be")
                (with_faults [None; Some duplicate_key] atlas_world)))
     = db atlas_world.
Proof.
  split; [reflexivity|].
  exact (get_routes_are_read_only demo_cfg demo_env (GetCountry "be")
           (with_faults [None; Some duplicate_key] atlas_world) eq_refl).
Defined.

Section Gate.

(** A cookie that the middleware does not let through stops the route
    behind it: the answer is the middleware's, 401 or 500, and the
    database is as it was. *)
Lemma behind_admin_refused (cfg : Config) (env : Env) (raw : option string)
    (handler : AdminCtx -> M Response) (w : World) :
  (forall s, ~ authenticates cfg (db w) raw s) ->
  refused (fst (behind_admin cfg env raw handler w))
  /\ db (snd (behind_admin cfg env raw handler w)) = db w.
Proof.
  intros Hno.
  destruct (gate_cases cfg env raw w)
    as [[(resp & Hr & Hst) Hdb] | (s & Hraw & Hfind & _)].
  - unfold behind_admin, bind.
    destruct (requireAdminSession cfg env raw w) as [g w1]. simpl in Hr, Hdb. subst g.
    simpl. split; [exists resp; split; [reflexivity | exact Hst] | exact Hdb].
  - exfalso. apply (Hno s). split; assumption.
Qed.

End Gate.

(** X8. Without an active session under the digest of the cookie (no
    cookie, an unknown value, a revoked session), the logout, the
    creation and the update of an entity are answered 401 or 500 by the
    middleware, and the database is left as it was: only a request with
    an active session writes an entity. *)
Theorem writes_need_an_active_session
    (cfg : Config) (env : Env) (raw : option string)
    (list key : string) (req_body : option doc) (w : World) :
  (forall s, ~ authenticates cfg (db w) raw s) ->
  (refused (fst (post_admin_logout cfg env raw w))
   /\ db (snd (post_admin_logout cfg env raw w)) = db w)
  /\ (refused (fst (post_entity cfg env raw list key req_body w))
      /\ db (snd (post_entity cfg env raw list key req_body w)) = db w)
  /\ (refused (fst (put_entity cfg env raw list key req_body w))
      /\ db (snd (put_entity cfg env raw list key req_body w)) = db w).
Proof.
  intros Hno. unfold post_admin_logout, post_entity, put_entity.
  repeat split; now apply behind_admin_refused.
Qed.

Lemma writes_need_an_active_session_witness :
  (forall s, ~ authenticates demo_cfg (db logged_in) (Some "stolen"%string) s)
  /\ db (snd (put_entity demo_cfg later_env (Some "stolen"%string) "cities" "brussels"
                (Some hostile_body) logged_in))
     = db logged_in.
Proof.
  assert (H : forall s, ~ authenticates demo_cfg (db logged_in) (Some "stolen"%string) s).
  { intros s [_ Hfind]. vm_compute in Hfind. discriminate Hfind. }
  split; [exact H|].
  destruct (writes_need_an_active_session demo_cfg later_env (Some "stolen"%string)
              "cities" "brussels" (Some hostile_body) logged_in H) as (_ & _ & _ & Hput).
  exact Hput.
Defined.

(** X9. When the store answers, introspection and the middleware agree:
    [GET /admin/me] says [authenticated: true] for a cookie exactly when
    the middleware lets that cookie through. *)
Theorem introspection_agrees_with_the_middleware
    (cfg : Config) (env : Env) (raw : option string) (w : World) :
  store_up w ->
  (fst (get_admin_me cfg raw w) = Ok (json 200 (AuthenticatedBody true))
   <-> exists admin, fst (requireAdminSession cfg env raw w) = Ok (Next admin)).
Proof.
  unfold store_up. destruct w as [d n fs]. simpl. intros ->.
  run_handler. destruct (opt_truthy raw); simpl.
  - destruct (List.find _ (sessions d)) as [s|]; simpl.
    + split; [intros _; eexists; reflexivity | reflexivity].
    + split; [discriminate | intros [admin H]; discriminate H].
  - split; [discriminate | intros [admin H]; discriminate H].
Qed.

Lemma introspection_agrees_with_the_middleware_witness :
  store_up logged_in
  /\ exists admin,
       fst (requireAdminSession demo_cfg later_env (Some demo_token) logged_in)
       = Ok (Next admin).
Proof.
  assert (Hup : store_up logged_in) by (vm_compute; reflexivity).
  split; [exact Hup|].
  apply (proj1 (introspection_agrees_with_the_middleware demo_cfg later_env
                  (Some demo_token) logged_in Hup)).
  vm_compute. reflexivity.
Defined.

(** X10. A login with good credentials whose token has a digest that the
    store already holds inserts nothing: the unique index refuses the
    session, the answer is 500 [internal_error], and the database is as
    it was. *)
Theorem login_with_a_taken_digest
    (cfg : Config) (env : Env) (b : LoginBody) (w : World)
    (u p : string) (a : Account) :
  body_username b = Some u -> body_password b = Some p ->
  u <> EmptyString -> p <> EmptyString ->
  store_up w ->
  matches_account cfg (db w) u p a ->
  ~ fresh_token cfg env w ->
  (exists message,
      fst (post_admin_login cfg env b w)
      = Ok (json 500 (ErrorBody "internal_error" message)))
  /\ db (snd (post_admin_login cfg env b w)) = db w.
Proof.
  intros Eu Ep Hu Hp Hup (Hin & Hua & Hen & Huniq & Hver) Hstale.
  apply truthy_iff in Hu. apply truthy_iff in Hp.
  assert (Hfind : List.find (enabled_account u) (accounts (db w)) = Some a).
  { apply find_the_one; [exact Hin | |].
    - unfold enabled_account. rewrite Hua, String.eqb_refl, Hen. reflexivity.
    - intros x Hx Hpx. apply andb_prop in Hpx as [Hpx _].
      apply String.eqb_eq in Hpx. now apply Huniq. }
  apply as_string_some in Eu. apply as_string_some in Ep.
  unfold fresh_token in Hstale. apply not_false_is_true in Hstale.
  destruct w as [d n fs]. unfold store_up in Hup. simpl in *. subst fs.
  run_handler. rewrite Eu, Ep. cbv zeta. cbn [json_truthy value_truthy]. rewrite Hu, Hp.
  simpl.
  change (fun a : Account => String.eqb (username a) u && negb (disabled a))
    with (enabled_account u).
  rewrite Hfind, Hver. simpl. rewrite Hstale. simpl.
  split; [eexists; reflexivity | reflexivity].
Qed.

Lemma login_with_a_taken_digest_witness :
  ~ fresh_token demo_cfg demo_env logged_in
  /\ db (snd (post_admin_login demo_cfg demo_env (credentials "admin" "correct") logged_in))
     = db logged_in.
Proof.
  assert (H : ~ fresh_token demo_cfg demo_env logged_in).
  { unfold fresh_token. vm_compute. discriminate. }
  split; [exact H|].
  assert (Hup : store_up logged_in) by (vm_compute; reflexivity).
  refine (proj2 (login_with_a_taken_digest demo_cfg demo_env (credentials "admin" "correct")
                   logged_in "admin" "correct" admin_account
                   eq_refl eq_refl _ _ Hup _ H)).
  - discriminate.
  - discriminate.
  - repeat split; try reflexivity.
    + left; reflexivity.
    + simpl. intros a' [<- | [<- | [<- | []]]]; simpl; intros E;
        (reflexivity || discriminate E).
Defined.

(* ===================================================================== *)
(** ** Creating, reading and updating an entity *)
(* ===================================================================== *)

Section EntityRoundTrip.

Lemma gate_store_up (cfg : Config) (env : Env) (raw : option string) (w : World)
    (s : Session) :
  store_up w -> authenticates cfg (db w) raw s ->
  requireAdminSession cfg env raw w
  = (Ok (Next (mkAdmin (accountId s) (session_id s))), touched env s w).
Proof.
  unfold store_up. intros Hup [Hraw Hfind].
  destruct w as [d n fs]. simpl in Hup, Hfind. subst fs.
  run_handler. rewrite Hraw. simpl. rewrite Hfind. reflexivity.
Qed.

Lemma params_present (list key : string) :
  list <> EmptyString -> key <> EmptyString ->
  negb (Js.truthy list) || negb (Js.truthy key) = false.
Proof.
  intros Hl Hk. apply truthy_iff in Hl. apply truthy_iff in Hk.
  now rewrite Hl, Hk.
Qed.

Lemma stripMongoId_with_id (v : value) (d : doc) :
  stripMongoId (<["_id" := v]> d) = stripMongoId d.
Proof. unfold stripMongoId. apply delete_insert_eq. Qed.

Lemma same_list_key_canonical (list key : string) (d : doc) :
  canonical list key d -> same_list_key list key d = true.
Proof.
  intros [Hl Hk]. unfold same_list_key, field_eq.
  now rewrite Hl, Hk, !String.eqb_refl.
Qed.

Lemma find_after_none {A} (q : A -> bool) (l : list A) (x : A) :
  List.find q l = None -> q x = true -> List.find q (l ++ [x]) = Some x.
Proof.
  intros Hnone Hx. induction l as [|y l IH]; simpl in *; [now rewrite Hx|].
  destruct (q y); [discriminate | now apply IH].
Qed.

Lemma update_matching_find (q : doc -> bool) (set : doc) (l : list doc) :
  fst (update_matching q set l) = (fun d => set ∪ d) <$> List.find q l.
Proof.
  induction l as [|d l IH]; [reflexivity|].
  simpl. destruct (q d); [reflexivity|].
  destruct (update_matching q set l) as [res l']. exact IH.
Qed.

Lemma update_matching_none (q : doc -> bool) (set : doc) (l : list doc) :
  List.find q l = None -> snd (update_matching q set l) = l.
Proof.
  induction l as [|d l IH]; [reflexivity|].
  simpl. destruct (q d); [discriminate|].
  intros H. destruct (update_matching q set l) as [res l']. simpl in *.
  now rewrite IH.
Qed.

Lemma find_after_update (q : doc -> bool) (set : doc) (l : list doc) (d : doc) :
  List.find q l = Some d -> q (set ∪ d) = true ->
  List.find q (snd (update_matching q set l)) = Some (set ∪ d).
Proof.
  induction l as [|x l IH]; [discriminate|].
  simpl. destruct (q x) eqn:Ex.
  - intros [= ->] Hq. simpl. now rewrite Hq.
  - intros Hf Hq. destruct (update_matching q set l) as [res l']. simpl in *.
    rewrite Ex. now apply IH.
Qed.

Lemma same_list_key_after_set (env : Env) (list key : string) (req_body : option doc)
    (d : doc) :
  same_list_key list key (put_set env req_body ∪ d) = same_list_key list key d.
Proof.
  destruct (put_set_identifiers env req_body) as (_ & Hl & Hk).
  unfold same_list_key, field_eq. now rewrite !lookup_union_r by assumption.
Qed.

(** Two values that the index on [_id] takes for equal are the same
    value. *)
Lemma value_eqb_sound (a b : value) : value_eqb a b = true -> a = b.
Proof.
  revert b. revert a. fix IH 1.
  intros [|x|x|x|x|x|xs|fs] [|y|y|y|y|y|ys|gs]; simpl; try discriminate.
  - reflexivity.
  - intros H. f_equal. now apply Bool.eqb_prop.
  - intros H. f_equal. now apply Z.eqb_eq.
  - intros H. f_equal. now apply String.eqb_eq.
  - intros H. f_equal. now apply Z.eqb_eq.
  - intros H. f_equal. now apply N.eqb_eq.
  - intros H. f_equal. revert ys H. revert xs. fix go 1.
    intros [|x xs] [|y ys] H; try discriminate H; [reflexivity|].
    apply andb_prop in H as [Hx Hr]. f_equal; [exact (IH x y Hx) | exact (go xs ys Hr)].
  - intros H. f_equal. revert gs H. revert fs. fix go 1.
    intros [|[k x] fs] [|[k' y] gs] H; try discriminate H; [reflexivity|].
    apply andb_prop in H as [H Hr]. apply andb_prop in H as [Hk Hx].
    apply String.eqb_eq in Hk. subst k'.
    f_equal; [f_equal; exact (IH x y Hx) | exact (go fs gs Hr)].
Qed.

Lemma id_not_taken (v : value) (l : list doc) :
  (forall d, In d l -> d !! "_id" <> Some v) ->
  existsb (has_entity_id v) l = false.
Proof.
  intros H. induction l as [|d l IH]; [reflexivity|].
  simpl. rewrite IH by (intros x Hx; apply H; now right). rewrite orb_false_r.
  unfold has_entity_id. specialize (H d (or_introl eq_refl)).
  destruct (d !! "_id"%string) as [v'|]; [|reflexivity].
  destruct (value_eqb v' v) eqn:E; [|reflexivity].
  apply value_eqb_sound in E. congruence.
Qed.

(** What the store files a payload under is the [_id] of the document
    that it stores. *)
Lemma filed_id_of (w : World) (payload : doc) :
  id_of (if needs_id payload then <["_id" := VOid (next_oid w)]> payload else payload)
  = filed_id w payload.
Proof.
  unfold id_of, needs_id, filed_id.
  destruct (payload !! "_id"%string) as [[]|] eqn:E; simpl;
    rewrite ?lookup_insert_eq, ?E; reflexivity.
Qed.

Lemma is_array_false (v : value) : (forall xs, v <> VArr xs) -> is_array v = false.
Proof. destruct v; try reflexivity. intros H. now destruct (H xs). Qed.

End EntityRoundTrip.

(** X11. With an active session and the store answering, POST on a path
    that holds no entity, with a body of plain field names (which the
    store takes as they are) whose [_id], when it has one, is no array
    and is the [_id] of no stored entity (see [post_with_a_stored_id]),
    answers 201 with the payload without its [_id]: the list and the key
    of the path and [updatedAt] as of now, whatever the body says of
    them; and GET on the same path afterwards answers 200 with the same
    document. *)
Theorem post_then_get
    (cfg : Config) (env : Env) (raw : option string) (s : Session)
    (list key : string) (req_body : option doc) (w : World) :
  store_up w -> authenticates cfg (db w) raw s ->
  list <> EmptyString -> key <> EmptyString ->
  List.find (same_list_key list key) (entities (db w)) = None ->
  plain_body req_body ->
  id_free w (post_payload env list key req_body) ->
  let created := stripMongoId (post_payload env list key req_body) in
  let posted := post_entity cfg env raw list key req_body w in
  fst posted = Ok (json 201 (DocBody created))
  /\ fst (get_entity list key (snd posted)) = Ok (json 200 (DocBody created))
  /\ created !! "list" = Some (VStr list)
  /\ created !! "key" = Some (VStr key)
  /\ created !! "updatedAt" = Some (VDate (now env))
  /\ created !! "_id" = None.
Proof.
  intros Hup Hauth Hl Hk Hnone _ [Harr Hfree] created posted. subst created posted.
  pose proof (post_payload_canonical env list key req_body) as Hcan.
  pose proof (filed_id_of w (post_payload env list key req_body)) as Hid.
  unfold post_entity, behind_admin, bind.
  rewrite (gate_store_up cfg env raw w s Hup Hauth).
  unfold post_entity_handler, get_entity. rewrite (params_present list key Hl Hk).
  unfold_store. unfold_monad. simpl. rewrite Hnone. simpl.
  destruct (needs_id (post_payload env list key req_body)); simpl;
    rewrite Hid, (is_array_false _ Harr); simpl;
    rewrite (id_not_taken _ _ Hfree); simpl.
  - rewrite (find_after_none _ _ _ Hnone
               (same_list_key_canonical _ _ _ (canonical_with_id _ _ _ _ Hcan))).
    simpl. rewrite stripMongoId_with_id.
    split; [reflexivity|]. split; [reflexivity|].
    destruct Hcan as [Hcl Hck]. unfold stripMongoId.
    rewrite !lookup_delete_ne by discriminate. rewrite lookup_delete_eq.
    repeat split; try assumption.
    unfold post_payload.
    destruct (_ !! "createdAt"%string) as [v|]; [destruct (value_truthy v)|];
      simplify_map_eq; reflexivity.
  - rewrite (find_after_none _ _ _ Hnone (same_list_key_canonical _ _ _ Hcan)).
    split; [reflexivity|]. split; [reflexivity|].
    destruct Hcan as [Hcl Hck]. unfold stripMongoId.
    rewrite !lookup_delete_ne by discriminate. rewrite lookup_delete_eq.
    repeat split; try assumption.
    unfold post_payload.
    destruct (_ !! "createdAt"%string) as [v|]; [destruct (value_truthy v)|];
      simplify_map_eq; reflexivity.
Qed.

Lemma post_then_get_witness :
  (exists s, authenticates demo_cfg (db logged_in) (Some demo_token) s)
  /\ plain_body (Some hostile_body)
  /\ id_free logged_in (post_payload later_env "cities" "brussels" (Some hostile_body))
  /\ fst (get_entity "cities" "brussels" stocked)
     = Ok (json 200 (DocBody (stripMongoId
             (post_payload later_env "cities" "brussels" (Some hostile_body))))).
Proof.
  assert (Ha : exists s, authenticates demo_cfg (db logged_in) (Some demo_token) s).
  { eexists. split; vm_compute; reflexivity. }
  assert (Hplain : plain_body (Some hostile_body)).
  { unfold plain_body, hostile_body. simpl.
    repeat (apply map_Forall_insert_2; [split; reflexivity|]).
    apply map_Forall_empty. }
  assert (Hfree : id_free logged_in
                    (post_payload later_env "cities" "brussels" (Some hostile_body))).
  { split; [intros xs; vm_compute; discriminate | intros d []]. }
  split; [exact Ha|]. split; [exact Hplain|]. split; [exact Hfree|].
  destruct Ha as [s Ha].
  assert (Hup : store_up logged_in) by (vm_compute; reflexivity).
  assert (Hnone : List.find (same_list_key "cities" "brussels") (entities (db logged_in))
                  = None) by (vm_compute; reflexivity).
  destruct (post_then_get demo_cfg later_env (Some demo_token) s "cities" "brussels"
              (Some hostile_body) logged_in Hup Ha)
    as (_ & Hget & _);
    [discriminate | discriminate | exact Hnone | exact Hplain | exact Hfree |].
  exact Hget.
Defined.

(** The [_id] of a stored entity is taken: a POST on another path with
    that [_id] in its body is answered 409, and nothing is stored. *)
Example post_with_a_stored_id :
  fst (post_entity demo_cfg later_env (Some demo_token) "cities" "paris"
         (Some forged_again) stocked)
  = Ok (json 409 (ErrorBody "conflict" "Entity already exists"))
  /\ entities (db (snd (post_entity demo_cfg later_env (Some demo_token) "cities" "paris"
                          (Some forged_again) stocked)))
     = entities (db stocked).
Proof. split; vm_compute; reflexivity. Qed.

(** X12. With an active session and the store answering, POST on a path
    that holds an entity answers 409 [conflict] and leaves the collection
    as it was, whatever the body: POST never replaces an entity. *)
Theorem post_never_replaces
    (cfg : Config) (env : Env) (raw : option string) (s : Session)
    (list key : string) (req_body : option doc) (w : World) (d : doc) :
  store_up w -> authenticates cfg (db w) raw s ->
  list <> EmptyString -> key <> EmptyString ->
  List.find (same_list_key list key) (entities (db w)) = Some d ->
  fst (post_entity cfg env raw list key req_body w)
  = Ok (json 409 (ErrorBody "conflict" "Entity already exists"))
  /\ entities (db (snd (post_entity cfg env raw list key req_body w))) = entities (db w).
Proof.
  intros Hup Hauth Hl Hk Hsome.
  unfold post_entity, behind_admin, bind.
  rewrite (gate_store_up cfg env raw w s Hup Hauth).
  unfold post_entity_handler. rewrite (params_present list key Hl Hk).
  unfold_store. unfold_monad. simpl. rewrite Hsome. split; reflexivity.
Qed.

Lemma post_never_replaces_witness :
  (exists s, authenticates demo_cfg (db stocked) (Some demo_token) s)
  /\ (exists d, List.find (same_list_key "cities" "brussels") (entities (db stocked)) = Some d)
  /\ entities (db (snd (post_entity demo_cfg later_env (Some demo_token)
                          "cities" "brussels" (Some brussels_patch) stocked)))
     = entities (db stocked).
Proof.
  assert (Ha : exists s, authenticates demo_cfg (db stocked) (Some demo_token) s).
  { eexists. split; vm_compute; reflexivity. }
  assert (Hd : exists d, List.find (same_list_key "cities" "brussels")
                           (entities (db stocked)) = Some d).
  { eexists. vm_compute. reflexivity. }
  split; [exact Ha|]. split; [exact Hd|].
  destruct Ha as [s Ha]. destruct Hd as [d Hd].
  assert (Hup : store_up stocked) by (vm_compute; reflexivity).
  refine (proj2 (post_never_replaces demo_cfg later_env (Some demo_token) s
                   "cities" "brussels" (Some brussels_patch) stocked d
                   Hup Ha _ _ Hd)); discriminate.
Defined.



(** X14. With an active session and the store answering (through a
    driver of version 4 or 5, whose [findOneAndUpdate] answers
    [{ value }]), PUT on a path that holds the entity [d], with a body
    of plain field names (no dot, no dollar sign in front, at any depth:
    the names that [$set] takes for fields and not for paths),
    answers 200 with the updated entity: its [list] and [key] are those
    of [d] and it shows no [_id], its [updatedAt] is now, and every other
    field has the value of the body when the body has the field and the
    value it had in [d] otherwise; GET on the same path afterwards
    answers 200 with the same document. *)
Theorem put_then_get
    (cfg : Config) (env : Env) (raw : option string) (s : Session)
    (list key : string) (req_body : option doc) (w : World) (d : doc) :
  store_up w -> authenticates cfg (db w) raw s ->
  list <> EmptyString -> key <> EmptyString ->
  List.find (same_list_key list key) (entities (db w)) = Some d ->
  plain_body req_body ->
  let updated := put_entity cfg env raw list key req_body w in
  exists b,
    fst updated = Ok (json 200 (DocBody b))
    /\ fst (get_entity list key (snd updated)) = Ok (json 200 (DocBody b))
    /\ b !! "_id" = None
    /\ b !! "list" = d !! "list"
    /\ b !! "key" = d !! "key"
    /\ b !! "updatedAt" = Some (VDate (now env))
    /\ forall f, f <> "_id"%string -> f <> "list"%string -> f <> "key"%string ->
                 f <> "updatedAt"%string ->
                 b !! f = patched req_body d f.
Proof.
  intros Hup Hauth Hl Hk Hsome _ updated. subst updated.
  destruct (put_set_identifiers env req_body) as (Hsi & Hsl & Hsk).
  exists (stripMongoId (put_set env req_body ∪ d)).
  unfold put_entity, behind_admin, bind.
  rewrite (gate_store_up cfg env raw w s Hup Hauth).
  unfold put_entity_handler, get_entity. rewrite (params_present list key Hl Hk).
  unfold_store. unfold_monad. simpl.
  rewrite update_matching_find, Hsome. simpl.
  split; [reflexivity|]. split.
  { rewrite (find_after_update _ _ _ d Hsome); [reflexivity|].
    rewrite same_list_key_after_set.
    now destruct (find_some _ _ Hsome). }
  unfold stripMongoId.
  split; [apply lookup_delete_eq|].
  rewrite !lookup_delete_ne by discriminate.
  split; [now apply lookup_union_r|]. split; [now apply lookup_union_r|].
  split.
  { apply lookup_union_Some_l. unfold put_set. apply lookup_insert_eq. }
  intros f Hfi Hfl Hfk Hfu.
  rewrite lookup_delete_ne by congruence.
  assert (Hset : put_set env req_body !! f = default ∅ req_body !! f).
  { unfold put_set, put_patch.
    rewrite lookup_insert_ne by congruence.
    now rewrite !lookup_delete_ne by congruence. }
  unfold patched. rewrite <- Hset.
  destruct (put_set env req_body !! f) as [v|] eqn:E.
  - now apply lookup_union_Some_l.
  - now apply lookup_union_r.
Qed.

Lemma put_then_get_witness :
  (exists s, authenticates demo_cfg (db stocked) (Some demo_token) s)
  /\ plain_body (Some brussels_patch)
  /\ exists d b,
       List.find (same_list_key "cities" "brussels") (entities (db stocked)) = Some d
       /\ fst (put_entity demo_cfg later_env (Some demo_token) "cities" "brussels"
                 (Some brussels_patch) stocked) = Ok (json 200 (DocBody b))
       /\ b !! "key" = d !! "key"
       /\ b !! "name" = Some (VStr "Bruxelles").
Proof.
  assert (Ha : exists s, authenticates demo_cfg (db stocked) (Some demo_token) s).
  { eexists. split; vm_compute; reflexivity. }
  assert (Hd : exists d, List.find (same_list_key "cities" "brussels")
                           (entities (db stocked)) = Some d).
  { eexists. vm_compute. reflexivity. }
  assert (Hplain : plain_body (Some brussels_patch)).
  { unfold plain_body, brussels_patch. simpl.
    repeat (apply map_Forall_insert_2; [split; reflexivity|]).
    apply map_Forall_empty. }
  split; [exact Ha|]. split; [exact Hplain|].
  destruct Ha as [s Ha]. destruct Hd as [d Hd].
  assert (Hup : store_up stocked) by (vm_compute; reflexivity).
  destruct (put_then_get demo_cfg later_env (Some demo_token) s "cities" "brussels"
              (Some brussels_patch) stocked d Hup Ha)
    as (b & Hput & _ & _ & _ & Hkey & _ & Hrest);
    [discriminate | discriminate | exact Hd | exact Hplain |].
  exists d, b. split; [exact Hd|]. split; [exact Hput|]. split; [exact Hkey|].
  rewrite Hrest by discriminate. reflexivity.
Defined.

(* ===================================================================== *)
(** ** Complete listings *)
(* ===================================================================== *)

Section Complete.

Lemma insert_sorted_perm (spec : list string) (x : doc) (l : list doc) :
  insert_sorted spec x l ≡ₚ x :: l.
Proof.
  induction l as [|y l IH]; simpl; [reflexivity|].
  destruct (doc_leb spec x y); [reflexivity|].
  rewrite IH. apply Permutation_swap.
Qed.

Lemma sort_docs_perm (spec : list string) (l : list doc) : sort_docs spec l ≡ₚ l.
Proof.
  induction l as [|x l IH]; simpl; [reflexivity|].
  now rewrite insert_sorted_perm, IH.
Qed.

Lemma findIndex_some {A} (p : A -> bool) (l : list A) (i : nat) :
  findIndex p l = Some i ->
  exists x, l !! i = Some x /\ p x = true
            /\ forall j y, (j < i)%nat -> l !! j = Some y -> p y = false.
Proof.
  revert i. induction l as [|y l IH]; intros i; simpl; [discriminate|].
  destruct (p y) eqn:Ey.
  - intros [= <-]. exists y. repeat split; [exact Ey | intros j z Hj; lia].
  - destruct (findIndex p l) as [k|]; [|discriminate].
    simpl. intros [= <-]. destruct (IH k eq_refl) as (x & Hx & Hp & Hbefore).
    exists x. repeat split; [exact Hx | exact Hp |].
    intros [|j] z Hj Hz; simpl in Hz; [now injection Hz as <- | apply (Hbefore j); [lia | exact Hz]].
Qed.

Lemma findIndex_none {A} (p : A -> bool) (l : list A) :
  findIndex p l = None -> forall x, In x l -> p x = false.
Proof.
  induction l as [|y l IH]; simpl; [intros _ x []|].
  destruct (p y) eqn:Ey; [discriminate|].
  destruct (findIndex p l); [discriminate|].
  intros _ x [<- | Hx]; [exact Ey | now apply IH].
Qed.

Lemma filed_under_test (tag : string) (e : doc) :
  match e !! "list" with Some v => is_string tag v | None => false end = true
  <-> filed_under tag e.
Proof.
  unfold filed_under. destruct (e !! "list"%string) as [[| | |t| | | |]|]; simpl;
    try (split; [discriminate | intros [=]]).
  rewrite String.eqb_eq. split; [now intros -> | now intros [= ->]].
Qed.

Lemma hoist_perm (tag : string) (all : list doc) :
  with_hoisted (fst (hoist tag all)) (snd (hoist tag all)) ≡ₚ all.
Proof.
  unfold hoist.
  destruct (findIndex _ all) as [i|] eqn:Ei; simpl; [|reflexivity].
  destruct (findIndex_some _ _ _ Ei) as (x & Hx & _).
  rewrite Hx. simpl. symmetry. now apply delete_Permutation.
Qed.

End Complete.

(** X15. Hoisting loses and invents nothing.  The hoisted entity,
    when there is one, is the first entity of the listing filed under the
    tag, and the others follow in their order; when there is none, no
    entity of the listing is filed under the tag and the listing is left
    as it is. *)
Theorem hoist_takes_the_first_filed_under (tag : string) (all : list doc) :
  match hoist tag all with
  | (Some e, rest) =>
      exists i, all !! i = Some e /\ filed_under tag e /\ rest = delete i all
                /\ (forall j y, (j < i)%nat -> all !! j = Some y -> ~ filed_under tag y)
                /\ all ≡ₚ e :: rest
  | (None, rest) =>
      rest = all /\ forall y, In y all -> ~ filed_under tag y
  end.
Proof.
  unfold hoist.
  destruct (findIndex _ all) as [i|] eqn:Ei.
  - destruct (findIndex_some _ _ _ Ei) as (x & Hx & Hp & Hbefore).
    rewrite Hx. exists i.
    split; [exact Hx|]. split; [now apply filed_under_test|].
    split; [reflexivity|]. split; [|now apply delete_Permutation].
    intros j y Hj Hy Hfiled. apply filed_under_test in Hfiled.
    rewrite (Hbefore j y Hj Hy) in Hfiled. discriminate.
  - split; [reflexivity|].
    intros y Hy Hfiled. apply filed_under_test in Hfiled.
    rewrite (findIndex_none _ _ Ei y Hy) in Hfiled. discriminate.
Qed.

Section CompleteListings.

Lemma listing_perm (q : doc -> bool) (spec : list string) (coll : list doc) :
  map stripMongoId (sort_docs spec (List.filter q coll))
  ≡ₚ map stripMongoId (List.filter q coll).
Proof. apply Permutation_map, sort_docs_perm. Qed.

Lemma hoisted_listing_perm (tag : string) (q : doc -> bool) (coll : list doc) :
  with_hoisted
    (fst (hoist tag (map stripMongoId (sort_docs name_then_key (List.filter q coll)))))
    (snd (hoist tag (map stripMongoId (sort_docs name_then_key (List.filter q coll)))))
  ≡ₚ map stripMongoId (List.filter q coll).
Proof. rewrite hoist_perm. apply listing_perm. Qed.

Lemma filter_true {A} (l : list A) : List.filter (fun _ => true) l = l.
Proof. induction l as [|x l IH]; simpl; [reflexivity | now rewrite IH]. Qed.

End CompleteListings.

Ltac complete_listing :=
  crunch; simpl;
  try match goal with
      | |- context [hoist ?t (map stripMongoId
                                (sort_docs name_then_key (List.filter ?q ?c)))] =>
          let H := fresh "Hperm" in
          pose proof (hoisted_listing_perm t q c) as H;
          destruct (hoist t (map stripMongoId
                               (sort_docs name_then_key (List.filter q c))));
          simpl in H
      end;
  simpl; intros Hresp; try discriminate Hresp;
  injection Hresp; intros; subst;
  first [assumption | apply listing_perm].

(** X16. A listing holds every matching document once, without [_id]:
    [GET /pages] lists all pages, [GET /pages/:id] the entities of the
    list [id], [GET /countries/:code] and [GET /cities/:key] the entities
    of the country (its code in upper case) and of the city (its display
    name), the hoisted entity counted with the others. *)
Theorem listings_are_complete (cfg : Config) (w : World) :
  (forall ps, fst (get_pages w) = Ok (json 200 (PagesBody ps)) ->
              ps ≡ₚ map stripMongoId (pages (db w)))
  /\ (forall id info ents,
        fst (get_page id w) = Ok (json 200 (PageBody info ents)) ->
        ents ≡ₚ map stripMongoId (List.filter (field_eq "list" id) (entities (db w))))
  /\ (forall code country ents,
        fst (get_country cfg code w) = Ok (json 200 (CountryBody country ents)) ->
        with_hoisted country ents
        ≡ₚ map stripMongoId
             (List.filter (of_country (Js.toUpperCase (case_tables cfg) code))
                          (entities (db w))))
  /\ (forall key city ents,
        fst (get_city cfg key w) = Ok (json 200 (CityBody city ents)) ->
        with_hoisted city ents
        ≡ₚ map stripMongoId
             (List.filter (field_eq "city" (cityKeyToDisplayName (case_tables cfg) key))
                          (entities (db w)))).
Proof.
  destruct w as [d n fs].
  split; [|split; [|split]].
  - intros ps. rewrite <- (filter_true (pages (db _))). run_handler. complete_listing.
  - intros id info ents. run_handler. complete_listing.
  - intros code country ents. unfold of_country. run_handler. complete_listing.
  - intros key city ents. run_handler. complete_listing.
Qed.

Lemma listings_are_complete_witness :
  fst (get_page "capitals" atlas_world)
  = Ok (json 200 (PageBody {[ "key" := VStr "capitals"; "name" := VStr "Capitals" ]}
                    [ entity "capitals" "Amsterdam" "amsterdam";
                      entity "capitals" "Brussels" "brussels-1";
                      entity "capitals" "Brussels" "brussels-2" ]))
  /\ [ entity "capitals" "Amsterdam" "amsterdam";
       entity "capitals" "Brussels" "brussels-1";
       entity "capitals" "Brussels" "brussels-2" ]
     ≡ₚ map stripMongoId
          (List.filter (field_eq "list" "capitals") (entities (db atlas_world))).
Proof.
  assert (H : fst (get_page "capitals" atlas_world)
              = Ok (json 200 (PageBody {[ "key" := VStr "capitals"; "name" := VStr "Capitals" ]}
                    [ entity "capitals" "Amsterdam" "amsterdam";
                      entity "capitals" "Brussels" "brussels-1";
                      entity "capitals" "Brussels" "brussels-2" ]))).
  { vm_compute. reflexivity. }
  split; [exact H|].
  destruct (listings_are_complete demo_cfg atlas_world) as (_ & Hpage & _).
  exact (Hpage _ _ _ H).
Defined.

(** X17. In the first revision of the server, [GET /pages/:id] lists the
    entities of the list [id], each once and without [_id], sorted by
    name in the order of the store: a missing name and null first, then
    numbers, texts, documents and the other kinds, and a name that is an
    array at the place of its least element, the empty array before all
    (see [sort_takes_least_of_array]). *)
Theorem serverjs_page_listing_sorted_by_name
    (id : string) (w : World) (info : doc) (ents : list doc) :
  fst (ServerJs.get_page id w) = Ok (json 200 (PageBody info ents)) ->
  listed_in_order name_le ents
  /\ ents ≡ₚ map stripMongoId (List.filter (field_eq "list" id) (entities (db w))).
Proof.
  assert (Hsorted : forall l : list doc,
             listed_in_order name_le (map stripMongoId (sort_docs ["name"%string] l))).
  { intros l. apply in_order_map.
    - unfold name_le, stripMongoId. intros d1 d2.
      now rewrite !lookup_delete_ne by discriminate.
    - intros i j d1 d2 Hij H1 H2.
      pose proof (sort_docs_in_order ["name"%string] l i j d1 d2 Hij H1 H2) as H.
      unfold name_le. simpl in H.
      destruct (field_leb (d1 !! "name"%string) (d2 !! "name"%string));
        [reflexivity | discriminate H]. }
  destruct w as [d n fs]. run_handler. crunch; simpl;
    intros Hresp; try discriminate Hresp; injection Hresp; intros; subst;
    (split; [apply Hsorted | apply listing_perm]).
Qed.

Lemma serverjs_page_listing_sorted_by_name_witness :
  exists info ents,
    fst (ServerJs.get_page "capitals" atlas_world) = Ok (json 200 (PageBody info ents))
    /\ listed_in_order name_le ents.
Proof.
  eexists _, _.
  assert (H : fst (ServerJs.get_page "capitals" atlas_world)
              = Ok (json 200 (PageBody {[ "key" := VStr "capitals"; "name" := VStr "Capitals" ]}
                    [ entity "capitals" "Amsterdam" "amsterdam";
                      entity "capitals" "Brussels" "brussels-2";
                      entity "capitals" "Brussels" "brussels-1" ]))).
  { vm_compute. reflexivity. }
  split; [exact H|].
  exact (proj1 (serverjs_page_listing_sorted_by_name _ _ _ _ H)).
Defined.

(** An entity whose name is an array is sorted on the least of its
    elements: with the names [B], [Z, A] and [a], the entity of the two
    names comes first, for its [A]. *)
Example sort_takes_least_of_array :
  sort_docs ["name"%string]
    [ named (VStr "B") "1"; named (VArr [VStr "Z"; VStr "A"]) "2"; named (VStr "a") "3" ]
  = [ named (VArr [VStr "Z"; VStr "A"]) "2"; named (VStr "B") "1"; named (VStr "a") "3" ].
Proof. vm_compute. reflexivity. Qed.

(* ===================================================================== *)
(** ** City keys and country codes, whatever their case *)
(* ===================================================================== *)

Section NamesNotEmpty.

Local Open Scope string_scope.

Variable t : Js.CaseTables.
Hypothesis t_keeps : keeps_text t.

Lemma append_empty (a b : string) : a ++ b = "" -> a = "" /\ b = "".
Proof. destruct a; [now split | discriminate]. Qed.

Lemma title_case_empty (w : string) : title_case t w = "" -> w = "".
Proof.
  intros H. destruct (String.eqb_spec w "") as [E|Hw]; [exact E|]. exfalso.
  destruct (t_keeps w Hw) as [Hlow _]. unfold title_case in H.
  destruct (Js.toLowerCase t w) as [|c r]; [contradiction|].
  cbn [list_ascii_of_string] in H.
  destruct (starts_four c); [discriminate H|].
  apply append_empty in H as [H _].
  now apply (t_keeps (String c _)) in H.
Qed.

Lemma concat_empty (sep x : string) (xs : list string) :
  String.concat sep (x :: xs) = "" -> x = "".
Proof.
  destruct xs as [|y ys]; [trivial|].
  change (String.concat sep (x :: y :: ys)) with (x ++ sep ++ String.concat sep (y :: ys)).
  intros H. now apply append_empty in H.
Qed.

Lemma display_name_empty (ts : list string) :
  (forall x, In x ts -> x <> "") -> display_name t ts = "" -> ts = [].
Proof.
  intros Hne. unfold display_name.
  destruct (rev ts) as [|last others] eqn:Erev.
  - intros _. apply (f_equal (@rev string)) in Erev. now rewrite rev_involutive in Erev.
  - destruct (_ && _).
    + intros H. apply append_empty in H as [_ H]. discriminate H.
    + destruct ts as [|x ts]; [reflexivity|].
      intros H. cbn [map] in H. apply concat_empty, title_case_empty in H.
      exfalso. apply (Hne x); [now left | exact H].
Qed.

End NamesNotEmpty.

Section KeyCase.

Local Open Scope string_scope.

(** A conversion of characters that leaves the dash and the place of
    every byte in its character alone, and that the tables of the engine
    do not see. *)
Variable t : Js.CaseTables.
Variable f : ascii -> ascii.
Hypothesis f_dash : forall c, Ascii.eqb (f c) "-" = Ascii.eqb c "-".
Hypothesis f_units : forall c, Js.units_of (f c) = Js.units_of c.
Hypothesis f_lower : forall s, Js.toLowerCase t (Js.map_chars f s) = Js.toLowerCase t s.
Hypothesis f_upper : forall s, Js.toUpperCase t (Js.map_chars f s) = Js.toUpperCase t s.

Lemma split_map_chars (s : string) :
  Js.split "-" (Js.map_chars f s) = map (Js.map_chars f) (Js.split "-" s).
Proof.
  induction s as [|c r IH]; [reflexivity|].
  simpl. rewrite f_dash, IH.
  destruct (Ascii.eqb c "-"); [reflexivity|].
  destruct (Js.split "-" r); reflexivity.
Qed.

Lemma truthy_map_chars (s : string) : Js.truthy (Js.map_chars f s) = Js.truthy s.
Proof. destruct s; reflexivity. Qed.

Lemma length_map_chars (s : string) : Js.length (Js.map_chars f s) = Js.length s.
Proof.
  induction s as [|c r IH]; [reflexivity|].
  cbn [Js.map_chars Js.length]. now rewrite f_units, IH.
Qed.

Lemma filter_map_chars (l : list string) :
  List.filter Js.truthy (map (Js.map_chars f) l)
  = map (Js.map_chars f) (List.filter Js.truthy l).
Proof.
  induction l as [|x l IH]; [reflexivity|].
  cbn [map List.filter]. rewrite truthy_map_chars, IH.
  destruct (Js.truthy x); reflexivity.
Qed.

Lemma last_map_chars (l : list string) :
  List.last (map (Js.map_chars f) l) "" = Js.map_chars f (List.last l "").
Proof.
  induction l as [|x [|y l] IH]; [reflexivity | reflexivity |].
  exact IH.
Qed.

Lemma removelast_map_chars (l : list string) :
  removelast (map (Js.map_chars f) l) = map (Js.map_chars f) (removelast l).
Proof.
  induction l as [|x [|y l] IH]; [reflexivity | reflexivity |].
  change (Js.map_chars f x :: removelast (map (Js.map_chars f) (y :: l))
          = Js.map_chars f x :: map (Js.map_chars f) (removelast (y :: l))).
  now rewrite IH.
Qed.

Lemma title_map_chars (s : string) :
  toTitleCaseWord t (Js.map_chars f s) = toTitleCaseWord t s.
Proof.
  destruct s as [|c r]; [reflexivity|].
  unfold toTitleCaseWord. now rewrite truthy_map_chars, f_lower.
Qed.

Lemma cityKeyToDisplayName_map_chars (key : string) :
  cityKeyToDisplayName t (Js.map_chars f key) = cityKeyToDisplayName t key.
Proof.
  unfold cityKeyToDisplayName.
  rewrite split_map_chars, filter_map_chars.
  rewrite last_map_chars, removelast_map_chars.
  rewrite !length_map, length_map_chars, f_upper.
  rewrite !map_map.
  rewrite (map_ext _ _ title_map_chars (List.filter Js.truthy (Js.split "-" key))).
  rewrite (map_ext _ _ title_map_chars (removelast _)).
  reflexivity.
Qed.

End KeyCase.

Section CaseMaps.

Lemma upper_of_lower (c : ascii) : Js.upper_char (Js.lower_char c) = Js.upper_char c.
Proof. destruct c as [[] [] [] [] [] [] [] []]; reflexivity. Qed.

Lemma lower_of_upper (c : ascii) : Js.lower_char (Js.upper_char c) = Js.lower_char c.
Proof. destruct c as [[] [] [] [] [] [] [] []]; reflexivity. Qed.

Lemma lower_of_lower (c : ascii) : Js.lower_char (Js.lower_char c) = Js.lower_char c.
Proof. destruct c as [[] [] [] [] [] [] [] []]; reflexivity. Qed.

Lemma upper_of_upper (c : ascii) : Js.upper_char (Js.upper_char c) = Js.upper_char c.
Proof. destruct c as [[] [] [] [] [] [] [] []]; reflexivity. Qed.

Lemma lower_keeps_dash (c : ascii) :
  Ascii.eqb (Js.lower_char c) "-" = Ascii.eqb c "-".
Proof. destruct c as [[] [] [] [] [] [] [] []]; reflexivity. Qed.

Lemma upper_keeps_dash (c : ascii) :
  Ascii.eqb (Js.upper_char c) "-" = Ascii.eqb c "-".
Proof. destruct c as [[] [] [] [] [] [] [] []]; reflexivity. Qed.

Lemma lower_keeps_units (c : ascii) : Js.units_of (Js.lower_char c) = Js.units_of c.
Proof. destruct c as [[] [] [] [] [] [] [] []]; reflexivity. Qed.

Lemma upper_keeps_units (c : ascii) : Js.units_of (Js.upper_char c) = Js.units_of c.
Proof. destruct c as [[] [] [] [] [] [] [] []]; reflexivity. Qed.

Lemma map_chars_compose (f g : ascii -> ascii) (s : string) :
  (forall c, f (g c) = f c) -> Js.map_chars f (Js.map_chars g s) = Js.map_chars f s.
Proof.
  intros H. induction s as [|c r IH]; [reflexivity|].
  cbn [Js.map_chars]. now rewrite H, IH.
Qed.

(** The conversions of the ASCII letters, taken for the tables of the
    engine, keep a text from becoming empty and do not tell the case of
    ASCII letters apart. *)
Lemma ascii_tables_keep_text : keeps_text Js.ascii_tables.
Proof. intros [|c r] H; [contradiction|]. split; discriminate. Qed.

Lemma ascii_tables_fold_case : folds_ascii_case Js.ascii_tables.
Proof.
  intros s. unfold Js.ascii_tables, Js.ascii_lower, Js.ascii_upper. cbn.
  repeat split; apply map_chars_compose;
    first [exact lower_of_lower | exact lower_of_upper
          | exact upper_of_lower | exact upper_of_upper].
Qed.

End CaseMaps.

(** X18. [GET /cities/:key] answers 400 for the keys without tokens and
    for no other: a key with a token has a display name that is not
    empty (the tables of the engine turn no text into the empty text),
    the store is queried, and the answer is 200, or 500 when the store
    throws. *)
Theorem city_key_with_a_token_is_looked_up (cfg : Config) (key : string) (w : World) :
  keeps_text (case_tables cfg) ->
  tokens key <> [] ->
  cityKeyToDisplayName (case_tables cfg) key <> EmptyString
  /\ (exists resp, fst (get_city cfg key w) = Ok resp
                   /\ (status resp = 200 \/ status resp = 500))
  /\ (store_up w ->
      exists city ents, fst (get_city cfg key w) = Ok (json 200 (CityBody city ents))).
Proof.
  intros Hkeeps Htokens.
  assert (Hname : cityKeyToDisplayName (case_tables cfg) key <> EmptyString).
  { rewrite cityKeyToDisplayName_tokens. intros H.
    apply (display_name_empty _ Hkeeps) in H; [contradiction|].
    apply tokens_nonempty. }
  split; [exact Hname|].
  unfold get_city.
  destruct (cityKeyToDisplayName (case_tables cfg) key) as [|c r] eqn:E; [contradiction|].
  cbn [Js.truthy negb]. cbv iota.
  destruct w as [d n fs].
  split.
  - run_handler. crunch; simpl;
      repeat match goal with
             | |- context [hoist ?t ?l] => destruct (hoist t l)
             end;
      eexists; (split; [reflexivity|]); simpl; auto.
  - unfold store_up. simpl. intros ->. run_handler. simpl.
    match goal with
    | |- context [hoist ?t ?l] => destruct (hoist t l) as [city ents]
    end.
    now exists city, ents.
Qed.

Lemma city_key_with_a_token_is_looked_up_witness :
  keeps_text (case_tables demo_cfg)
  /\ tokens "new-york-ny" <> []
  /\ cityKeyToDisplayName (case_tables demo_cfg) "new-york-ny" <> EmptyString
  /\ exists city ents,
       fst (get_city demo_cfg "new-york-ny" atlas_world)
       = Ok (json 200 (CityBody city ents)).
Proof.
  assert (Hkeeps : keeps_text (case_tables demo_cfg)) by exact ascii_tables_keep_text.
  assert (Htokens : tokens "new-york-ny" <> []) by (vm_compute; discriminate).
  destruct (city_key_with_a_token_is_looked_up demo_cfg "new-york-ny" atlas_world
              Hkeeps Htokens)
    as (Hname & _ & Hup).
  split; [exact Hkeeps|]. split; [exact Htokens|]. split; [exact Hname|].
  apply Hup. reflexivity.
Defined.

(** X19. The case of the ASCII letters of a city key and of a country
    code does not count, with tables of the engine that do not tell it
    apart: the display name of a key is that of the key with its ASCII
    letters in lower case and in upper case, and [GET /cities/:key] and
    [GET /countries/:code] answer the same for a key or a code and for
    it in lower case or in upper case. *)
Theorem keys_and_codes_ignore_case (cfg : Config) (s : string) :
  folds_ascii_case (case_tables cfg) ->
  cityKeyToDisplayName (case_tables cfg) (Js.ascii_lower s)
  = cityKeyToDisplayName (case_tables cfg) s
  /\ cityKeyToDisplayName (case_tables cfg) (Js.ascii_upper s)
     = cityKeyToDisplayName (case_tables cfg) s
  /\ (forall w, get_city cfg (Js.ascii_lower s) w = get_city cfg s w)
  /\ (forall w, get_city cfg (Js.ascii_upper s) w = get_city cfg s w)
  /\ (forall w, get_country cfg (Js.ascii_lower s) w = get_country cfg s w)
  /\ (forall w, get_country cfg (Js.ascii_upper s) w = get_country cfg s w).
Proof.
  intros Hfold.
  assert (Hlow : cityKeyToDisplayName (case_tables cfg) (Js.ascii_lower s)
                 = cityKeyToDisplayName (case_tables cfg) s).
  { apply cityKeyToDisplayName_map_chars;
      [apply lower_keeps_dash | apply lower_keeps_units
      | intros x; apply (Hfold x) | intros x; apply (Hfold x)]. }
  assert (Hupp : cityKeyToDisplayName (case_tables cfg) (Js.ascii_upper s)
                 = cityKeyToDisplayName (case_tables cfg) s).
  { apply cityKeyToDisplayName_map_chars;
      [apply upper_keeps_dash | apply upper_keeps_units
      | intros x; apply (Hfold x) | intros x; apply (Hfold x)]. }
  destruct (Hfold s) as (_ & _ & Hul & Huu).
  repeat split.
  - exact Hlow.
  - exact Hupp.
  - intros w. unfold get_city. now rewrite Hlow.
  - intros w. unfold get_city. now rewrite Hupp.
  - intros w. unfold get_country. now rewrite Hul.
  - intros w. unfold get_country. now rewrite Huu.
Qed.

Lemma keys_and_codes_ignore_case_witness :
  folds_ascii_case (case_tables demo_cfg)
  /\ cityKeyToDisplayName (case_tables demo_cfg) (Js.ascii_upper "den-haag")
     = cityKeyToDisplayName (case_tables demo_cfg) "den-haag"
  /\ forall w, get_country demo_cfg (Js.ascii_lower "BE") w = get_country demo_cfg "BE" w.
Proof.
  assert (Hfold : folds_ascii_case (case_tables demo_cfg)) by exact ascii_tables_fold_case.
  destruct (keys_and_codes_ignore_case demo_cfg "den-haag" Hfold) as (_ & Hupp & _).
  destruct (keys_and_codes_ignore_case demo_cfg "BE" Hfold) as (_ & _ & _ & _ & Hlow & _).
  split; [exact Hfold|]. split; [exact Hupp | exact Hlow].
Defined.

(* ===================================================================== *)
(** ** What a response carries *)
(* ===================================================================== *)

Section Responses.

Lemma stripMongoId_no_id (d : doc) : stripMongoId d !! "_id" = None.
Proof. unfold stripMongoId. apply lookup_delete_eq. Qed.

Lemma stripped_docs (l : list doc) :
  Forall (fun d : doc => d !! "_id" = None) (map stripMongoId l).
Proof.
  induction l as [|d l IH]; simpl; constructor; [apply stripMongoId_no_id | exact IH].
Qed.

Lemma hoisted_stripped (tag : string) (l : list doc) :
  Forall (fun d : doc => d !! "_id" = None) l ->
  Forall (fun d : doc => d !! "_id" = None)
         (with_hoisted (fst (hoist tag l)) (snd (hoist tag l))).
Proof.
  intros H. eapply Permutation_Forall; [|exact H].
  symmetry. apply hoist_perm.
Qed.

Lemma update_matching_miss (q : doc -> bool) (set : doc) (l : list doc) :
  fst (update_matching q set l) = None -> snd (update_matching q set l) = l.
Proof.
  rewrite update_matching_find. intros H. apply update_matching_none.
  destruct (List.find q l); [discriminate H | reflexivity].
Qed.

End Responses.

Ltac no_id_docs :=
  repeat match goal with
         | |- Forall _ [] => constructor
         | |- Forall _ (stripMongoId _ :: _) => constructor; [apply stripMongoId_no_id|]
         | |- Forall _ (map stripMongoId _) => apply stripped_docs
         end.

(** X20. No [_id] leaves the server: whatever the request and the store,
    no document of the response has an [_id] field, neither the entity
    that a read or a write returns, nor a page, nor an entity of a
    listing, hoisted or not. *)
Theorem responses_carry_no_id
    (cfg : Config) (env : Env) (req : Request) (w : World) (resp : Response) :
  fst (handle cfg env req w) = Ok resp ->
  Forall (fun d : doc => d !! "_id" = None) (docs_of (body resp)).
Proof.
  destruct w as [d n fs].
  destruct req; run_handler;
    repeat (simpl;
      match goal with
      | |- context [match ?f with [] => _ | _ :: _ => _ end] =>
          is_var f; destruct f as [|[?|] f]
      | |- context [match ?x with Some _ => _ | None => _ end] => destruct x
      | |- context [match ?x with inl _ => _ | inr _ => _ end] => destruct x
      | |- context [hoist ?t (map stripMongoId ?l)] =>
          let H := fresh "Hh" in
          pose proof (hoisted_stripped t _ (stripped_docs l)) as H;
          destruct (hoist t (map stripMongoId l)); simpl in H
      | |- context [if ?b then _ else _] => destruct b eqn:?
      end);
    simpl; intros Hresp; try discriminate Hresp;
    injection Hresp as <-; simpl; first [assumption | no_id_docs].
Qed.

Lemma responses_carry_no_id_witness :
  exists resp,
    fst (handle demo_cfg later_env (GetEntity "cities" "brussels") stocked) = Ok resp
    /\ status resp = 200
    /\ Forall (fun d : doc => d !! "_id" = None) (docs_of (body resp)).
Proof.
  destruct (fst (handle demo_cfg later_env (GetEntity "cities" "brussels") stocked))
    as [resp|e] eqn:E.
  - exists resp. split; [reflexivity|]. split.
    + revert E. vm_compute. intros [= <-]. reflexivity.
    + exact (responses_carry_no_id _ _ _ _ _ E).
  - exfalso. revert E. vm_compute. discriminate.
Defined.

(** X21. Every request is answered, whatever the store does: no error
    escapes a handler.  The session cookie is set by a login answered
    200 alone, with the token just made and the options of
    [adminCookieOptions], and cleared by a logout answered 200 alone;
    every other response leaves the cookies alone. *)
Theorem every_request_is_answered
    (cfg : Config) (env : Env) (req : Request) (w : World) :
  exists resp,
    fst (handle cfg env req w) = Ok resp
    /\ (cookie resp = NoCookie
        \/ session_opened cfg env req resp
        \/ session_closed req resp).
Proof.
  destruct w as [d n fs].
  destruct req; run_handler; handler_cases;
    eexists; (split; [reflexivity|]); simpl; auto.
Qed.

(** X22. The [entities] collection changes with a write that is
    reported done and with nothing else: a request leaves the collection
    as it was unless it is a POST answered 201 or a PUT answered 200. *)
Theorem entities_change_with_a_reported_write_only
    (cfg : Config) (env : Env) (req : Request) (w : World) (resp : Response) :
  fst (handle cfg env req w) = Ok resp ->
  ~ entity_written req resp ->
  entities (db (snd (handle cfg env req w))) = entities (db w).
Proof.
  destruct w as [d n fs].
  destruct req; run_handler;
    repeat (simpl;
      match goal with
      | |- context [match ?f with [] => _ | _ :: _ => _ end] =>
          is_var f; destruct f as [|[?|] f]
      | |- context [fst (update_matching ?q ?s ?l)] =>
          let E := fresh "Emiss" in
          destruct (fst (update_matching q s l)) eqn:E;
          [|apply update_matching_miss in E]
      | |- context [match ?x with Some _ => _ | None => _ end] => destruct x
      | |- context [match ?x with inl _ => _ | inr _ => _ end] => destruct x
      | |- context [hoist ?t ?l] => destruct (hoist t l)
      | |- context [if ?b then _ else _] => destruct b eqn:?
      end);
    simpl; intros Hresp Hnot; try reflexivity; try assumption;
    try discriminate Hresp; injection Hresp as <-;
    exfalso; apply Hnot; reflexivity.
Qed.

Lemma entities_change_with_a_reported_write_only_witness :
  exists resp,
    fst (handle demo_cfg later_env
           (PostEntity (Some demo_token) "cities" "brussels" (Some hostile_body)) stocked)
    = Ok resp
    /\ status resp = 409
    /\ entities (db (snd (handle demo_cfg later_env
           (PostEntity (Some demo_token) "cities" "brussels" (Some hostile_body)) stocked)))
       = entities (db stocked).
Proof.
  destruct (fst (handle demo_cfg later_env
           (PostEntity (Some demo_token) "cities" "brussels" (Some hostile_body)) stocked))
    as [resp|e] eqn:E.
  - assert (Hs : status resp = 409).
    { revert E. vm_compute. intros [= <-]. reflexivity. }
    exists resp. split; [reflexivity|]. split; [exact Hs|].
    apply (entities_change_with_a_reported_write_only _ _ _ _ _ E).
    simpl. rewrite Hs. discriminate.
  - exfalso. revert E. vm_compute. discriminate.
Defined.

(* ===================================================================== *)
(** ** Invariants of the store *)
(* ===================================================================== *)

Section LoginSound.

Lemma handle_account_ids (cfg : Config) (env : Env) (req : Request) (w : World) :
  map accountId (sessions (db (snd (handle cfg env req w))))
  = map accountId (sessions (db w))
  \/ exists a,
       In a (accounts (db w))
       /\ map accountId (sessions (db (snd (handle cfg env req w))))
          = map accountId (sessions (db w)) ++ [account_id a].
Proof.
  destruct req as [b| | | | | | | | |];
    try (left; destruct w as [d n fs]; run_handler; handler_cases; simpl;
         rewrite ?update_first_map by reflexivity; reflexivity).
  change (handle cfg env (PostAdminLogin b) w) with (post_admin_login cfg env b w).
  destruct (login_effect cfg env b w)
    as [[Hdb _] | (test & a & s & _ & _ & Hfind & _ & Hdb & _ & (_ & _ & Hid & _) & _)].
  - left. now rewrite Hdb.
  - right. exists a. split; [exact (proj1 (List.find_some _ _ Hfind))|].
    rewrite Hdb. cbn [sessions]. now rewrite map_app, <- Hid.
Qed.

End LoginSound.

(** X23. A login succeeds for an account that the body selects and
    whose password the body holds, and for no other.  When it answers
    200, the store has read the username of the body as a test on names
    (equality with a string; the operators of an object whose first
    field starts with a dollar sign, which can select an account without
    naming it, as [login_by_operator] shows), an enabled account of the
    store passes that test, the hasher verifies the hash of that account
    against the password of the body, and the one session that the login
    adds is a session of that account, created and last seen now.  With
    a username that is a string, the account is the one of that name. *)
Theorem login_needs_valid_credentials
    (cfg : Config) (env : Env) (b : LoginBody) (w : World) :
  succeeded (fst (post_admin_login cfg env b w)) ->
  exists test a s,
    username_filter cfg (or_undefined (json_username b)) = inr test
    /\ In a (accounts (db w)) /\ test (username a) = true /\ disabled a = false
    /\ argon2_verify cfg (passwordHash a) (or_undefined (json_password b)) = inr true
    /\ sessions (db (snd (post_admin_login cfg env b w))) = sessions (db w) ++ [s]
    /\ accountId s = account_id a
    /\ createdAt s = now env /\ lastSeenAt s = now env /\ revokedAt s = None
    /\ (forall u, json_username b = Some (VStr u) -> username a = u)
    /\ (forall p, json_password b = Some (VStr p) ->
                  argon2_verify cfg (passwordHash a) (VStr p) = inr true).
Proof.
  intros Hok.
  destruct (login_effect cfg env b w)
    as [[_ Hno] | (test & a & s & _ & Htest & Hfind & Hver & Hdb & _
                   & (_ & Hr & Hid & Hc & Hl) & _)];
    [contradiction|].
  apply List.find_some in Hfind as [Hin Hen].
  apply andb_prop in Hen as [Hname Hdis]. apply negb_true_iff in Hdis.
  exists test, a, s. repeat split; try assumption.
  - rewrite Hdb. reflexivity.
  - intros u Hu. rewrite Hu in Htest. cbn in Htest.
    injection Htest as <-. now apply String.eqb_eq in Hname.
  - intros p Hp. rewrite Hp in Hver. exact Hver.
Qed.

Lemma login_needs_valid_credentials_witness :
  succeeded (fst (post_admin_login demo_cfg demo_env (credentials "admin" "correct") demo_world))
  /\ exists a,
       In a (accounts demo_db) /\ username a = "admin"%string /\ disabled a = false
       /\ argon2_verify demo_cfg (passwordHash a) (VStr "correct") = inr true.
Proof.
  assert (Hok : succeeded (fst (post_admin_login demo_cfg demo_env
                                  (credentials "admin" "correct") demo_world))).
  { eexists. split; [vm_compute; reflexivity | reflexivity]. }
  split; [exact Hok|].
  destruct (login_needs_valid_credentials _ _ _ _ Hok)
    as (test & a & s & _ & Hin & _ & Hdis & _ & _ & _ & _ & _ & _ & Hname & Hver).
  exists a. repeat split;
    [exact Hin | exact (Hname _ eq_refl) | exact Hdis | exact (Hver _ eq_refl)].
Defined.

(** A username that is an operator names no account and selects one:
    with the operator [$ne] and the password of the administrator, the
    login answers 200 and opens a session of the administrator. *)
Example login_by_operator :
  let r := post_admin_login demo_cfg demo_env (by_operator "correct") demo_world in
  succeeded (fst r)
  /\ map accountId (sessions (db (snd r))) = [account_id admin_account].
Proof.
  split; [eexists; split; [vm_compute; reflexivity | reflexivity]|].
  vm_compute. reflexivity.
Qed.

(** X24. On a store where every session belongs to an account, every
    session belongs to an account after any run of requests. *)
Theorem sessions_keep_their_accounts
    (cfg : Config) (reqs : list (Env * Request)) (w : World) :
  sessions_have_accounts (db w) -> sessions_have_accounts (db (serve cfg reqs w)).
Proof.
  unfold sessions_have_accounts.
  revert w. induction reqs as [|[env req] reqs IH]; intros w H; [exact H|].
  simpl. apply IH.
  rewrite (proj1 (handle_keeps_accounts_pages cfg env req w)).
  destruct (handle_account_ids cfg env req w) as [-> | (a & Hin & ->)]; [exact H|].
  apply incl_app; [exact H|].
  intros x [<- | []]. now apply in_map.
Qed.

Lemma sessions_keep_their_accounts_witness :
  sessions_have_accounts (db demo_world)
  /\ sessions_have_accounts (db (serve demo_cfg later_requests demo_world)).
Proof.
  assert (H : sessions_have_accounts (db demo_world)) by (intros x []).
  split; [exact H|].
  exact (sessions_keep_their_accounts demo_cfg later_requests demo_world H).
Defined.

Section Paths.

Lemma path_of_identifiers (l : list doc) :
  map path_of l = map (fun i => (snd (fst i), snd i)) (map identifiers l).
Proof. rewrite map_map. reflexivity. Qed.

Lemma canonical_path (list key : string) (d : doc) :
  canonical list key d -> path_of d = (Some (VStr list), Some (VStr key)).
Proof. intros [Hl Hk]. unfold path_of. now rewrite Hl, Hk. Qed.

Lemma path_matches (list key : string) (d : doc) :
  path_of d = (Some (VStr list), Some (VStr key)) -> same_list_key list key d = true.
Proof.
  unfold path_of, same_list_key, field_eq. intros [= -> ->].
  now rewrite !String.eqb_refl.
Qed.

Lemma fresh_path (l : list doc) (list key : string) :
  List.find (same_list_key list key) l = None ->
  ~ In (Some (VStr list), Some (VStr key)) (map path_of l).
Proof.
  intros Hnone Hin. apply in_map_iff in Hin as (d & Hpath & Hd).
  apply path_matches in Hpath.
  rewrite (List.find_none _ _ Hnone d Hd) in Hpath. discriminate.
Qed.

Lemma NoDup_snoc {A} (l : list A) (x : A) : NoDup l -> ~ In x l -> NoDup (l ++ [x]).
Proof.
  intros Hl Hx. apply NoDup_app. repeat split.
  - exact Hl.
  - intros y Hy Hy'. apply list_elem_of_In in Hy.
    apply list_elem_of_In in Hy' as [<- | []]. contradiction.
  - apply NoDup_singleton.
Qed.

(** What a request does to the paths of the entities: nothing, or one
    more path that no stored entity matched. *)
Lemma handle_paths (cfg : Config) (env : Env) (req : Request) (w : World) :
  map path_of (entities (db (snd (handle cfg env req w)))) = map path_of (entities (db w))
  \/ exists list key,
       List.find (same_list_key list key) (entities (db w)) = None
       /\ map path_of (entities (db (snd (handle cfg env req w))))
          = map path_of (entities (db w)) ++ [(Some (VStr list), Some (VStr key))].
Proof.
  destruct req as [| | | | | | | |raw list key req_body|raw list key req_body];
    try (left; destruct w as [d n fs]; run_handler; handler_cases; reflexivity).
  - pose proof (canonical_path _ _ _ (post_payload_canonical env list key req_body)) as Hp.
    pose proof (canonical_path _ _ _
                  (canonical_with_id list key (VOid (next_oid w)) _
                     (post_payload_canonical env list key req_body))) as Hp'.
    destruct w as [d n fs]. simpl in Hp'. run_handler.
    repeat (simpl;
      match goal with
      | |- context [match ?f with [] => _ | _ :: _ => _ end] =>
          is_var f; destruct f as [|[?|] f]
      | |- context [match List.find ?q ?l with Some _ => _ | None => _ end] =>
          destruct (List.find q l) eqn:?
      | |- context [match ?x with Some _ => _ | None => _ end] => destruct x eqn:?
      | |- context [if ?b then _ else _] => destruct b eqn:?
      end);
      simpl; try (left; reflexivity);
      right; exists list, key; (split; [assumption|]);
      rewrite map_app; simpl; first [now rewrite Hp | now rewrite Hp'].
  - left.
    destruct (put_set_identifiers env req_body) as (Hi & Hl & Hk).
    pose proof (update_matching_identifiers (same_list_key list key)
                  (put_set env req_body) (entities (db w)) Hi Hl Hk) as Hids.
    apply (f_equal (map (fun i : option value * option value * option value =>
                           (snd (fst i), snd i)))) in Hids.
    rewrite <- !path_of_identifiers in Hids.
    destruct w as [d n fs]. simpl in Hids. run_handler. handler_cases;
      simpl; first [reflexivity | exact Hids].
Qed.

End Paths.

(** X25. Requests that the server handles one after another keep the
    entities apart: on a store with one entity at most under a list and
    a key, there is one at most after any run of requests, each handled
    to its end before the next.  Nothing is said of requests in flight
    together, between which the handler of POST can look for the entity
    of each before it files that of the other: there it is the unique
    index of the store that refuses the second. *)
Theorem entity_paths_stay_unique
    (cfg : Config) (reqs : list (Env * Request)) (w : World) :
  one_per_path (db w) -> one_per_path (db (serve cfg reqs w)).
Proof.
  unfold one_per_path.
  revert w. induction reqs as [|[env req] reqs IH]; intros w H; [exact H|].
  simpl. apply IH.
  destruct (handle_paths cfg env req w) as [-> | (list & key & Hnone & ->)]; [exact H|].
  apply NoDup_snoc; [exact H | now apply fresh_path].
Qed.

Lemma entity_paths_stay_unique_witness :
  one_per_path (db stocked)
  /\ one_per_path (db (serve demo_cfg entity_requests stocked))
  /\ length (entities (db (serve demo_cfg entity_requests stocked))) = 2%nat.
Proof.
  assert (H : one_per_path (db stocked)).
  { unfold one_per_path.
    replace (map path_of (entities (db stocked)))
      with [(Some (VStr "cities"), Some (VStr "brussels"))] by (vm_compute; reflexivity).
    apply NoDup_singleton. }
  split; [exact H|].
  split; [exact (entity_paths_stay_unique demo_cfg entity_requests stocked H)|].
  vm_compute. reflexivity.
Defined.
